(** * joefriday/mem: a shallow embedding of meminfo.go

    The development follows the Go source: [Info], [Serialize] and
    [Deserialize], the one-shot scanner [GetInfo] and the ticker-driven
    scanner [DataTicker].  Go's [int] is taken at its 64-bit width (the
    package reads /proc/meminfo, so it runs on Linux; all supported 64-bit
    ports have a 64-bit [int]). *)

From Stdlib Require Import ZArith List Lia Bool Strings.Byte.
From Stdlib Require Strings.String.
Import ListNotations String.StringSyntax.
Delimit Scope string_scope with string.
Open Scope Z_scope.

(** ** Go values: bytes, slices, fixed-width integers *)

Module Go.

Definition nl : byte := x0a.      (* '\n' *)
Definition cr : byte := x0d.      (* '\r' *)
Definition space : byte := x20.   (* ' '  *)
Definition colon : byte := x3a.   (* ':'  *)

Definition byte_val (c : byte) : Z := Z.of_N (Byte.to_N c).

(** [[]byte("...")] *)
Definition B (s : String.string) : list byte :=
  String.list_byte_of_string s.
Arguments B s%_string.

(** [s[lo:]] and [s[lo:hi]] for in-range bounds. *)
Definition slice_from {A} (s : list A) (lo : Z) : list A :=
  skipn (Z.to_nat lo) s.
Definition slice {A} (s : list A) (lo hi : Z) : list A :=
  firstn (Z.to_nat (hi - lo)) (skipn (Z.to_nat lo) s).

Definition len {A} (s : list A) : Z := Z.of_nat (length s).

(** [bytes.IndexByte]: index of the first [c], or -1. *)
Fixpoint IndexByte (b : list byte) (c : byte) : Z :=
  match b with
  | [] => -1
  | x :: b' =>
      if Byte.eqb x c then 0
      else let r := IndexByte b' c in if r <? 0 then -1 else r + 1
  end.

(** [bytes.Equal] *)
Fixpoint Equal (a b : list byte) : bool :=
  match a, b with
  | [], [] => true
  | x :: a', y :: b' => Byte.eqb x y && Equal a' b'
  | _, _ => false
  end.

(** Conversion of an integer value to [int64] (and to the 64-bit [int]):
    two's complement wrap-around. *)
Definition to_int64 (z : Z) : Z := (z + 2 ^ 63) mod 2 ^ 64 - 2 ^ 63.
Definition to_int (z : Z) : Z := to_int64 z.

Definition in_int64 (z : Z) : Prop := - 2 ^ 63 <= z < 2 ^ 63.

(** Results of calls that return [(value, error)]. *)
Inductive result (A E : Type) : Type :=
| OK (a : A)
| Err (e : E).
Arguments OK {A E} a.
Arguments Err {A E} e.

End Go.
Import Go.

(** ** The record *)

Record Info : Type := mkInfo {
  Timestamp : Z;      (* int64 *)
  MemTotal : Z;       (* int *)
  MemFree : Z;
  MemAvailable : Z;
  Buffers : Z;
  Cached : Z;
  SwapCached : Z;
  Active : Z;
  Inactive : Z;
  SwapTotal : Z;
  SwapFree : Z
}.

(** The zero value [Info{}] with the timestamp set. *)
Definition Info_at (ts : Z) : Info := mkInfo ts 0 0 0 0 0 0 0 0 0 0.

(** Every field of a Go [Info] is a 64-bit signed integer. *)
Definition Info_wf (s : Info) : Prop :=
  in_int64 (Timestamp s) /\ in_int64 (MemTotal s) /\ in_int64 (MemFree s) /\
  in_int64 (MemAvailable s) /\ in_int64 (Buffers s) /\ in_int64 (Cached s) /\
  in_int64 (SwapCached s) /\ in_int64 (Active s) /\ in_int64 (Inactive s) /\
  in_int64 (SwapTotal s) /\ in_int64 (SwapFree s).

(** ** Labels *)

Definition memTotal := B "MemTotal".
Definition memFree := B "MemFree".
Definition memAvailable := B "MemAvailable".
Definition buffers := B "Buffers".
Definition cached := B "Cached".
Definition swapCached := B "SwapCached".
Definition active := B "Active".
Definition inactive := B "Inactive".
Definition swapTotal := B "SwapTotal".
Definition swapFree := B "SwapFree".

Definition known_labels : list (list byte) :=
  [memTotal; memFree; memAvailable; buffers; cached; swapCached; active;
   inactive; swapTotal; swapFree].

(** ** GetInfo *)

Module OneShot.

(** The [switch] of [GetInfo]: the first case whose label equals [name]
    stores [int(v)]; no case, no store. *)
Definition assign (name : list byte) (v : Z) (f : Info) : Info :=
  let '(mkInfo ts mt mf ma bu ca sc ac ina st sf) := f in
  if Equal name memTotal then mkInfo ts (to_int v) mf ma bu ca sc ac ina st sf
  else if Equal name memFree then mkInfo ts mt (to_int v) ma bu ca sc ac ina st sf
  else if Equal name memAvailable then mkInfo ts mt mf (to_int v) bu ca sc ac ina st sf
  else if Equal name buffers then mkInfo ts mt mf ma (to_int v) ca sc ac ina st sf
  else if Equal name cached then mkInfo ts mt mf ma bu (to_int v) sc ac ina st sf
  else if Equal name swapCached then mkInfo ts mt mf ma bu ca (to_int v) ac ina st sf
  else if Equal name active then mkInfo ts mt mf ma bu ca sc (to_int v) ina st sf
  else if Equal name inactive then mkInfo ts mt mf ma bu ca sc ac (to_int v) st sf
  else if Equal name swapTotal then mkInfo ts mt mf ma bu ca sc ac ina (to_int v) sf
  else if Equal name swapFree then mkInfo ts mt mf ma bu ca sc ac ina st (to_int v)
  else f.

(** [for _, c := range buf[i+1:] { i++; if c != ' ' { break } }],
    given the bytes of [buf[i+1:]] and the current [i]. *)
Fixpoint skipSpaces (s : list byte) (i : Z) : Z :=
  match s with
  | [] => i
  | c :: s' => if Byte.eqb c space then skipSpaces s' (i + 1) else i + 1
  end.

(** [c > '9' || c < '0'] *)
Definition notDigit (c : byte) : bool :=
  (byte_val c >? byte_val x39) || (byte_val c <? byte_val x30).

(** [for _, c := range buf[i:] { if c > '9' || c < '0' { break }; i++ }],
    given the bytes of [buf[i:]] and the current [i]. *)
Fixpoint skipDigits (s : list byte) (i : Z) : Z :=
  match s with
  | [] => i
  | c :: s' => if notDigit c then i else skipDigits s' (i + 1)
  end.

Section WithParseUint.

(** [helpers.ParseUint] belongs to an external package
    (github.com/SermoDigital/helpers); the scanner is parametric in it. *)
Context {error : Type}.
Variable ParseUint : list byte -> result Z error.

(** What one pass through the body of the [for p := 0; ; ] loop does. *)
Inductive outcome : Type :=
| Break                         (* no ':' left: leave the loop *)
| Return (e : error)            (* [return nil, err] *)
| Next (p : Z) (f : Info).      (* go round again *)

Definition body (buf : list byte) (p : Z) (f : Info) : outcome :=
  let o := IndexByte (slice_from buf p) colon in
  if o <? 0 then Break
  else
    let i := p + o in
    let name := slice buf p i in
    let i := skipSpaces (slice_from buf (i + 1)) i in
    let p := i in
    let i := skipDigits (slice_from buf i) i in
    match ParseUint (slice buf p i) with
    | Err e => Return e
    | OK v =>
        let p := i + IndexByte (slice_from buf i) nl + 1 in
        Next p (assign name v f)
    end.

(** An outcome seen from a buffer that has [k] more bytes in front. *)
Definition shift (k : Z) (o : outcome) : outcome :=
  match o with
  | Next p f => Next (k + p) f
  | other => other
  end.

(** The loop, with a bound on the number of passes; [None] when the
    bound is reached before the loop is left. *)
Fixpoint loop (fuel : nat) (buf : list byte) (p : Z) (f : Info)
  : option (result Info error) :=
  match fuel with
  | O => None
  | S fuel' =>
      match body buf p f with
      | Break => Some (OK f)
      | Return e => Some (Err e)
      | Next p' f' => loop fuel' buf p' f'
      end
  end.

(** [GetInfo], given what [ioutil.ReadFile] returned and the clock
    reading [time.Now().UTC().UnixNano()].  A run that ends makes at
    most [length buf + 1] passes and a larger bound changes nothing
    ([OneShotFacts.loop_fuel]): [None] is a scan without end. *)
Definition GetInfo (file : result (list byte) error) (now : Z)
  : option (result Info error) :=
  match file with
  | Err e => Some (Err e)
  | OK buf => loop (S (length buf)) buf 0 (Info_at now)
  end.

End WithParseUint.

(** The value of a run of decimal digits. *)
Fixpoint decimal (acc : Z) (b : list byte) : option Z :=
  match b with
  | [] => Some acc
  | c :: b' =>
      if notDigit c then None
      else decimal (acc * 10 + (byte_val c - byte_val x30)) b'
  end.

(** A decimal reader, to stand for [ParseUint] in examples: it accepts
    a non-empty run of digits whose value fits 64 bits. *)
Definition parseDecimal (b : list byte) : result Z unit :=
  match b with
  | [] => Err tt
  | _ => match decimal 0 b with
         | Some v => if v <? 2 ^ 64 then OK v else Err tt
         | None => Err tt
         end
  end.

(** The same reader, but for the empty run of digits, which it takes
    for 0. *)
Definition parseLenient (b : list byte) : result Z unit :=
  match decimal 0 b with
  | Some v => if v <? 2 ^ 64 then OK v else Err tt
  | None => Err tt
  end.

End OneShot.

(** ** The FlatBuffers codec *)

(** Modelled from the spec: the generated accessors of the [Data] table
    ([DataStart], [DataAdd...], [DataEnd], [GetRootAsData] and the getters
    of [Data]) and the FlatBuffers [Builder] and [Table] they call are not
    among the sources.  The spec describes the wire format as flat,
    little-endian, schema-described and forward-extensible, with every
    field a 64-bit integer in schema order; the model below is the
    FlatBuffers table layout that fits this description: scalars are
    written back to front and aligned to their size, a field equal to its
    default (0) is not stored, and a vtable of 16-bit offsets locates the
    stored ones. *)
Module FB.

Definition byte_of_Z (z : Z) : byte :=
  match Byte.of_N (Z.to_N (z mod 256)) with
  | Some b => b
  | None => x00
  end.

(** Little-endian encoding on [n] bytes (of [z] modulo [2^(8n)]) and
    unsigned decoding. *)
Fixpoint put_le (n : nat) (z : Z) : list byte :=
  match n with
  | O => []
  | S n' => byte_of_Z z :: put_le n' (Z.shiftr z 8)
  end.

Fixpoint get_le (b : list byte) : Z :=
  match b with
  | [] => 0
  | c :: b' => byte_val c + 256 * get_le b'
  end.

(** Reinterpretation of an unsigned [w]-bit value as a signed one. *)
Definition signed (w : Z) (u : Z) : Z :=
  if u <? 2 ^ (w - 1) then u else u - 2 ^ w.

Definition SizeVOffsetT : Z := 2.
Definition SizeUOffsetT : Z := 4.
Definition SizeSOffsetT : Z := 4.
Definition SizeInt64 : Z := 8.
Definition VtableMetadataFields : Z := 2.

(** Modelled from the spec: the builder of the encoder, which is not
    among the sources.  [Bytes] is filled from its end towards its
    front; [buf] is the written part [Bytes[head:]], so that [Offset()]
    is its length and placing a value is consing its bytes. *)
Record Builder : Type := mkBuilder {
  buf : list byte;
  minalign : Z;
  vtable : list Z;
  objectEnd : Z
}.

Definition NewBuilder : Builder := mkBuilder [] 1 [] 0.

(** [Reset] empties the buffer and keeps its storage. *)
Definition Reset (b : Builder) : Builder := mkBuilder [] 1 [] (objectEnd b).

Definition Offset (b : Builder) : Z := len (buf b).

Definition Pad (n : Z) (b : Builder) : Builder :=
  mkBuilder (repeat x00 (Z.to_nat n) ++ buf b) (minalign b) (vtable b) (objectEnd b).

(** [Prep]: record the largest alignment seen and pad so that, after
    [additional] more bytes, the offset is a multiple of [size]. *)
Definition Prep (size additional : Z) (b : Builder) : Builder :=
  let b := if minalign b <? size
           then mkBuilder (buf b) size (vtable b) (objectEnd b) else b in
  let alignSize := Z.lnot (Offset b + additional) + 1 in
  let alignSize := Z.land alignSize (size - 1) in
  Pad alignSize b.

Definition Place (n : nat) (x : Z) (b : Builder) : Builder :=
  mkBuilder (put_le n x ++ buf b) (minalign b) (vtable b) (objectEnd b).

Definition PrependInt64 (x : Z) (b : Builder) : Builder :=
  Place 8 x (Prep SizeInt64 0 b).

Definition PrependVOffsetT (x : Z) (b : Builder) : Builder :=
  Place 2 x (Prep SizeVOffsetT 0 b).

(** [PrependSOffsetT] and [PrependUOffsetT] store the distance from the
    new position back to [off]. *)
Definition PrependSOffsetT (off : Z) (b : Builder) : Builder :=
  let b := Prep SizeSOffsetT 0 b in
  Place 4 (Offset b - off + SizeSOffsetT) b.

Definition PrependUOffsetT (off : Z) (b : Builder) : Builder :=
  let b := Prep SizeUOffsetT 0 b in
  Place 4 (Offset b - off + SizeUOffsetT) b.

Fixpoint set_nth (l : list Z) (n : nat) (x : Z) : list Z :=
  match l, n with
  | [], _ => []
  | _ :: l', O => x :: l'
  | y :: l', S n' => y :: set_nth l' n' x
  end.

Definition Slot (slotnum : Z) (b : Builder) : Builder :=
  mkBuilder (buf b) (minalign b)
    (set_nth (vtable b) (Z.to_nat slotnum) (Offset b)) (objectEnd b).

(** A value equal to the default is not written. *)
Definition PrependInt64Slot (o : Z) (x d : Z) (b : Builder) : Builder :=
  if x =? d then b else Slot o (PrependInt64 x b).

Definition StartObject (numfields : nat) (b : Builder) : Builder :=
  mkBuilder (buf b) (minalign b) (repeat 0 numfields) (Offset b).

(** [vtable[:i+1]] for the last [i] with [vtable[i] != 0]. *)
Fixpoint trim (vt : list Z) : list Z :=
  match vt with
  | [] => []
  | o :: vt' =>
      match trim vt' with
      | [] => if o =? 0 then [] else [o]
      | t => o :: t
      end
  end.

(** Overwrite [length w] bytes of [s] from index [i] on. *)
Definition overwrite (s : list byte) (i : Z) (w : list byte) : list byte :=
  firstn (Z.to_nat i) s ++ w ++ skipn (Z.to_nat i + length w) s.

(** Modelled from the spec: [WriteVtable], which is not among the
    sources, for a builder that holds no earlier vtable to share:
    reserve the table's offset to its vtable, write the vtable entries
    last to first, then the table size and the vtable size, and fill in
    the reserved offset. *)
Definition WriteVtable (b : Builder) : Builder * Z :=
  let b := PrependSOffsetT 0 b in
  let objectOffset := Offset b in
  let vt := trim (vtable b) in
  let b := fold_left
             (fun b o =>
                PrependVOffsetT (if o =? 0 then 0 else objectOffset - o) b)
             (rev vt) b in
  let objectSize := objectOffset - objectEnd b in
  let b := PrependVOffsetT objectSize b in
  let vBytes := (len vt + VtableMetadataFields) * SizeVOffsetT in
  let b := PrependVOffsetT vBytes b in
  let objectStart := len (buf b) - objectOffset in
  let b := mkBuilder
             (overwrite (buf b) objectStart (put_le 4 (Offset b - objectOffset)))
             (minalign b) [] (objectEnd b) in
  (b, objectOffset).

Definition EndObject (b : Builder) : Builder * Z := WriteVtable b.

Definition Finish (r : Builder * Z) : Builder :=
  let '(b, rootTable) := r in
  PrependUOffsetT rootTable (Prep (minalign b) SizeUOffsetT b).

(** [builder.Bytes[builder.Head():]] *)
Definition FinishedBytes (b : Builder) : list byte := buf b.

(** Reading.  An access outside the buffer panics: [None]. *)
Definition read (p : list byte) (off : Z) (n : nat) : option Z :=
  if (0 <=? off) && (off + Z.of_nat n <=? len p)
  then Some (get_le (slice p off (off + Z.of_nat n)))
  else None.

Definition GetUOffsetT (p : list byte) (off : Z) : option Z := read p off 4.
Definition GetVOffsetT (p : list byte) (off : Z) : option Z := read p off 2.
Definition GetSOffsetT (p : list byte) (off : Z) : option Z :=
  option_map (signed 32) (read p off 4).
Definition GetInt64 (p : list byte) (off : Z) : option Z :=
  option_map (signed 64) (read p off 8).

Record Table : Type := mkTable { Bytes : list byte; Pos : Z }.

Definition to_uint32 (z : Z) : Z := z mod 2 ^ 32.

(** [Table.Offset]: the entry of the vtable for the field, or 0 when the
    vtable is too short to have one. *)
Definition TableOffset (t : Table) (vtableOffset : Z) : option Z :=
  match GetSOffsetT (Bytes t) (Pos t) with
  | None => None
  | Some so =>
      let vt := to_uint32 (Pos t - so) in
      match GetVOffsetT (Bytes t) vt with
      | None => None
      | Some vsize =>
          if vtableOffset <? vsize
          then GetVOffsetT (Bytes t) (to_uint32 (vt + vtableOffset))
          else Some 0
      end
  end.

(** Modelled from the spec: a generated getter of an [int64] field
    with default 0; the getters are not among the sources. *)
Definition Int64Field (t : Table) (vtableOffset : Z) : option Z :=
  match TableOffset t vtableOffset with
  | None => None
  | Some o => if o =? 0 then Some 0
              else GetInt64 (Bytes t) (to_uint32 (o + Pos t))
  end.

End FB.

(** Modelled from the spec: the generated code of the [Data] table
    (Data.go, not among the sources): eleven [long] fields, in the order
    of the record and of the calls of [Serialize]. *)
Module Data.
Import FB.

Definition DataStart (b : Builder) : Builder := StartObject 11 b.
Definition DataAddTimestamp (v : Z) b := PrependInt64Slot 0 v 0 b.
Definition DataAddMemTotal (v : Z) b := PrependInt64Slot 1 v 0 b.
Definition DataAddMemFree (v : Z) b := PrependInt64Slot 2 v 0 b.
Definition DataAddMemAvailable (v : Z) b := PrependInt64Slot 3 v 0 b.
Definition DataAddBuffers (v : Z) b := PrependInt64Slot 4 v 0 b.
Definition DataAddCached (v : Z) b := PrependInt64Slot 5 v 0 b.
Definition DataAddSwapCached (v : Z) b := PrependInt64Slot 6 v 0 b.
Definition DataAddActive (v : Z) b := PrependInt64Slot 7 v 0 b.
Definition DataAddInactive (v : Z) b := PrependInt64Slot 8 v 0 b.
Definition DataAddSwapTotal (v : Z) b := PrependInt64Slot 9 v 0 b.
Definition DataAddSwapFree (v : Z) b := PrependInt64Slot 10 v 0 b.
Definition DataEnd (b : Builder) : Builder * Z := EndObject b.

Definition GetRootAsData (p : list byte) (offset : Z) : option Table :=
  match GetUOffsetT p offset with
  | Some n => Some (mkTable p (to_uint32 (n + offset)))
  | None => None
  end.

Definition Timestamp t := Int64Field t 4.
Definition MemTotal t := Int64Field t 6.
Definition MemFree t := Int64Field t 8.
Definition MemAvailable t := Int64Field t 10.
Definition Buffers t := Int64Field t 12.
Definition Cached t := Int64Field t 14.
Definition SwapCached t := Int64Field t 16.
Definition Active t := Int64Field t 18.
Definition Inactive t := Int64Field t 20.
Definition SwapTotal t := Int64Field t 22.
Definition SwapFree t := Int64Field t 24.
End Data.

(** ** Serialize and Deserialize *)

Definition Serialize (i : Info) : list byte :=
  let builder := FB.NewBuilder in
  let builder := Data.DataStart builder in
  let builder := Data.DataAddTimestamp (to_int64 (Timestamp i)) builder in
  let builder := Data.DataAddMemTotal (to_int64 (MemTotal i)) builder in
  let builder := Data.DataAddMemFree (to_int64 (MemFree i)) builder in
  let builder := Data.DataAddMemAvailable (to_int64 (MemAvailable i)) builder in
  let builder := Data.DataAddBuffers (to_int64 (Buffers i)) builder in
  let builder := Data.DataAddCached (to_int64 (Cached i)) builder in
  let builder := Data.DataAddSwapCached (to_int64 (SwapCached i)) builder in
  let builder := Data.DataAddActive (to_int64 (Active i)) builder in
  let builder := Data.DataAddInactive (to_int64 (Inactive i)) builder in
  let builder := Data.DataAddSwapTotal (to_int64 (SwapTotal i)) builder in
  let builder := Data.DataAddSwapFree (to_int64 (SwapFree i)) builder in
  let builder := FB.Finish (Data.DataEnd builder) in
  FB.FinishedBytes builder.

(** [None] stands for the panic on bytes that are not a [Data] table. *)
Definition Deserialize (p : list byte) : option Info :=
  match Data.GetRootAsData p 0 with
  | None => None
  | Some data =>
      match Data.Timestamp data, Data.MemTotal data, Data.MemFree data,
            Data.MemAvailable data, Data.Buffers data, Data.Cached data,
            Data.SwapCached data, Data.Active data, Data.Inactive data,
            Data.SwapTotal data, Data.SwapFree data with
      | Some ts, Some mt, Some mf, Some ma, Some bu, Some ca, Some sc,
        Some ac, Some ina, Some st, Some sf =>
          Some (mkInfo ts (to_int mt) (to_int mf) (to_int ma) (to_int bu)
                  (to_int ca) (to_int sc) (to_int ac) (to_int ina)
                  (to_int st) (to_int sf))
      | _, _, _, _, _, _, _, _, _, _, _ => None
      end
  end.

(** ** GetData *)

(** [GetData]: the record of [GetInfo], serialized; an error of
    [GetInfo] is passed on. *)
Definition GetData {error} (ParseUint : list byte -> result Z error)
  (file : result (list byte) error) (now : Z)
  : option (result (list byte) error) :=
  match OneShot.GetInfo ParseUint file now with
  | Some (OK inf) => Some (OK (Serialize inf))
  | Some (Err e) => Some (Err e)
  | None => None
  end.

(** ** DataTicker *)

Module Ticker.
Import FB Data.

(** The errors of [strconv]: [ErrSyntax] and [ErrRange]. *)
Inductive NumError : Type := ErrSyntax | ErrRange.

(** The digit loop of [strconv.ParseUint(s, 10, 64)]. *)
Fixpoint parseDigits (n : Z) (s : list byte) : result Z NumError :=
  match s with
  | [] => OK n
  | c :: s' =>
      if (byte_val x30 <=? byte_val c) && (byte_val c <=? byte_val x39) then
        let d := byte_val c - byte_val x30 in
        if n >=? (2 ^ 64 - 1) / 10 + 1 then Err ErrRange
        else
          let n1 := n * 10 + d in
          if n1 >? 2 ^ 64 - 1 then Err ErrRange else parseDigits n1 s'
      else Err ErrSyntax
  end.

(** [strconv.Atoi] on a 64-bit [int]: an optional sign, then at least
    one decimal digit, the value within the range of [int]. *)
Definition Atoi (s : list byte) : result Z NumError :=
  match s with
  | [] => Err ErrSyntax
  | c :: s' =>
      let neg := Byte.eqb c x2d in
      let digits := if neg || Byte.eqb c x2b then s' else s in
      match digits with
      | [] => Err ErrSyntax
      | _ =>
          match parseDigits 0 digits with
          | Err e => Err e
          | OK un =>
              if negb neg && (un >=? 2 ^ 63) then Err ErrRange
              else if neg && (un >? 2 ^ 63) then Err ErrRange
              else OK (if neg then - un else un)
          end
      end
  end.

(** [bufio.NewReaderSize(tmp, 1536)] *)
Definition readerSize : Z := 1536.

(** [io.EOF] and [bufio.ErrBufferFull]. *)
Inductive ReadErr : Type := EOF | ErrBufferFull.

(** [bufio.Reader.ReadSlice('\n')], given the bytes of the file not yet
    read: the line with its terminator; or, with [io.EOF], what is left
    when that has no terminator; or, with [bufio.ErrBufferFull], a full
    buffer that has none. *)
Definition ReadSlice (rd : list byte)
  : list byte * option ReadErr * list byte :=
  let i := IndexByte (slice rd 0 readerSize) nl in
  if 0 <=? i then (slice rd 0 (i + 1), None, slice_from rd (i + 1))
  else if len rd <? readerSize then (rd, Some EOF, [])
  else (slice rd 0 readerSize, Some ErrBufferFull, slice_from rd readerSize).

(** What goes wrong, as wrapped in [joe.Error{Type: "mem", Op, Err}]
    (the type is declared in the root package; its three fields are
    those of the literals in [DataTicker]). *)
Inductive cause : Type :=
| OpenFailed
| ReadFailed (e : ReadErr)
| ConvFailed (e : NumError).

Record Error : Type :=
  mkError { Type_ : String.string; Op : String.string; Err_ : cause }.
Arguments mkError (Type_ Op)%_string Err_.

(** The variables declared before the ticker loop that outlive a line:
    the line count, the position after the last ':' seen, the scratch
    slice and the builder. *)
Record State : Type := mkState {
  l : Z;
  pos : Z;
  val : list byte;
  bldr : Builder
}.

Definition initial : State := mkState 0 0 [] NewBuilder.

(** [for i, v = range line { if v == ':' { pos = i + 1; break };
    val = append(val, v) }] *)
Fixpoint grabName (line : list byte) (i : Z) (val : list byte) (pos : Z)
  : list byte * Z :=
  match line with
  | [] => (val, pos)
  | v :: rest =>
      if Byte.eqb v colon then (val, i + 1)
      else grabName rest (i + 1) (val ++ [v]) pos
  end.

(** [for i, v = range line[pos:] { if v != ' ' { pos += i; break } }] *)
Fixpoint skipSpaces (s : list byte) (i : Z) (pos : Z) : Z :=
  match s with
  | [] => pos
  | v :: rest =>
      if negb (Byte.eqb v space) then pos + i else skipSpaces rest (i + 1) pos
  end.

(** [for _, v = range line[pos:] { if v == ' ' || v == '\r' { break };
    val = append(val, v) }] *)
Fixpoint grabNumber (s : list byte) (val : list byte) : list byte :=
  match s with
  | [] => val
  | v :: rest =>
      if Byte.eqb v space || Byte.eqb v cr then val
      else grabNumber rest (val ++ [v])
  end.

(** The chain of [if name == "..."] tests. *)
Definition store (name : list byte) (i : Z) (b : Builder) : Builder :=
  if Equal name (B "MemTotal") then DataAddMemTotal (to_int64 i) b
  else if Equal name (B "MemFree") then DataAddMemFree (to_int64 i) b
  else if Equal name (B "MemAvailable") then DataAddMemAvailable (to_int64 i) b
  else if Equal name (B "Buffers") then DataAddBuffers (to_int64 i) b
  else if Equal name (B "Cached") then DataAddMemAvailable (to_int64 i) b
  else if Equal name (B "SwapCached") then DataAddSwapCached (to_int64 i) b
  else if Equal name (B "Active") then DataAddActive (to_int64 i) b
  else if Equal name (B "Inactive") then DataAddInactive (to_int64 i) b
  else if Equal name (B "SwapTotal") then DataAddSwapTotal (to_int64 i) b
  else if Equal name (B "SwapFree") then DataAddSwapFree (to_int64 i) b
  else b.

(** The label of a line as the first loop leaves it in [name]: the
    bytes already in [val], then the bytes of the line up to its ':'. *)
Definition lineName (line : list byte) (st : State) : list byte :=
  fst (grabName line 0 (val st) (pos st)).

(** The body of the line loop from the label on, for a line that is not
    skipped.  [None] is the run-time panic of [line[pos:]] when [pos]
    is beyond the line. *)
Definition parseLine (line : list byte) (st : State)
  : option (list Error * State) :=
  let name := lineName line st in
  let pos := snd (grabName line 0 (val st) (pos st)) in
  let val := @nil byte in
  if len line <? pos then None
  else
    let pos := skipSpaces (slice_from line pos) 0 pos in
    let val := grabNumber (slice_from line pos) val in
    match Atoi val with
    | Err e =>
        Some ([mkError "mem" "convert to int" (ConvFailed e)],
              mkState (l st) pos val (bldr st))
    | OK i =>
        Some ([], mkState (l st) pos [] (store name i (bldr st)))
    end.

(** The line loop of one tick.  [fuel] bounds the number of passes;
    every pass but the last consumes a line. *)
Fixpoint scan (fuel : nat) (rd : list byte) (st : State)
  : option (list Error * option State) :=
  match fuel with
  | O => None
  | S fuel' =>
      if l st =? 16 then Some ([], Some st)
      else
        match ReadSlice rd with
        | (_, Some EOF, _) => Some ([], Some st)
        | (_, Some e, _) =>
            Some ([mkError "mem" "read command results" (ReadFailed e)],
                  Some st)
        | (line, None, rd') =>
            let st := mkState (l st + 1) (pos st) (val st) (bldr st) in
            if (l st >? 8) && (l st <? 15) then scan fuel' rd' st
            else
              match parseLine line st with
              | None => Some ([], None)
              | Some (errs, st') =>
                  match scan fuel' rd' st' with
                  | Some (errs', r) => Some (errs ++ errs', r)
                  | None => None
                  end
              end
        end
  end.

(** The line loop with all the passes it can make: each pass but the
    last consumes at least one byte. *)
Definition scanAll (rd : list byte) (st : State)
  : option (list Error * option State) :=
  scan (S (length rd)) rd st.

(** What the function does that can be seen from outside.  A send is
    recorded when it completes; [data] holds the bytes of the slice
    [bldr.Bytes[bldr.Head():]] at that time.  The slice is not copied:
    it shares its storage with the builder, which [Reset] hands back to
    the next tick, so they are the bytes a receiver finds as long as no
    later tick has written the builder. *)
Inductive action : Type :=
| SendErr (e : Error)          (* errCh <- e *)
| SendOut (data : list byte)   (* outCh <- data *)
| CloseOut                     (* close(outCh) *)
| StopTicker                   (* ticker.Stop() *)
| Panic.

(** What the [select] takes when the function comes to it: [Done] when
    [<-done] yields, a value sent on the channel or its close alike; or
    a tick, with the clock reading and what [os.Open] and the reads of
    the file then give. *)
Inductive event : Type :=
| Done
| Tick (now : Z) (file : result (list byte) unit).

(** The [case <-ticker.C] branch, with the sends in their order.  The
    state is [None] after a panic. *)
Definition tick (now : Z) (file : result (list byte) unit) (st : State)
  : option (list action * option State) :=
  match file with
  | Err _ =>
      Some ([SendErr (mkError "mem" "open /proc/meminfo" OpenFailed)],
            Some st)
  | OK content =>
      let b := DataAddTimestamp now (DataStart (bldr st)) in
      let st := mkState (l st) (pos st) (val st) b in
      match scanAll content st with
      | None => None
      | Some (errs, None) => Some (map SendErr errs ++ [Panic], None)
      | Some (errs, Some st) =>
          let b := Finish (DataEnd (bldr st)) in
          let data := FinishedBytes b in
          Some (map SendErr errs ++ [SendOut data],
                Some (mkState 0 (pos st) (val st) (Reset b)))
      end
  end.

(** The two deferred calls, run when the function is left. *)
Definition deferred : list action := [CloseOut; StopTicker].

(** The sends on a channel that complete: all of them, or the first
    [n].  The channels are the caller's; whether a send completes is up
    to their buffers and receivers.  The function does one thing at a
    time and its sends are plain send statements, outside the
    [select]: of the sends on a channel either every one completes, or
    there is a first one that never does, and the function stays in
    it. *)
Inductive credit : Type :=
| Unbounded
| Sends (n : nat).

Definition take (c : credit) : option credit :=
  match c with
  | Unbounded => Some Unbounded
  | Sends (S n) => Some (Sends n)
  | Sends O => None
  end.

(** Where the function is when it goes no further. *)
Inductive place : Type :=
| InSelect       (* waiting in [select] for the next event *)
| InSendOut      (* waiting in [outCh <- data] *)
| InSendErr      (* waiting in [errCh <- ...] *)
| Returned       (* left by [return]; the deferred calls have run *)
| Panicked.      (* left by a panic; the calls deferred by then have run *)

(** The actions of a tick as far as the channels let them go: the
    actions done, what the channels still take, and the send in which
    the function waits, if there is one. *)
Fixpoint deliver (acts : list action) (out err : credit)
  : list action * (credit * credit) * option place :=
  match acts with
  | [] => ([], (out, err), None)
  | a :: rest =>
      match a with
      | SendOut _ =>
          match take out with
          | None => ([], (out, err), Some InSendOut)
          | Some out' =>
              let '(sent, c, w) := deliver rest out' err in (a :: sent, c, w)
          end
      | SendErr _ =>
          match take err with
          | None => ([], (out, err), Some InSendErr)
          | Some err' =>
              let '(sent, c, w) := deliver rest out err' in (a :: sent, c, w)
          end
      | _ => let '(sent, c, w) := deliver rest out err in (a :: sent, c, w)
      end
  end.

(** The loop of [DataTicker], from the first [select] on.  [evs] are
    the events in the order in which the [select] takes them, as far
    as the function comes back to it; [out] and [err] are what the two
    channels take.  The result is the trace of the actions done and
    the place the function is in at the end.  The done signal is looked
    at in the [select] only: a tick that waits in a send never comes to
    the events that follow, the done signal among them. *)
Fixpoint run (evs : list event) (st : State) (out err : credit)
  : option (list action * place) :=
  match evs with
  | [] => Some ([], InSelect)
  | Done :: _ => Some (deferred, Returned)
  | Tick now file :: evs' =>
      match tick now file st with
      | None => None
      | Some (acts, r) =>
          match deliver acts out err with
          | (sent, _, Some w) => Some (sent, w)
          | (sent, (out', err'), None) =>
              match r with
              | None => Some (sent ++ deferred, Panicked)
              | Some st' =>
                  match run evs' st' out' err' with
                  | Some (acts', w) => Some (sent ++ acts', w)
                  | None => None
                  end
              end
          end
      end
  end.

(** [DataTicker(interval, outCh, done, errCh)].  [time.NewTicker]
    panics when the interval is not positive; the two calls are
    deferred after it, so that panic leaves the function with the
    output channel open. *)
Definition DataTicker (interval : Z) (evs : list event) (out err : credit)
  : option (list action * place) :=
  if interval <=? 0 then Some ([Panic], Panicked)
  else run evs initial out err.

End Ticker.

(** ** Vocabulary of the statements *)

(** A line of the form [Label: value unit], as /proc/meminfo has them:
    the label, the colon, spaces, a run of digits, the rest of the line
    and the line terminator. *)
Record Line : Type := mkLine {
  label : list byte;
  spaces : nat;
  digits : list byte;
  trailer : list byte
}.

Definition render (x : Line) : list byte :=
  label x ++ [colon] ++ repeat space (spaces x) ++ digits x ++ trailer x ++ [nl].

(** The parts are what they are called: no colon in the label, digits in
    the digit run, which the rest of the line does not prolong, and the
    terminator only at the end. *)
Definition shaped (x : Line) : Prop :=
  ~ In colon (label x) /\
  Forall (fun c => OneShot.notDigit c = false) (digits x) /\
  ~ In nl (trailer x) /\
  match trailer x with
  | [] => True
  | c :: _ => OneShot.notDigit c = true /\ (digits x = [] -> c <> space)
  end.

(** The labels and the fields they name. *)
Definition label_fields : list (list byte * (Info -> Z)) :=
  [(memTotal, MemTotal); (memFree, MemFree); (memAvailable, MemAvailable);
   (buffers, Buffers); (cached, Cached); (swapCached, SwapCached);
   (active, Active); (inactive, Inactive); (swapTotal, SwapTotal);
   (swapFree, SwapFree)].

(** The label [L] occurs in [buf], followed by its colon. *)
Definition labelled (L buf : list byte) : Prop :=
  exists pre post, buf = pre ++ L ++ colon :: post.

(** A reader of decimal numbers: on a non-empty run of digits whose value
    fits 64 bits it returns that value. *)
Definition decimal_reader {error} (pu : list byte -> result Z error) : Prop :=
  forall b v, b <> [] -> OneShot.decimal 0 b = Some v -> v < 2 ^ 64 ->
              pu b = OK v.

(** The buffer of the end-to-end example. *)
Definition example_buffer : list byte :=
  B "MemTotal:    16384000 kB" ++ [nl] ++
  B "MemFree:     512000 kB" ++ [nl] ++
  B "Cached:      2048000 kB" ++ [nl].

Definition example_record : Info :=
  mkInfo 1000 16384000 512000 0 0 2048000 0 0 0 0 0.

(** A line as [ReadSlice] returns it without an error: bytes other than
    the terminator, then the terminator, within the reader's buffer. *)
Definition is_line (ln : list byte) : Prop :=
  exists body, ln = body ++ [nl] /\ ~ In nl body /\ len ln <= Ticker.readerSize.

(** The state with the line counted, as the line loop has it when it
    reaches the label. *)
Definition counted (st : Ticker.State) : Ticker.State :=
  Ticker.mkState (Ticker.l st + 1) (Ticker.pos st) (Ticker.val st)
    (Ticker.bldr st).

Definition with_errors (errs : list Ticker.Error)
  (r : option (list Ticker.Error * option Ticker.State))
  : option (list Ticker.Error * option Ticker.State) :=
  match r with
  | Some (errs', st) => Some (errs ++ errs', st)
  | None => None
  end.

(** The record a first tick sends for a sample, as its receiver decodes
    it. *)
Definition emitted (now : Z) (sample : list byte) : option Info :=
  match Ticker.tick now (OK sample) Ticker.initial with
  | Some (acts, _) =>
      match last acts Ticker.Panic with
      | Ticker.SendOut data => Deserialize data
      | _ => None
      end
  | None => None
  end.

(** The errors a first tick sends for a sample. *)
Definition reported (now : Z) (sample : list byte) : list Ticker.Error :=
  match Ticker.tick now (OK sample) Ticker.initial with
  | Some (acts, _) =>
      flat_map (fun a => match a with Ticker.SendErr e => [e] | _ => [] end) acts
  | None => []
  end.

Definition is_close (a : Ticker.action) : bool :=
  match a with Ticker.CloseOut => true | _ => false end.

Definition is_send_out (a : Ticker.action) : bool :=
  match a with Ticker.SendOut _ => true | _ => false end.

Definition is_deferred (a : Ticker.action) : bool :=
  match a with Ticker.CloseOut | Ticker.StopTicker => true | _ => false end.

(** The function has been left, by [return] or by a panic. *)
Definition has_left (p : Ticker.place) : bool :=
  match p with Ticker.Returned | Ticker.Panicked => true | _ => false end.



(** Lines nine to fourteen of a sample are the skipped ones. *)
Definition skipped (n : Z) : bool := (n >? 8) && (n <? 15).

(** ** Samples and properties the statements refer to *)

(** One line with the label [Cached]. *)
Definition cached_sample : list byte := B "Cached:      2048000 kB" ++ [nl].

(** Seventeen lines, the last of them with a label of the record. *)
Definition long_sample : list byte :=
  concat (repeat (B "Slab: 1 kB" ++ [nl]) 16) ++ B "MemTotal: 5 kB" ++ [nl].

(** A sample is over the cutoff and the tick says so. *)
Definition excess_is_reported (now : Z) (sample : list byte) : Prop :=
  (exists P R, sample = concat P ++ R /\ Forall is_line P /\
               length P = 16%nat /\ R <> [])
  -> reported now sample <> [].

(** A line whose value is no number, and a line after it. *)
Definition bad_line : list byte := B "MemTotal: x kB" ++ [nl].
Definition good_line : list byte := B "MemFree: 512000 kB" ++ [nl].



Definition started : Ticker.State :=
  Ticker.mkState 0 0 [] (Data.DataStart FB.NewBuilder).




(** Once the done signal is among the events the function returns and
    the output channel is closed, once. *)
Definition done_always_exits (interval : Z) (evs : list Ticker.event)
  (out err : Ticker.credit) : Prop :=
  In Ticker.Done evs ->
  exists acts,
    Ticker.DataTicker interval evs out err = Some (acts, Ticker.Returned) /\
    length (filter is_close acts) = 1%nat.


(** ** The layout of a finished table *)

Module Layout.
Import FB.

Definition zeros (n : Z) : list byte := repeat x00 (Z.to_nat n).

(** The value the getter of slot [k] is to find. *)
Definition slot_value (b : Builder) (k : nat) : Z :=
  let o := nth k (vtable b) 0 in
  if o =? 0 then 0
  else signed 64 (get_le (slice (buf b) (len (buf b) - o) (len (buf b) - o + 8))).

(** A builder between [DataStart] and [DataEnd], for a table that
    starts at offset 0 and has at most [N] bytes of fields. *)
Definition filling (N : Z) (b : Builder) : Prop :=
  objectEnd b = 0 /\
  len (buf b) <= N /\
  (minalign b = 1 \/ minalign b = 8) /\
  length (vtable b) = 11%nat /\
  Forall (fun o => o = 0 \/ 8 <= o <= len (buf b)) (vtable b).

(** A run of [DataAdd...] calls, as slot numbers and values. *)
Fixpoint adds (l : list (nat * Z)) (b : Builder) : Builder :=
  match l with
  | [] => b
  | (k, v) :: l' => adds l' (PrependInt64Slot (Z.of_nat k) v 0 b)
  end.

Fixpoint lookup (k : nat) (l : list (nat * Z)) : option Z :=
  match l with
  | [] => None
  | (k', v) :: l' => if Nat.eqb k k' then Some v else lookup k l'
  end.

(** The calls [Serialize] makes. *)
Definition fields (i : Info) : list (nat * Z) :=
  [(0, to_int64 (Timestamp i)); (1, to_int64 (MemTotal i));
   (2, to_int64 (MemFree i)); (3, to_int64 (MemAvailable i));
   (4, to_int64 (Buffers i)); (5, to_int64 (Cached i));
   (6, to_int64 (SwapCached i)); (7, to_int64 (Active i));
   (8, to_int64 (Inactive i)); (9, to_int64 (SwapTotal i));
   (10, to_int64 (SwapFree i))]%nat.

(** The padding in front of a 64-bit field. *)
Definition add_pad (b : Builder) : Z := (- len (buf b)) mod 8.

(** The parts of the bytes that [Finish (EndObject b)] leaves: the
    padding before the table, the offset of the table from the end, the
    vtable and the padding before it. *)
Definition pad1 (b : Builder) : Z := (- len (buf b)) mod 4.
Definition root (b : Builder) : Z := len (buf b) + pad1 b + 4.
Definition vsize (b : Builder) : Z := (len (trim (vtable b)) + 2) * 2.
Definition entry (b : Builder) (o : Z) : Z := if o =? 0 then 0 else root b - o.
Definition vtbytes (b : Builder) : list byte :=
  put_le 2 (vsize b) ++ put_le 2 (root b)
    ++ concat (map (fun o => put_le 2 (entry b o)) (trim (vtable b))).
Definition pad2 (b : Builder) : Z :=
  (- (vsize b + root b + 4)) mod Z.max (minalign b) 4.
Definition table_pos (b : Builder) : Z := pad2 b + vsize b + 4.
Definition finished (b : Builder) : list byte :=
  put_le 4 (pad2 b + vsize b + 4) ++ zeros (pad2 b) ++ vtbytes b
    ++ put_le 4 (vsize b) ++ zeros (pad1 b) ++ buf b.
End Layout.

(** ** Inputs of the examples *)

Definition ex_after : list byte := render (mkLine memFree 1 (B "7") (B " kB")).
Definition ex_slab : list byte := B "Slab: 1 kB" ++ [nl].

(** ** Vocabulary of the further properties *)

(** The stores a run of lines makes in [GetInfo], first line first,
    when [value x] is the number read from the line [x]. *)
Definition assign_all (value : Line -> Z) (xs : list Line) (f : Info) : Info :=
  fold_left (fun f x => OneShot.assign (label x) (value x) f) xs f.

(** A line that lacks its terminator. *)
Definition render_open (x : Line) : list byte :=
  label x ++ [colon] ++ repeat space (spaces x) ++ digits x ++ trailer x.

(** The number a run of digits stands for. *)
Definition number (x : Line) : Z :=
  match OneShot.decimal 0 (digits x) with
  | Some v => v
  | None => 0
  end.

(** A line as /proc/meminfo writes the fields of the record: a label
    without a line break, a number below [2^63], then a space (or a
    carriage return) and the unit; the line fits the reader's buffer. *)
Definition plain (x : Line) : Prop :=
  shaped x /\ ~ In nl (label x) /\ digits x <> [] /\ (number x < 2 ^ 63) /\
  (exists t, trailer x = space :: t \/ trailer x = cr :: t) /\
  (len (render x) <= Ticker.readerSize).

(** The state of the line loop after a [plain] line: the line counted,
    [pos] at the number, [val] emptied and the number stored under the
    label that the first loop has put together. *)
Definition after_plain (st : Ticker.State) (x : Line) : Ticker.State :=
  Ticker.mkState (Ticker.l st + 1)
    (len (label x) + 1 + Z.of_nat (spaces x)) []
    (Ticker.store (Ticker.val st ++ label x) (number x) (Ticker.bldr st)).

(** A state as [DataTicker] starts with and as a tick leaves it when the
    last conversion of the tick succeeded: no line counted, [val] empty,
    the builder reset. *)
Definition ready (st : Ticker.State) : Prop :=
  Ticker.l st = 0 /\ Ticker.val st = [] /\
  FB.buf (Ticker.bldr st) = [] /\ FB.minalign (Ticker.bldr st) = 1.

(** What a store of the ticker does to the record that the receiver
    decodes: a value of 0 is not written, and the value under the label
    [Cached] goes to [MemAvailable]. *)
Definition ticker_assign (name : list byte) (v : Z) (f : Info) : Info :=
  if to_int64 v =? 0 then f
  else OneShot.assign (if Equal name cached then memAvailable else name) v f.

Definition ticker_all (value : Line -> Z) (xs : list Line) (f : Info) : Info :=
  fold_left (fun f x => ticker_assign (label x) (value x) f) xs f.

(** The builder holds the fields of the record. *)
Definition holds (b : FB.Builder) (f : Info) : Prop :=
  Layout.slot_value b 0 = Timestamp f /\
  Layout.slot_value b 1 = MemTotal f /\
  Layout.slot_value b 2 = MemFree f /\
  Layout.slot_value b 3 = MemAvailable f /\
  Layout.slot_value b 4 = Buffers f /\
  Layout.slot_value b 5 = Cached f /\
  Layout.slot_value b 6 = SwapCached f /\
  Layout.slot_value b 7 = Active f /\
  Layout.slot_value b 8 = Inactive f /\
  Layout.slot_value b 9 = SwapTotal f /\
  Layout.slot_value b 10 = SwapFree f.

(** A sample as the line loop of the ticker divides it: the lines 1 to
    8, the lines 9 to 14, which are counted and not looked at, the lines
    15 and 16, and what follows them, which is not read.  A sample with
    fewer lines ends early. *)
Record Sample : Type := mkSample {
  top : list Line;
  mid : list (list byte);
  low : list Line;
  beyond : list byte
}.

Definition sample_bytes (s : Sample) : list byte :=
  concat (map render (top s)) ++ concat (mid s)
    ++ concat (map render (low s)) ++ beyond s.

Definition sample_ok (s : Sample) : Prop :=
  Forall plain (top s) /\ Forall is_line (mid s) /\ Forall plain (low s) /\
  (length (top s) <= 8)%nat /\ (length (mid s) <= 6)%nat /\
  (length (low s) <= 2)%nat /\
  ((length (top s) < 8)%nat -> mid s = []) /\
  ((length (mid s) < 6)%nat -> low s = []) /\
  ((length (low s) < 2)%nat -> beyond s = []).

(** The record the ticker makes of a sample. *)
Definition sample_record (now : Z) (s : Sample) : Info :=
  ticker_all number (top s ++ low s) (Info_at now).

(** The number on the [i]-th of the lines of a sample that the ticker
    looks at, counted from 0. *)
Definition value_at (s : Sample) (i : nat) : Z :=
  nth i (map number (top s ++ low s)) 0.

(** A state between two ticks: no line counted and the builder reset
    (or new). *)
Definition idle (st : Ticker.State) : Prop :=
  Ticker.l st = 0 /\
  FB.buf (Ticker.bldr st) = [] /\ FB.minalign (Ticker.bldr st) = 1.

(** The clock readings of the ticks among the events. *)
Definition clock_readings (evs : list Ticker.event) : list Z :=
  flat_map (fun ev => match ev with
                      | Ticker.Tick now _ => [now]
                      | Ticker.Done => []
                      end) evs.

(** The error of a line the reader's buffer cannot hold. *)
Definition buffer_full : Ticker.Error :=
  Ticker.mkError "mem" "read command results"
    (Ticker.ReadFailed Ticker.ErrBufferFull).

(** Three lines, the first label twice; a last line, to be written
    without its terminator; a line whose number is [2^64 - 1]. *)
Definition ex_twice : list Line :=
  [mkLine memTotal 1 (B "5") (B " kB"); mkLine memFree 3 (B "7") (B " kB");
   mkLine memTotal 1 (B "9") []].
Definition ex_open : Line := mkLine swapFree 2 (B "11") (B " kB").
Definition ex_large : Line :=
  mkLine active 1 (B "18446744073709551615") (B " kB").

(** A sample with the layout of /proc/meminfo: the eight first lines,
    six lines that the ticker skips, the two swap lines and more. *)
Definition ex_sample : Sample :=
  mkSample
    [mkLine memTotal 7 (B "16384000") (B " kB");
     mkLine memFree 9 (B "512000") (B " kB");
     mkLine memAvailable 3 (B "8000000") (B " kB");
     mkLine buffers 9 (B "100000") (B " kB");
     mkLine cached 9 (B "2048000") (B " kB");
     mkLine swapCached 10 (B "0") (B " kB");
     mkLine active 9 (B "3000000") (B " kB");
     mkLine inactive 7 (B "2000000") (B " kB")]
    (repeat ex_slab 6)
    [mkLine swapTotal 7 (B "4194300") (B " kB");
     mkLine swapFree 8 (B "4194300") (B " kB")]
    (B "Dirty: 12 kB" ++ [nl] ++ B "HugePages_Total: 0" ++ [nl]).

(** The same without the line [Cached], the skipped lines and the rest
    given as lines. *)
Definition ex_top : list Line :=
  [mkLine memTotal 7 (B "16384000") (B " kB");
   mkLine memFree 9 (B "512000") (B " kB");
   mkLine memAvailable 3 (B "8000000") (B " kB");
   mkLine buffers 9 (B "100000") (B " kB");
   mkLine (B "Shmem") 9 (B "2048000") (B " kB");
   mkLine swapCached 10 (B "0") (B " kB");
   mkLine active 9 (B "3000000") (B " kB");
   mkLine inactive 7 (B "2000000") (B " kB")].
Definition ex_mid : list Line := repeat (mkLine (B "Slab") 1 (B "1") (B " kB")) 6.
Definition ex_low : list Line :=
  [mkLine swapTotal 7 (B "4194300") (B " kB");
   mkLine swapFree 8 (B "4194300") (B " kB")].
Definition ex_beyond : list Line :=
  [mkLine (B "Dirty") 1 (B "12") (B " kB");
   mkLine (B "HugePages_Total") 1 (B "0") []].

(** Three ticks, the second of which cannot open the file, then the
    end. *)
Definition ex_events : list Ticker.event :=
  [Ticker.Tick 1000 (OK bad_line); Ticker.Tick 2000 (Err tt);
   Ticker.Tick 3000 (OK good_line); Ticker.Done].

(** A line whose number the line terminator follows at once, and a line
    whose number is [2^63]. *)
Definition ex_bare : Line := mkLine (B "HugePages_Total") 7 (B "0") [].
Definition ex_huge : Line :=
  mkLine memTotal 1 (B "9223372036854775808") (B " kB").

(** * Properties *)

(** ** Slices, [IndexByte] and [Equal] *)

Lemma len_app {A} (a b : list A) : len (a ++ b) = len a + len b.
Proof. unfold len. rewrite length_app. lia. Qed.

Lemma len_nonneg {A} (a : list A) : 0 <= len a.
Proof. unfold len. lia. Qed.

Lemma len_cons {A} (x : A) (a : list A) : len (x :: a) = 1 + len a.
Proof. unfold len. cbn [length]. lia. Qed.

Lemma len_nil {A} : len (@nil A) = 0.
Proof. reflexivity. Qed.

Lemma len_repeat {A} (a : A) (n : nat) : len (repeat a n) = Z.of_nat n.
Proof. unfold len. rewrite List.repeat_length. reflexivity. Qed.

Lemma slice_from_0 {A} (s : list A) : slice_from s 0 = s.
Proof. reflexivity. Qed.

Lemma slice_from_app {A} (pre s : list A) (q : Z) :
  0 <= q -> slice_from (pre ++ s) (len pre + q) = slice_from s q.
Proof.
  intros Hq. unfold slice_from, len.
  replace (Z.to_nat (Z.of_nat (length pre) + q))
    with (length pre + Z.to_nat q)%nat by lia.
  rewrite List.skipn_app.
  replace (length pre + Z.to_nat q - length pre)%nat
    with (Z.to_nat q) by lia.
  rewrite List.skipn_all2 by lia. reflexivity.
Qed.

Lemma slice_app {A} (pre s : list A) (q r : Z) :
  0 <= q -> slice (pre ++ s) (len pre + q) (len pre + r) = slice s q r.
Proof.
  intros Hq. unfold slice. fold (slice_from (pre ++ s) (len pre + q)).
  rewrite slice_from_app by assumption. unfold slice_from.
  f_equal. lia.
Qed.

Lemma byte_eqb_eq (a b : byte) : Byte.eqb a b = true <-> a = b.
Proof. apply Byte.byte_dec_bl || (split; [apply Byte.byte_dec_bl | apply Byte.byte_dec_lb]). Qed.

Lemma byte_eqb_refl (a : byte) : Byte.eqb a a = true.
Proof. apply byte_eqb_eq. reflexivity. Qed.

Lemma byte_eqb_neq (a b : byte) : Byte.eqb a b = false <-> a <> b.
Proof.
  split.
  - intros H E. apply byte_eqb_eq in E. congruence.
  - intros H. destruct (Byte.eqb a b) eqn:E; [|reflexivity].
    apply byte_eqb_eq in E. contradiction.
Qed.

Lemma IndexByte_range (b : list byte) (c : byte) :
  -1 <= IndexByte b c < len b.
Proof.
  induction b as [|x b IH]; cbn [IndexByte].
  - unfold len. cbn. lia.
  - rewrite len_cons. destruct (Byte.eqb x c).
    + pose proof (len_nonneg b). lia.
    + destruct (IndexByte b c <? 0) eqn:E; lia.
Qed.

Lemma IndexByte_absent (b : list byte) (c : byte) :
  ~ In c b -> IndexByte b c = -1.
Proof.
  induction b as [|x b IH]; cbn [IndexByte]; intros H; [reflexivity|].
  destruct (Byte.eqb x c) eqn:E.
  - apply byte_eqb_eq in E. exfalso. apply H. left. assumption.
  - rewrite IH by (intros ?; apply H; right; assumption). reflexivity.
Qed.

Lemma IndexByte_first (a r : list byte) (c : byte) :
  ~ In c a -> IndexByte (a ++ c :: r) c = len a.
Proof.
  induction a as [|x a IH]; intros H.
  - cbn. rewrite byte_eqb_refl. reflexivity.
  - cbn [app IndexByte]. destruct (Byte.eqb x c) eqn:E.
    + apply byte_eqb_eq in E. exfalso. apply H. left. assumption.
    + rewrite IH by (intros ?; apply H; right; assumption).
      rewrite len_cons. pose proof (len_nonneg a).
      destruct (len a <? 0) eqn:E2; lia.
Qed.

Lemma IndexByte_found (b : list byte) (c : byte) (o : Z) :
  IndexByte b c = o -> 0 <= o ->
  exists a r, b = a ++ c :: r /\ len a = o /\ ~ In c a.
Proof.
  revert o. induction b as [|x b IH]; cbn [IndexByte]; intros o E Ho.
  - lia.
  - destruct (Byte.eqb x c) eqn:Ex.
    + apply byte_eqb_eq in Ex. subst. exists [], b. repeat split. intros [].
    + destruct (IndexByte b c <? 0) eqn:E2; [lia|].
      destruct (IH (IndexByte b c) eq_refl ltac:(lia)) as (a & r & -> & Hl & Hn).
      exists (x :: a), r. rewrite len_cons. repeat split; [lia|].
      intros [->|?]; [|contradiction].
      rewrite byte_eqb_refl in Ex. discriminate.
Qed.

Lemma Equal_eq (a b : list byte) : Equal a b = true <-> a = b.
Proof.
  revert b. induction a as [|x a IH]; intros [|y b]; cbn [Equal];
    try (split; congruence).
  rewrite andb_true_iff, byte_eqb_eq, IH. split.
  - intros [-> ->]. reflexivity.
  - intros E. inversion E. auto.
Qed.

Lemma Equal_neq (a b : list byte) : a <> b -> Equal a b = false.
Proof.
  intros H. destruct (Equal a b) eqn:E; [|reflexivity].
  apply Equal_eq in E. contradiction.
Qed.

Lemma len_slice_from {A} (s : list A) (p : Z) :
  0 <= p -> len (slice_from s p) = Z.max 0 (len s - p).
Proof.
  intros Hp. unfold len, slice_from. rewrite length_skipn. lia.
Qed.

Lemma slice_from_len {A} (a b : list A) : slice_from (a ++ b) (len a) = b.
Proof.
  unfold slice_from, len. rewrite Nat2Z.id.
  rewrite List.skipn_app, List.skipn_all, Nat.sub_diag. reflexivity.
Qed.

Lemma slice_mid {A} (a b c : list A) :
  slice (a ++ b ++ c) (len a) (len a + len b) = b.
Proof.
  unfold slice. fold (slice_from (a ++ b ++ c) (len a)).
  rewrite slice_from_len.
  replace (Z.to_nat (len a + len b - len a)) with (length b)
    by (unfold len; lia).
  rewrite List.firstn_app, List.firstn_all, Nat.sub_diag.
  cbn. apply List.app_nil_r.
Qed.

Lemma slice_prefix {A} (w rest : list A) : slice (w ++ rest) 0 (len w) = w.
Proof.
  unfold slice, len. cbn [Z.to_nat skipn]. rewrite Z.sub_0_r, Nat2Z.id.
  rewrite firstn_app, firstn_all, Nat.sub_diag. cbn [firstn].
  apply app_nil_r.
Qed.

(** ** The one-shot scanner *)

Module OneShotFacts.
Import OneShot.

Lemma skipSpaces_shift (s : list byte) (k i : Z) :
  skipSpaces s (k + i) = k + skipSpaces s i.
Proof.
  revert i. induction s as [|c s IH]; intros i; cbn [skipSpaces]; [reflexivity|].
  destruct (Byte.eqb c space); [|lia].
  rewrite <- IH. f_equal. lia.
Qed.

Lemma skipDigits_shift (s : list byte) (k i : Z) :
  skipDigits s (k + i) = k + skipDigits s i.
Proof.
  revert i. induction s as [|c s IH]; intros i; cbn [skipDigits]; [reflexivity|].
  destruct (notDigit c); [reflexivity|].
  rewrite <- IH. f_equal. lia.
Qed.

Lemma skipSpaces_range (s : list byte) (i : Z) :
  i <= skipSpaces s i <= i + len s.
Proof.
  revert i. induction s as [|c s IH]; intros i; cbn [skipSpaces].
  - unfold len; cbn; lia.
  - rewrite len_cons. pose proof (len_nonneg s).
    destruct (Byte.eqb c space); [|lia].
    specialize (IH (i + 1)). lia.
Qed.

Lemma skipDigits_range (s : list byte) (i : Z) :
  i <= skipDigits s i <= i + len s.
Proof.
  revert i. induction s as [|c s IH]; intros i; cbn [skipDigits].
  - unfold len; cbn; lia.
  - rewrite len_cons. pose proof (len_nonneg s).
    destruct (notDigit c); [lia|].
    specialize (IH (i + 1)). lia.
Qed.

(** Past [n] spaces and on to the first byte that is none. *)
Lemma skipSpaces_run (n : nat) (c : byte) (s : list byte) (i : Z) :
  c <> space ->
  skipSpaces (repeat space n ++ c :: s) i = i + Z.of_nat n + 1.
Proof.
  intros Hc. revert i. induction n as [|n IH]; intros i.
  - cbn. apply byte_eqb_neq in Hc. rewrite Hc. lia.
  - cbn [repeat app skipSpaces]. rewrite byte_eqb_refl, IH. lia.
Qed.

Lemma skipDigits_run (d : list byte) (s : list byte) (i : Z) :
  Forall (fun c => notDigit c = false) d ->
  match s with [] => True | c :: _ => notDigit c = true end ->
  skipDigits (d ++ s) i = i + len d.
Proof.
  intros Hd Hs. revert i. induction Hd as [|c d Hc Hd IH]; intros i.
  - cbn [app]. unfold len. cbn [length].
    destruct s as [|c s]; cbn [skipDigits]; [lia|]. rewrite Hs. lia.
  - cbn [app skipDigits]. rewrite Hc, IH, len_cons. lia.
Qed.

Lemma assign_nil (v : Z) (f : Info) : assign [] v f = f.
Proof. destruct f. reflexivity. Qed.

Lemma assign_unknown (name : list byte) (v : Z) (f : Info) :
  ~ In name known_labels -> assign name v f = f.
Proof.
  intros H. destruct f. unfold assign.
  repeat match goal with
         | |- context [Equal name ?L] =>
             rewrite (Equal_neq name L)
               by (intros ->; apply H; unfold known_labels; cbn; tauto)
         end.
  reflexivity.
Qed.

Section WithParseUint.
Context {error : Type}.
Variable pu : list byte -> result Z error.

Lemma body_shift (pre s : list byte) (q : Z) (f : Info) :
  0 <= q ->
  body pu (pre ++ s) (len pre + q) f = shift (len pre) (body pu s q f).
Proof.
  intros Hq. unfold body.
  rewrite slice_from_app by assumption.
  destruct (IndexByte (slice_from s q) colon <? 0) eqn:Eo; [reflexivity|].
  pose proof (IndexByte_range (slice_from s q) colon) as Ho.
  set (o := IndexByte (slice_from s q) colon) in *.
  replace (len pre + q + o) with (len pre + (q + o)) by lia.
  rewrite slice_app by assumption.
  replace (len pre + (q + o) + 1) with (len pre + (q + o + 1)) by lia.
  rewrite slice_from_app by lia.
  rewrite skipSpaces_shift.
  pose proof (skipSpaces_range (slice_from s (q + o + 1)) (q + o)) as Hi.
  set (i := skipSpaces (slice_from s (q + o + 1)) (q + o)) in *.
  rewrite slice_from_app by lia.
  rewrite skipDigits_shift.
  pose proof (skipDigits_range (slice_from s i) i) as Hj.
  set (j := skipDigits (slice_from s i) i) in *.
  rewrite slice_app by lia.
  destruct (pu (slice s i j)); [|reflexivity].
  rewrite slice_from_app by lia. cbn [shift]. f_equal. lia.
Qed.

Lemma body_range (buf : list byte) (p p' : Z) (f f' : Info) :
  0 <= p -> body pu buf p f = Next p' f' ->
  p <= p' <= len buf /\ (p' = p -> f' = f).
Proof.
  intros Hp. unfold body.
  destruct (IndexByte (slice_from buf p) colon <? 0) eqn:Eo; [discriminate|].
  pose proof (IndexByte_range (slice_from buf p) colon) as Ho.
  rewrite len_slice_from in Ho by assumption.
  set (o := IndexByte (slice_from buf p) colon) in *.
  pose proof (skipSpaces_range (slice_from buf (p + o + 1)) (p + o)) as Hi.
  rewrite len_slice_from in Hi by lia.
  set (i := skipSpaces (slice_from buf (p + o + 1)) (p + o)) in *.
  pose proof (skipDigits_range (slice_from buf i) i) as Hj.
  rewrite len_slice_from in Hj by lia.
  set (j := skipDigits (slice_from buf i) i) in *.
  destruct (pu (slice buf i j)); [|discriminate].
  pose proof (IndexByte_range (slice_from buf j) nl) as Hn.
  rewrite len_slice_from in Hn by lia.
  intros E. injection E as <- <-. split; [lia|].
  intros Ep. assert (o = 0) as -> by lia.
  unfold slice. replace (Z.to_nat (p + 0 - p)) with O by lia.
  cbn [firstn]. apply assign_nil.
Qed.

Lemma loop_stuck (buf : list byte) (p : Z) (f : Info) :
  body pu buf p f = Next p f -> forall fuel, loop pu fuel buf p f = None.
Proof.
  intros E fuel. induction fuel as [|fuel IH]; cbn [loop]; [reflexivity|].
  rewrite E. exact IH.
Qed.

(** More passes than there are bytes left: the bound plays no part. *)
Lemma loop_fuel (fuel1 fuel2 : nat) (buf : list byte) (p : Z) (f : Info) :
  0 <= p ->
  (Z.to_nat (len buf - p) < fuel1)%nat ->
  (Z.to_nat (len buf - p) < fuel2)%nat ->
  loop pu fuel1 buf p f = loop pu fuel2 buf p f.
Proof.
  revert fuel2 p f.
  induction fuel1 as [|fuel1 IH]; intros fuel2 p f Hp H1 H2; [lia|].
  destruct fuel2 as [|fuel2]; [lia|]. cbn [loop].
  destruct (body pu buf p f) as [| e | p' f'] eqn:E; try reflexivity.
  destruct (body_range _ _ _ _ _ Hp E) as [Hr Hf].
  destruct (Z.eq_dec p' p) as [->|Hne].
  - rewrite (Hf eq_refl) in E |- *.
    rewrite !loop_stuck by assumption. reflexivity.
  - apply IH; lia.
Qed.

Lemma loop_shift (fuel : nat) (pre s : list byte) (q : Z) (f : Info) :
  0 <= q ->
  loop pu fuel (pre ++ s) (len pre + q) f = loop pu fuel s q f.
Proof.
  revert q f. induction fuel as [|fuel IH]; intros q f Hq; cbn [loop];
    [reflexivity|].
  rewrite body_shift by assumption.
  destruct (body pu s q f) as [| e | p' f'] eqn:E; cbn [shift];
    try reflexivity.
  apply IH. apply (body_range _ _ _ _ _ Hq) in E. lia.
Qed.

(** When the reader refuses the empty run of digits every pass moves
    on, and the loop ends within the bound. *)
Lemma body_progress (buf : list byte) (p p' : Z) (f f' : Info) :
  (forall tok v, pu tok = OK v -> tok <> []) ->
  0 <= p -> body pu buf p f = Next p' f' -> p < p'.
Proof.
  intros Hne Hp. unfold body.
  destruct (IndexByte (slice_from buf p) colon <? 0) eqn:Eo; [discriminate|].
  set (o := IndexByte (slice_from buf p) colon) in *.
  pose proof (skipSpaces_range (slice_from buf (p + o + 1)) (p + o)) as Hi.
  set (i := skipSpaces (slice_from buf (p + o + 1)) (p + o)) in *.
  pose proof (skipDigits_range (slice_from buf i) i) as Hj.
  set (j := skipDigits (slice_from buf i) i) in *.
  destruct (pu (slice buf i j)) as [v|e] eqn:Ev; [|discriminate].
  apply Hne in Ev.
  pose proof (IndexByte_range (slice_from buf j) nl) as Hn.
  intros E. injection E as <- _.
  assert (i < j); [|lia].
  destruct (Z_lt_le_dec i j) as [H|H]; [assumption|].
  exfalso. apply Ev. unfold slice.
  replace (Z.to_nat (j - i)) with O by lia. reflexivity.
Qed.

Lemma loop_returns (buf : list byte) :
  (forall tok v, pu tok = OK v -> tok <> []) ->
  forall fuel p f,
    0 <= p -> (Z.to_nat (len buf - p) < fuel)%nat ->
    exists r, loop pu fuel buf p f = Some r.
Proof.
  intros Hne. induction fuel as [|fuel IH]; intros p f Hp Hf; [lia|].
  cbn [loop].
  destruct (body pu buf p f) as [| e | p' f'] eqn:E; eauto.
  pose proof (body_progress _ _ _ _ _ Hne Hp E).
  apply (body_range _ _ _ _ _ Hp) in E. apply IH; lia.
Qed.

(** One pass over a line of the expected form. *)
Lemma body_line (x : Line) (post : list byte) (f : Info) :
  shaped x ->
  body pu (render x ++ post) 0 f =
  match pu (digits x) with
  | OK v => Next (len (render x)) (assign (label x) v f)
  | Err e => Return e
  end.
Proof.
  intros (Hlab & Hdig & Hnl & Htr).
  set (buf := render x ++ post).
  set (tail := trailer x ++ nl :: post).
  set (i := len (label x) + 1 + Z.of_nat (spaces x)).
  set (j := i + len (digits x)).
  pose proof (len_nonneg (label x)) as Hl0.
  assert (Hbuf : buf = (label x ++ [colon]) ++ repeat space (spaces x)
                         ++ digits x ++ tail).
  { unfold buf, render, tail. rewrite <- !app_assoc. reflexivity. }
  assert (Hlc : len (label x ++ [colon]) = len (label x) + 1)
    by (rewrite len_app; reflexivity).
  assert (Hi : i = len ((label x ++ [colon]) ++ repeat space (spaces x))).
  { unfold i. rewrite len_app, Hlc, len_repeat. lia. }
  assert (E1 : IndexByte (slice_from buf 0) colon = len (label x)).
  { rewrite slice_from_0, Hbuf. rewrite <- !app_assoc. cbn [app].
    apply IndexByte_first. assumption. }
  assert (E2 : slice buf 0 (len (label x)) = label x).
  { rewrite Hbuf, <- !app_assoc.
    change (label x ++ ?r) with ([] ++ label x ++ r).
    apply (slice_mid [] (label x)). }
  assert (E3 : skipSpaces (slice_from buf (len (label x) + 1)) (len (label x)) = i).
  { rewrite Hbuf, <- Hlc, slice_from_len.
    assert (Ht : exists c t, digits x ++ tail = c :: t /\ c <> space).
    { unfold tail. destruct (digits x) as [|c d] eqn:Ed.
      - destruct (trailer x) as [|c t].
        + exists nl, post. split; [reflexivity|discriminate].
        + exists c, (t ++ nl :: post). split; [reflexivity|].
          apply Htr. reflexivity.
      - exists c, (d ++ trailer x ++ nl :: post). split; [reflexivity|].
        inversion Hdig as [|? ? Hc _]; subst. intros ->. discriminate Hc. }
    destruct Ht as (c & t & -> & Hc).
    rewrite skipSpaces_run by assumption. unfold i. lia. }
  assert (E4 : skipDigits (slice_from buf i) i = j).
  { rewrite Hbuf, app_assoc, Hi, slice_from_len, <- Hi.
    apply skipDigits_run; [assumption|].
    unfold tail. destruct (trailer x); cbn; [reflexivity|apply Htr]. }
  assert (E5 : slice buf i j = digits x).
  { rewrite Hbuf, app_assoc. unfold j. rewrite Hi. apply slice_mid. }
  assert (E6 : IndexByte (slice_from buf j) nl = len (trailer x)).
  { rewrite Hbuf. rewrite 2!app_assoc.
    replace j with (len (((label x ++ [colon]) ++ repeat space (spaces x))
                           ++ digits x))
      by (rewrite len_app, <- Hi; reflexivity).
    rewrite slice_from_len. apply IndexByte_first. assumption. }
  unfold body. fold buf. rewrite E1.
  destruct (len (label x) <? 0) eqn:E0; [lia|]. cbn [Z.add].
  rewrite E2, E3, E4, E5.
  destruct (pu (digits x)) as [v|e]; [|reflexivity].
  rewrite E6. f_equal. unfold render.
  unfold j, i. rewrite !len_app, len_repeat, !len_cons, len_nil. lia.
Qed.

(** Scanning a line and going on is scanning what follows the line. *)
Lemma loop_line (fuel : nat) (x : Line) (post : list byte) (f : Info) :
  shaped x ->
  loop pu (S fuel) (render x ++ post) 0 f =
  match pu (digits x) with
  | OK v => loop pu fuel post 0 (assign (label x) v f)
  | Err e => Some (Err e)
  end.
Proof.
  intros Hx. cbn [loop]. rewrite body_line by assumption.
  destruct (pu (digits x)) as [v|e]; [|reflexivity].
  replace (len (render x)) with (len (render x) + 0) by lia.
  apply loop_shift. lia.
Qed.

Lemma render_length (x : Line) : (0 < length (render x))%nat.
Proof. unfold render. rewrite !length_app. cbn [length]. lia. Qed.

(** A buffer of one line. *)
Lemma GetInfo_line (x : Line) (v now : Z) :
  shaped x -> pu (digits x) = OK v ->
  GetInfo pu (OK (render x)) now
  = Some (OK (assign (label x) v (Info_at now))).
Proof.
  intros Hx Hv. unfold GetInfo.
  rewrite <- (app_nil_r (render x)) at 2.
  rewrite loop_line, Hv by assumption.
  pose proof (render_length x).
  destruct (length (render x)) as [|n]; [lia|]. reflexivity.
Qed.


(** A field is stored only under its own label. *)
Lemma assign_other (L name : list byte) (fld : Info -> Z) (v : Z) (f : Info) :
  In (L, fld) label_fields -> name <> L -> fld (assign name v f) = fld f.
Proof.
  intros HL Hne. destruct f. unfold assign.
  repeat match goal with
         | |- context [Equal name ?K] =>
             let E := fresh "E" in
             destruct (Equal name K) eqn:E;
             [apply Equal_eq in E|]
         end;
    unfold label_fields in HL; cbn [In] in HL;
    repeat (destruct HL as [HL|HL];
            [injection HL as <- <-; try reflexivity; congruence|]);
    try contradiction.
Qed.

Lemma body_name (buf : list byte) (p p' : Z) (f f' : Info) :
  0 <= p -> body pu buf p f = Next p' f' ->
  exists name v, f' = assign name v f /\ labelled name buf.
Proof.
  intros Hp. unfold body.
  destruct (IndexByte (slice_from buf p) colon <? 0) eqn:Eo; [discriminate|].
  destruct (IndexByte_found (slice_from buf p) colon _ eq_refl ltac:(lia))
    as (a & r & Ea & Hla & _).
  match goal with
  | |- match pu ?tok with _ => _ end = _ -> _ => destruct (pu tok) as [v|e]
  end; [|discriminate].
  intros E. injection E as _ <-.
  exists (slice buf p (p + IndexByte (slice_from buf p) colon)), v.
  split; [reflexivity|].
  exists (firstn (Z.to_nat p) buf), r.
  unfold slice. fold (slice_from buf p). rewrite Ea.
  replace (Z.to_nat (p + IndexByte (a ++ colon :: r) colon - p))
    with (length a) by (rewrite <- Ea; unfold len in Hla; lia).
  rewrite List.firstn_app, List.firstn_all, Nat.sub_diag. cbn [firstn].
  rewrite List.app_nil_r. rewrite <- Ea. unfold slice_from.
  symmetry. apply List.firstn_skipn.
Qed.

Lemma loop_absent (L : list byte) (fld : Info -> Z) (buf : list byte) :
  In (L, fld) label_fields -> ~ labelled L buf ->
  forall fuel p f r,
    0 <= p -> loop pu fuel buf p f = Some (OK r) -> fld f = 0 -> fld r = 0.
Proof.
  intros HL Habs.
  induction fuel as [|fuel IH]; intros p f r Hp; cbn [loop]; [discriminate|].
  destruct (body pu buf p f) as [| e | p' f'] eqn:E.
  - intros [= <-]. auto.
  - discriminate.
  - intros Hr Hf.
    destruct (body_name _ _ _ _ _ Hp E) as (name & v & -> & Hname).
    apply (IH p' (assign name v f) r);
      [apply (body_range _ _ _ _ _ Hp) in E; lia|assumption|].
    rewrite (assign_other L) by (try assumption; intros ->; contradiction).
    assumption.
Qed.

(** A reader that agrees with the decimal one gives its results. *)
Lemma loop_decimal :
  decimal_reader pu ->
  forall fuel buf p f r,
    loop parseDecimal fuel buf p f = Some (OK r) ->
    loop pu fuel buf p f = Some (OK r).
Proof.
  intros Hpu. induction fuel as [|fuel IH]; intros buf p f r; cbn [loop];
    [discriminate|].
  unfold body.
  destruct (IndexByte (slice_from buf p) colon <? 0);
    [intros [= ->]; reflexivity|].
  match goal with
  | |- context [parseDecimal ?t] => generalize t
  end.
  intros tok. unfold parseDecimal at 1.
  destruct tok as [|c tok]; [discriminate|].
  destruct (decimal 0 (c :: tok)) as [v|] eqn:Ed; [|discriminate].
  destruct (v <? 2 ^ 64) eqn:Ev; [|discriminate].
  rewrite (Hpu (c :: tok) v) by (try discriminate; try assumption; lia).
  apply IH.
Qed.

End WithParseUint.



(** With a reader that takes the empty run of digits for a number, a
    buffer that ends in a colon is scanned without end. *)
Lemma loop_forever (fuel : nat) (f : Info) :
  loop parseLenient fuel (B "MemTotal:") 0 f = None.
Proof.
  destruct fuel as [|fuel]; [reflexivity|]. cbn [loop].
  replace (body parseLenient (B "MemTotal:") 0 f)
    with (Next (error := unit) 8 (assign memTotal 0 f))
    by (destruct f; reflexivity).
  apply loop_stuck. destruct f; reflexivity.
Qed.

Lemma parseDecimal_reader : decimal_reader parseDecimal.
Proof.
  intros b v Hb Hd Hv. unfold parseDecimal.
  destruct b; [contradiction|]. rewrite Hd.
  destruct (v <? 2 ^ 64) eqn:E; [reflexivity|lia].
Qed.
End OneShotFacts.

(** ** The codec *)

Module CodecFacts.
Import FB Layout.

Lemma byte_val_byte_of_Z (z : Z) : byte_val (byte_of_Z z) = z mod 256.
Proof.
  unfold byte_val, byte_of_Z.
  pose proof (Z.mod_pos_bound z 256 ltac:(lia)) as Hb.
  destruct (Byte.of_N (Z.to_N (z mod 256))) as [b|] eqn:E.
  - apply Byte.to_of_N in E. rewrite E. lia.
  - apply Byte.of_N_None_iff in E. lia.
Qed.

Lemma length_put_le (n : nat) (z : Z) : length (put_le n z) = n.
Proof.
  revert z. induction n as [|n IH]; intros z; cbn [put_le length];
    [reflexivity|]. rewrite IH. reflexivity.
Qed.

Lemma len_put_le (n : nat) (z : Z) : len (put_le n z) = Z.of_nat n.
Proof. unfold len. rewrite length_put_le. reflexivity. Qed.

Lemma get_le_put_le (n : nat) (z : Z) :
  get_le (put_le n z) = z mod 2 ^ (8 * Z.of_nat n).
Proof.
  revert z. induction n as [|n IH]; intros z; cbn [put_le get_le].
  - cbn. rewrite Z.mod_1_r. reflexivity.
  - rewrite byte_val_byte_of_Z, IH, Z.shiftr_div_pow2 by lia.
    replace (8 * Z.of_nat (S n)) with (8 + 8 * Z.of_nat n) by lia.
    rewrite Z.pow_add_r by lia.
    change (2 ^ 8) with 256.
    rewrite (Z.rem_mul_r z 256 (2 ^ (8 * Z.of_nat n))) by lia.
    reflexivity.
Qed.

Lemma signed_wrap (v : Z) : in_int64 v -> signed 64 (v mod 2 ^ 64) = v.
Proof.
  unfold in_int64, signed. intros Hv.
  change (2 ^ (64 - 1)) with (2 ^ 63).
  destruct (Z_lt_le_dec v 0) as [Hn|Hp].
  - replace (v mod 2 ^ 64) with (v + 2 ^ 64).
    2:{ apply Z.mod_unique with (q := -1); lia. }
    destruct (v + 2 ^ 64 <? 2 ^ 63) eqn:E; lia.
  - rewrite Z.mod_small by lia.
    destruct (v <? 2 ^ 63) eqn:E; lia.
Qed.

Lemma to_int64_id (v : Z) : in_int64 v -> to_int64 v = v.
Proof.
  unfold in_int64, to_int64. intros Hv.
  rewrite Z.mod_small by lia. lia.
Qed.

(** Alignment *)
Lemma align_mod (x k : Z) :
  0 <= k -> Z.land (Z.lnot x + 1) (2 ^ k - 1) = (- x) mod 2 ^ k.
Proof.
  intros Hk. replace (Z.lnot x + 1) with (- x) by (unfold Z.lnot; lia).
  replace (2 ^ k - 1) with (Z.ones k) by (rewrite Z.ones_equiv; lia).
  apply Z.land_ones. assumption.
Qed.

Lemma Prep_eq (k size add : Z) (b : Builder) :
  0 <= k -> size = 2 ^ k ->
  Prep size add b =
  mkBuilder (zeros ((- (len (buf b) + add)) mod size) ++ buf b)
    (Z.max (minalign b) size) (vtable b) (objectEnd b).
Proof.
  intros Hk ->. unfold Prep, Pad, Offset, zeros.
  destruct (minalign b <? 2 ^ k) eqn:E; cbn [buf minalign vtable objectEnd];
    rewrite align_mod by assumption; f_equal; lia.
Qed.

Lemma PrependInt64_eq (x : Z) (b : Builder) :
  PrependInt64 x b =
  mkBuilder (put_le 8 x ++ zeros ((- len (buf b)) mod 8) ++ buf b)
    (Z.max (minalign b) 8) (vtable b) (objectEnd b).
Proof.
  unfold PrependInt64, SizeInt64.
  rewrite (Prep_eq 3) by (reflexivity || lia). unfold Place. cbn [buf minalign vtable objectEnd].
  rewrite Z.add_0_r. reflexivity.
Qed.

Lemma PrependVOffsetT_eq (x : Z) (b : Builder) :
  2 <= minalign b -> (len (buf b)) mod 2 = 0 ->
  PrependVOffsetT x b =
  mkBuilder (put_le 2 x ++ buf b) (minalign b) (vtable b) (objectEnd b).
Proof.
  intros Hm He. unfold PrependVOffsetT, SizeVOffsetT.
  rewrite (Prep_eq 1) by (reflexivity || lia). unfold Place.
  cbn [buf minalign vtable objectEnd]. rewrite Z.add_0_r.
  replace ((- len (buf b)) mod 2) with 0.
  2:{ symmetry.
      apply Z.mod_divide; [lia|]. apply Z.divide_opp_r.
      apply Z.mod_divide; [lia|assumption]. }
  cbn [zeros Z.to_nat repeat app]. f_equal. lia.
Qed.

Lemma len_zeros (n : Z) : 0 <= n -> len (zeros n) = n.
Proof. intros Hn. unfold zeros. rewrite len_repeat. lia. Qed.

Lemma nth_set_nth_same (l : list Z) (n : nat) (x : Z) :
  (n < length l)%nat -> nth n (set_nth l n x) 0 = x.
Proof.
  revert n. induction l as [|y l IH]; intros [|n] H; cbn in *; try lia.
  apply IH. lia.
Qed.

Lemma nth_set_nth_other (l : list Z) (n k : nat) (x : Z) :
  k <> n -> nth k (set_nth l n x) 0 = nth k l 0.
Proof.
  revert n k. induction l as [|y l IH]; intros [|n] [|k] H; cbn in *;
    try reflexivity; try lia. apply IH. lia.
Qed.

Lemma length_set_nth (l : list Z) (n : nat) (x : Z) :
  length (set_nth l n x) = length l.
Proof.
  revert n. induction l as [|y l IH]; intros [|n]; cbn; try reflexivity.
  rewrite IH. reflexivity.
Qed.

Lemma Forall_set_nth (P : Z -> Prop) (l : list Z) (n : nat) (x : Z) :
  Forall P l -> P x -> Forall P (set_nth l n x).
Proof.
  intros Hl Hx. revert n. induction Hl as [|y l Hy Hl IH]; intros [|n]; cbn;
    constructor; auto.
Qed.

Lemma filling_nth (N : Z) (b : Builder) (k : nat) :
  filling N b ->
  nth k (vtable b) 0 = 0 \/ 8 <= nth k (vtable b) 0 <= len (buf b).
Proof.
  intros (_ & _ & _ & _ & Hv).
  destruct (Nat.lt_ge_cases k (length (vtable b))) as [Hk|Hk].
  - rewrite Forall_forall in Hv. apply Hv. apply nth_In. assumption.
  - left. apply nth_overflow. assumption.
Qed.

Section Add.
Variables (N : Z) (b : Builder) (slot : nat) (x : Z).
Hypothesis Hb : filling N b.
Hypothesis Hx : x <> 0.

Lemma add_eq :
  PrependInt64Slot (Z.of_nat slot) x 0 b =
  mkBuilder (put_le 8 x ++ zeros (add_pad b) ++ buf b)
    (Z.max (minalign b) 8)
    (set_nth (vtable b) slot (8 + add_pad b + len (buf b))) (objectEnd b).
Proof.
  unfold PrependInt64Slot, add_pad.
  destruct (x =? 0) eqn:E; [lia|].
  rewrite PrependInt64_eq. unfold Slot, Offset.
  cbn [buf minalign vtable objectEnd]. rewrite Nat2Z.id.
  assert (0 <= (- len (buf b)) mod 8 < 8) by (apply Z.mod_pos_bound; lia).
  rewrite !len_app, len_put_le, len_zeros by lia.
  do 2 f_equal. lia.
Qed.

Lemma add_pad_range : 0 <= add_pad b < 8.
Proof. apply Z.mod_pos_bound. lia. Qed.

Lemma add_filling :
  filling (N + 15) (PrependInt64Slot (Z.of_nat slot) x 0 b).
Proof.
  rewrite add_eq. destruct Hb as (He & Hn & Hm & Hl & Hv).
  pose proof add_pad_range.
  pose proof (len_nonneg (buf b)).
  unfold filling. cbn [buf minalign vtable objectEnd].
  rewrite !len_app, len_put_le, len_zeros by lia.
  repeat split; [assumption|lia|right; lia|rewrite length_set_nth; assumption|].
  apply Forall_set_nth; [|right; lia].
  eapply Forall_impl; [|exact Hv]. cbn beta. intros o [->|Ho]; [left|right]. all: lia.
Qed.

Lemma add_same :
  (slot < length (vtable b))%nat -> in_int64 x ->
  slot_value (PrependInt64Slot (Z.of_nat slot) x 0 b) slot = x.
Proof.
  intros Hs Hi. rewrite add_eq. unfold slot_value.
  cbn [buf minalign vtable objectEnd].
  pose proof add_pad_range.
  pose proof (len_nonneg (buf b)).
  rewrite nth_set_nth_same by assumption.
  destruct (8 + add_pad b + len (buf b) =? 0) eqn:E; [lia|].
  rewrite !len_app, len_put_le, len_zeros by lia.
  replace (Z.of_nat 8 + (add_pad b + len (buf b))
           - (8 + add_pad b + len (buf b))) with 0 by lia.
  replace (0 + 8) with (len (put_le 8 x)) by apply len_put_le.
  rewrite slice_prefix, get_le_put_le.
  change (8 * Z.of_nat 8) with 64. apply signed_wrap. assumption.
Qed.

Lemma add_other (k : nat) :
  k <> slot ->
  slot_value (PrependInt64Slot (Z.of_nat slot) x 0 b) k = slot_value b k.
Proof.
  intros Hk. rewrite add_eq. unfold slot_value.
  cbn [buf minalign vtable objectEnd].
  rewrite nth_set_nth_other by assumption.
  destruct (filling_nth N b k Hb) as [->|Ho]; [reflexivity|].
  destruct (nth k (vtable b) 0 =? 0) eqn:E; [reflexivity|].
  rewrite app_assoc.
  set (pre := put_le 8 x ++ zeros (add_pad b)).
  rewrite len_app.
  replace (len pre + len (buf b) - nth k (vtable b) 0)
    with (len pre + (len (buf b) - nth k (vtable b) 0)) by lia.
  replace (len pre + (len (buf b) - nth k (vtable b) 0) + 8)
    with (len pre + (len (buf b) - nth k (vtable b) 0 + 8)) by lia.
  rewrite slice_app by lia. reflexivity.
Qed.

End Add.

Lemma len_entries (g : Z -> Z) (l : list Z) :
  len (concat (map (fun o => put_le 2 (g o)) l)) = 2 * len l.
Proof.
  induction l as [|a l IH]; cbn [map concat]; [reflexivity|].
  rewrite len_app, len_put_le, IH, len_cons. lia.
Qed.

Lemma fold_entries (g : Z -> Z) (l : list Z) (b : Builder) :
  2 <= minalign b -> len (buf b) mod 2 = 0 ->
  fold_left (fun b o => PrependVOffsetT (g o) b) (rev l) b =
  mkBuilder (concat (map (fun o => put_le 2 (g o)) l) ++ buf b)
    (minalign b) (vtable b) (objectEnd b).
Proof.
  intros Hm He. induction l as [|a l IH]; cbn [rev map concat app].
  - destruct b; reflexivity.
  - rewrite fold_left_app. cbn [fold_left]. rewrite IH.
    rewrite PrependVOffsetT_eq; cbn [buf minalign vtable objectEnd];
      [|assumption|].
    + rewrite <- app_assoc. reflexivity.
    + rewrite len_app, len_entries.
      rewrite Z.add_comm, Z.mul_comm, Z.mod_add by lia. assumption.
Qed.

Lemma overwrite_mid (a w0 c w : list byte) :
  length w = length w0 ->
  overwrite (a ++ w0 ++ c) (len a) w = a ++ w ++ c.
Proof.
  intros Hw. unfold overwrite, len. rewrite Nat2Z.id.
  rewrite firstn_app, firstn_all, Nat.sub_diag. cbn [firstn].
  rewrite app_nil_r. do 2 f_equal.
  rewrite skipn_app, skipn_all2 by lia. cbn [app].
  replace (length a + length w - length a)%nat with (length w0) by lia.
  rewrite skipn_app, skipn_all, Nat.sub_diag. reflexivity.
Qed.

Section Finished.
Variables (N : Z) (b : Builder).
Hypothesis Hb : filling N b.

Lemma pad1_range : 0 <= (pad1 b) < 4.
Proof. apply Z.mod_pos_bound. lia. Qed.

Lemma pad2_range : 0 <= (pad2 b) < 8.
Proof.
  unfold pad2. destruct Hb as (_ & _ & [->| ->] & _ & _);
    [change (Z.max 1 4) with 4|change (Z.max 8 4) with 8].
  - pose proof (Z.mod_pos_bound (- (vsize b + (root b) + 4)) 4 ltac:(lia)). lia.
  - pose proof (Z.mod_pos_bound (- (vsize b + (root b) + 4)) 8 ltac:(lia)). lia.
Qed.

Lemma len_vtbytes : len (vtbytes b) = (vsize b).
Proof.
  unfold vtbytes, vsize. rewrite !len_app, !len_put_le, len_entries. lia.
Qed.

Lemma SOffset_eq :
  PrependSOffsetT 0 b =
  mkBuilder (put_le 4 (root b) ++ zeros (pad1 b) ++ buf b)
    (Z.max (minalign b) 4) (vtable b) (objectEnd b).
Proof.
  unfold PrependSOffsetT, SizeSOffsetT.
  rewrite (Prep_eq 2) by (reflexivity || lia). unfold Place, Offset.
  cbn [buf minalign vtable objectEnd].
  rewrite Z.add_0_r. fold (pad1 b). pose proof pad1_range.
  rewrite len_app, len_zeros by lia. unfold root.
  do 3 f_equal. lia.
Qed.

Lemma EndObject_eq :
  EndObject b =
  (mkBuilder (vtbytes b ++ put_le 4 (vsize b) ++ zeros (pad1 b) ++ buf b)
     (Z.max (minalign b) 4) [] (objectEnd b), (root b)).
Proof.
  pose proof pad1_range as Hp1. pose proof (len_nonneg (buf b)) as Hn0.
  destruct Hb as (He & Hn & Hm & Hl & Hv).
  assert (Hroot : len (put_le 4 (root b) ++ zeros (pad1 b) ++ buf b) = (root b)).
  { rewrite !len_app, len_put_le, len_zeros by lia. unfold root. lia. }
  assert (Heven : (root b) mod 2 = 0).
  { unfold root, pad1. Z.div_mod_to_equations. lia. }
  unfold EndObject, WriteVtable. cbv zeta. rewrite SOffset_eq.
  unfold Offset. cbn [buf minalign vtable objectEnd].
  rewrite Hroot. fold (entry b).
  rewrite (fold_entries (entry b)); cbn [buf minalign vtable objectEnd];
    [|lia|rewrite Hroot; assumption].
  rewrite He, Z.sub_0_r.
  rewrite (PrependVOffsetT_eq (root b)); cbn [buf minalign vtable objectEnd]; [|lia|].
  2:{ rewrite len_app, len_entries, Hroot.
      rewrite Z.add_comm, Z.mul_comm, Z.mod_add by lia. assumption. }
  rewrite PrependVOffsetT_eq; cbn [buf minalign vtable objectEnd]; [|lia|].
  2:{ rewrite len_app, len_put_le, len_app, len_entries, Hroot.
      Z.div_mod_to_equations. lia. }
  unfold VtableMetadataFields, SizeVOffsetT. fold (vsize b).
  rewrite !app_assoc. rewrite <- (app_assoc (put_le 2 (vsize b))).
  fold (vtbytes b). rewrite <- !app_assoc.
  replace (len (vtbytes b ++ put_le 4 (root b) ++ zeros (pad1 b) ++ buf b) - (root b))
    with (len (vtbytes b)).
  2:{ rewrite len_app, Hroot. lia. }
  rewrite overwrite_mid by (rewrite !length_put_le; reflexivity).
  rewrite len_vtbytes. reflexivity.
Qed.

Lemma Finish_eq : FinishedBytes (Finish (EndObject b)) = (finished b).
Proof.
  pose proof pad1_range as Hp1. pose proof pad2_range as Hp2.
  pose proof (len_nonneg (buf b)) as Hn0.
  rewrite EndObject_eq. unfold Finish, FinishedBytes, SizeUOffsetT.
  cbn [minalign].
  set (b1 := mkBuilder _ _ _ _).
  assert (Hl1 : len (buf b1) = (vsize b) + (root b)).
  { unfold b1. cbn [buf].
    rewrite !len_app, len_vtbytes, len_put_le, len_zeros by lia.
    unfold root. lia. }
  assert (HP : Prep (Z.max (minalign b) 4) 4 b1 =
               mkBuilder (zeros (pad2 b) ++ buf b1) (Z.max (minalign b) 4) []
                 (objectEnd b)).
  { destruct Hb as (_ & _ & Hm & _).
    assert (Hk : exists k, 0 <= k /\ Z.max (minalign b) 4 = 2 ^ k).
    { destruct Hm as [-> | ->]; [exists 2|exists 3]; split;
        (reflexivity || lia). }
    destruct Hk as (k & Hk & Ek).
    rewrite (Prep_eq k) by assumption.
    rewrite Hl1. fold (pad2 b). unfold b1 at 2 3 4.
    cbn [minalign vtable objectEnd]. f_equal. lia. }
  rewrite HP. unfold PrependUOffsetT, SizeUOffsetT.
  rewrite (Prep_eq 2) by (reflexivity || lia).
  unfold Place, Offset. cbn [buf minalign vtable objectEnd].
  rewrite Z.add_0_r.
  assert (Hl2 : len (zeros (pad2 b) ++ buf b1) = (pad2 b) + (vsize b) + (root b)).
  { rewrite len_app, len_zeros, Hl1 by lia. lia. }
  rewrite Hl2.
  replace ((- (pad2 b + (vsize b) + (root b))) mod 4) with 0.
  2:{ unfold pad2. destruct Hb as (_ & _ & [-> | ->] & _);
        [change (Z.max 1 4) with 4|change (Z.max 8 4) with 8];
        Z.div_mod_to_equations; lia. }
  cbn [zeros Z.to_nat repeat app]. rewrite Hl2.
  unfold finished, b1. cbn [buf]. f_equal. f_equal. lia.
Qed.
End Finished.

Lemma read_app (a s : list byte) (i : Z) (n : nat) :
  0 <= i -> read (a ++ s) (len a + i) n = read s i n.
Proof.
  intros Hi. unfold read. pose proof (len_nonneg a).
  rewrite len_app.
  replace (len a + i + Z.of_nat n) with (len a + (i + Z.of_nat n)) by lia.
  rewrite slice_app by assumption.
  destruct (0 <=? i) eqn:E1; [|lia].
  replace (0 <=? len a + i) with true by lia. cbn [andb].
  destruct (i + Z.of_nat n <=? len s) eqn:E2;
    destruct (len a + (i + Z.of_nat n) <=? len a + len s) eqn:E3;
    try reflexivity; lia.
Qed.

Lemma read_here (n : nat) (z : Z) (rest : list byte) :
  read (put_le n z ++ rest) 0 n = Some (z mod 2 ^ (8 * Z.of_nat n)).
Proof.
  unfold read. rewrite len_app, len_put_le. pose proof (len_nonneg rest).
  cbn [Z.leb Z.compare andb].
  destruct (0 + Z.of_nat n <=? Z.of_nat n + len rest) eqn:E; [|lia].
  replace (0 + Z.of_nat n) with (len (put_le n z)) by (rewrite len_put_le; lia).
  rewrite slice_prefix, get_le_put_le. reflexivity.
Qed.

Lemma read_entry (g : Z -> Z) (l : list Z) (rest : list byte) (k : nat) :
  (k < length l)%nat ->
  read (concat (map (fun o => put_le 2 (g o)) l) ++ rest) (2 * Z.of_nat k) 2
  = Some (g (nth k l 0) mod 2 ^ 16).
Proof.
  revert k. induction l as [|a l IH]; intros k Hk; cbn [length] in Hk; [lia|].
  cbn [map concat]. rewrite <- app_assoc. destruct k as [|k].
  - cbn [nth Z.of_nat Z.mul]. apply (read_here 2).
  - cbn [nth].
    replace (2 * Z.of_nat (S k)) with (len (put_le 2 (g a)) + 2 * Z.of_nat k)
      by (rewrite len_put_le; lia).
    rewrite read_app by lia. apply IH. lia.
Qed.

Lemma nth_trim (l : list Z) (k : nat) : nth k (trim l) 0 = nth k l 0.
Proof.
  revert k. induction l as [|o l IH]; intros k; cbn [trim]; [reflexivity|].
  destruct (trim l) as [|t ts] eqn:Et.
  - destruct k as [|k]; cbn [nth].
    + destruct (o =? 0) eqn:E; [|reflexivity]. cbn. lia.
    + rewrite <- IH. destruct (o =? 0); destruct k; reflexivity.
  - destruct k as [|k]; cbn [nth]; [reflexivity|]. apply IH.
Qed.

Lemma length_trim (l : list Z) : (length (trim l) <= length l)%nat.
Proof.
  induction l as [|o l IH]; cbn [trim length]; [lia|].
  destruct (trim l) as [|t ts].
  - destruct (o =? 0); cbn [length]; lia.
  - cbn [length] in *. lia.
Qed.

Section Reading.
Variables (N : Z) (b : Builder).
Hypothesis Hb : filling N b.
Hypothesis HN : N <= 30000.

Lemma vsize_range : 4 <= vsize b <= 26.
Proof.
  unfold vsize. pose proof (length_trim (vtable b)).
  destruct Hb as (_ & _ & _ & Hl & _). unfold len. lia.
Qed.

Lemma root_read :
  Data.GetRootAsData (finished b) 0 = Some (mkTable (finished b) (table_pos b)).
Proof.
  pose proof (pad2_range N b Hb). pose proof vsize_range.
  unfold Data.GetRootAsData, GetUOffsetT, finished, table_pos.
  rewrite (read_here 4). unfold to_uint32.
  change (8 * Z.of_nat 4) with 32.
  rewrite Z.add_0_r, Z.mod_mod by lia.
  rewrite Z.mod_small by (change (2 ^ 32) with 4294967296; lia).
  reflexivity.
Qed.

Lemma field_read (k : nat) :
  (k < 11)%nat ->
  Int64Field (mkTable (finished b) (table_pos b)) (4 + 2 * Z.of_nat k)
  = Some (slot_value b k).
Proof.
  intros Hk.
  pose proof (pad1_range b) as Hp1. pose proof (pad2_range N b Hb) as Hp2.
  pose proof vsize_range as Hvs. pose proof (len_nonneg (buf b)) as Hn0.
  pose proof (len_vtbytes b) as Hlv.
  destruct Hb as (He & Hn & Hm & Hl & Hv).
  unfold Int64Field, TableOffset, GetSOffsetT, GetVOffsetT, GetInt64.
  cbn [Bytes Pos].
  (* the offset to the vtable *)
  assert (E1 : read (finished b) (table_pos b) 4 = Some (vsize b)).
  { unfold finished. rewrite 2!app_assoc.
    replace (table_pos b) with (len ((put_le 4 (pad2 b + vsize b + 4) ++ zeros (pad2 b))
                             ++ vtbytes b) + 0).
    2:{ rewrite !len_app, len_put_le, len_zeros, Hlv by lia.
        unfold table_pos. lia. }
    rewrite read_app by lia. rewrite (read_here 4).
    rewrite Z.mod_small; [reflexivity|].
    change (2 ^ (8 * Z.of_nat 4)) with 4294967296. lia. }
  rewrite E1. cbn [option_map]. unfold signed.
  change (2 ^ (32 - 1)) with 2147483648.
  destruct (vsize b <? 2147483648) eqn:E; [clear E|lia].
  replace (to_uint32 ((table_pos b) - vsize b)) with (4 + pad2 b).
  2:{ unfold to_uint32, table_pos.
      rewrite Z.mod_small; change (2 ^ 32) with 4294967296; lia. }
  (* the size of the vtable *)
  assert (Hpre : len (put_le 4 (pad2 b + vsize b + 4) ++ zeros (pad2 b))
                 = 4 + pad2 b).
  { rewrite len_app, len_put_le, len_zeros by lia. lia. }
  assert (E2 : read (finished b) (4 + pad2 b) 2 = Some (vsize b)).
  { unfold finished. rewrite app_assoc.
    replace (4 + pad2 b) with (len (put_le 4 (pad2 b + vsize b + 4)
                                      ++ zeros (pad2 b)) + 0) by lia.
    rewrite read_app by lia. unfold vtbytes. rewrite <- !app_assoc.
    rewrite (read_here 2). rewrite Z.mod_small; [reflexivity|].
    change (2 ^ (8 * Z.of_nat 2)) with 65536. lia. }
  rewrite E2.
  unfold slot_value. rewrite <- (nth_trim (vtable b) k).
  destruct (4 + 2 * Z.of_nat k <? vsize b) eqn:Ek.
  - (* the field has an entry *)
    assert (Hkt : (k < length (trim (vtable b)))%nat)
      by (unfold vsize, len in Ek; lia).
    set (o := nth k (trim (vtable b)) 0).
    assert (Ho : o = 0 \/ 8 <= o <= len (buf b)).
    { unfold o. rewrite nth_trim. rewrite Forall_forall in Hv.
      apply Hv, nth_In. lia. }
    assert (E3 : read (finished b)
                   (to_uint32 (4 + pad2 b + (4 + 2 * Z.of_nat k))) 2
                 = Some (entry b o)).
    { unfold to_uint32.
      rewrite Z.mod_small by (change (2 ^ 32) with 4294967296; lia).
      unfold finished. rewrite app_assoc.
      replace (4 + pad2 b + (4 + 2 * Z.of_nat k))
        with (len (put_le 4 (pad2 b + vsize b + 4) ++ zeros (pad2 b))
              + (4 + 2 * Z.of_nat k)) by lia.
      rewrite read_app by lia. unfold vtbytes.
      rewrite <- !app_assoc.
      rewrite (app_assoc (put_le 2 (vsize b))).
      replace (4 + 2 * Z.of_nat k)
        with (len (put_le 2 (vsize b) ++ put_le 2 (root b))
              + 2 * Z.of_nat k)
        by (rewrite len_app, !len_put_le; lia).
      rewrite read_app by lia.
      rewrite (read_entry (entry b)) by assumption. fold o.
      rewrite Z.mod_small; [reflexivity|].
      change (2 ^ 16) with 65536. unfold entry, root.
      destruct (o =? 0); lia. }
    rewrite E3. unfold entry.
    destruct (o =? 0) eqn:Eo; [reflexivity|].
    destruct Ho as [Ho|Ho]; [lia|].
    destruct (root b - o =? 0) eqn:Er; [unfold root in Er; lia|].
    replace (to_uint32 (root b - o + (table_pos b)))
      with (len (put_le 4 (pad2 b + vsize b + 4) ++ zeros (pad2 b)
                   ++ vtbytes b ++ put_le 4 (vsize b) ++ zeros (pad1 b))
            + (len (buf b) - o)).
    2:{ rewrite !len_app, !len_put_le, !len_zeros, Hlv by lia.
        unfold to_uint32, root, table_pos.
        rewrite Z.mod_small; change (2 ^ 32) with 4294967296; lia. }
    unfold finished.
    replace (put_le 4 (pad2 b + vsize b + 4) ++ zeros (pad2 b) ++ vtbytes b
               ++ put_le 4 (vsize b) ++ zeros (pad1 b) ++ buf b)
      with ((put_le 4 (pad2 b + vsize b + 4) ++ zeros (pad2 b) ++ vtbytes b
               ++ put_le 4 (vsize b) ++ zeros (pad1 b)) ++ buf b)
      by (rewrite <- !app_assoc; reflexivity).
    rewrite read_app by lia. unfold read.
    destruct ((0 <=? len (buf b) - o)
              && (len (buf b) - o + Z.of_nat 8 <=? len (buf b))) eqn:Eb;
      [unfold signed; reflexivity|].
    apply andb_false_iff in Eb. destruct Eb as [Eb|Eb]; apply Z.leb_gt in Eb; exfalso; clearbody o; clear - Eb Ho; lia.
  - (* the vtable stops before the field *)
    rewrite nth_overflow by (unfold vsize, len in Ek; lia). reflexivity.
Qed.
End Reading.

Lemma to_int64_range (v : Z) : in_int64 (to_int64 v).
Proof.
  unfold in_int64, to_int64.
  pose proof (Z.mod_pos_bound (v + 2 ^ 63) (2 ^ 64) ltac:(lia)). lia.
Qed.

Lemma filling_weaken (N M : Z) (b : Builder) :
  N <= M -> filling N b -> filling M b.
Proof. intros H (He & Hn & Hr). repeat split; try tauto. lia. Qed.

Lemma adds_spec (l : list (nat * Z)) :
  forall (N : Z) (b : Builder),
    filling N b ->
    Forall (fun kv => (fst kv < 11)%nat /\ in_int64 (snd kv)) l ->
    NoDup (map fst l) ->
    (forall k, In k (map fst l) -> slot_value b k = 0) ->
    filling (N + 15 * len l) (adds l b) /\
    forall k, slot_value (adds l b) k =
              match lookup k l with
              | Some v => v
              | None => slot_value b k
              end.
Proof.
  induction l as [|[k v] l IH]; intros N b Hb Hl Hnd Hz.
  - cbn. rewrite Z.add_0_r. auto.
  - cbn [adds lookup]. inversion Hl as [|? ? [Hk Hv] Hl']; subst.
    inversion Hnd as [|? ? Hnotin Hnd']; subst. cbn [fst snd] in *.
    set (b1 := PrependInt64Slot (Z.of_nat k) v 0 b).
    assert (H1 : filling (N + 15) b1 /\ slot_value b1 k = v /\
                 forall k', k' <> k -> slot_value b1 k' = slot_value b k').
    { destruct (Z.eq_dec v 0) as [->|Hv0].
      - unfold b1, PrependInt64Slot. cbn [Z.eqb]. split; [|split].
        + apply (filling_weaken N); [lia|assumption].
        + apply Hz. left. reflexivity.
        + reflexivity.
      - split; [|split].
        + apply add_filling; assumption.
        + apply add_same; try assumption.
          destruct Hb as (_ & _ & _ & -> & _). assumption.
        + intros k' Hk'. apply (add_other N); assumption. }
    destruct H1 as (Hb1 & Hsame & Hother).
    destruct (IH (N + 15) b1 Hb1 Hl' Hnd') as [Hf Hs].
    { intros k' Hk'. rewrite Hother; [apply Hz; right; assumption|].
      intros ->. contradiction. }
    split.
    + rewrite len_cons. replace (N + 15 * (1 + len l))
        with (N + 15 + 15 * len l) by lia. assumption.
    + intros k0. rewrite Hs. destruct (Nat.eqb k0 k) eqn:E.
      * apply Nat.eqb_eq in E. subst k0.
        replace (lookup k l) with (@None Z); [assumption|].
        clear - Hnotin. induction l as [|[k' v'] l IH]; [reflexivity|].
        cbn [lookup]. cbn [map fst In] in Hnotin.
        destruct (Nat.eqb k k') eqn:E.
        -- apply Nat.eqb_eq in E. subst. tauto.
        -- apply IH. tauto.
      * apply Nat.eqb_neq in E. destruct (lookup k0 l); [reflexivity|].
        apply Hother. assumption.
Qed.

Lemma start_filling : filling 0 (Data.DataStart NewBuilder).
Proof.
  unfold filling. cbn. repeat split; try lia; auto.
  repeat constructor.
Qed.

Lemma start_slots (k : nat) : slot_value (Data.DataStart NewBuilder) k = 0.
Proof.
  unfold slot_value. cbn [Data.DataStart StartObject vtable].
  replace (nth k (repeat 0 11) 0) with 0; [reflexivity|].
  do 12 (destruct k as [|k]; [reflexivity|]). destruct k; reflexivity.
Qed.

Lemma Serialize_eq (i : Info) :
  Serialize i = finished (adds (fields i) (Data.DataStart NewBuilder)).
Proof.
  rewrite <- (Finish_eq 165).
  - reflexivity.
  - destruct (adds_spec (fields i) 0 (Data.DataStart NewBuilder)) as [H _].
    + exact start_filling.
    + unfold fields. repeat constructor; cbn [fst snd]; try lia;
        apply to_int64_range.
    + cbn. repeat constructor; cbn; intuition lia.
    + intros k _. apply start_slots.
    + exact H.
Qed.

(** What the reader gets from a finished table: the values of the
    slots. *)
Lemma Deserialize_finished (N : Z) (b : Builder) :
  filling N b -> N <= 30000 ->
  Deserialize (finished b) =
  Some (mkInfo (slot_value b 0) (to_int (slot_value b 1))
          (to_int (slot_value b 2)) (to_int (slot_value b 3))
          (to_int (slot_value b 4)) (to_int (slot_value b 5))
          (to_int (slot_value b 6)) (to_int (slot_value b 7))
          (to_int (slot_value b 8)) (to_int (slot_value b 9))
          (to_int (slot_value b 10))).
Proof.
  intros Hf HN. unfold Deserialize.
  rewrite (root_read _ b Hf) by assumption.
  unfold Data.Timestamp, Data.MemTotal, Data.MemFree, Data.MemAvailable,
    Data.Buffers, Data.Cached, Data.SwapCached, Data.Active, Data.Inactive,
    Data.SwapTotal, Data.SwapFree.
  assert (Hg : forall k vo, (k < 11)%nat -> vo = 4 + 2 * Z.of_nat k ->
                 Int64Field (mkTable (finished b) (table_pos b)) vo
                 = Some (slot_value b k)).
  { intros k vo Hk ->. apply (field_read N); assumption. }
  rewrite (Hg 0%nat 4), (Hg 1%nat 6), (Hg 2%nat 8), (Hg 3%nat 10),
    (Hg 4%nat 12), (Hg 5%nat 14), (Hg 6%nat 16), (Hg 7%nat 18),
    (Hg 8%nat 20), (Hg 9%nat 22), (Hg 10%nat 24) by (reflexivity || lia).
  reflexivity.
Qed.

(** One [DataAdd...] call keeps the builder in shape and leaves the
    other slots alone. *)
Lemma slot_filling (N : Z) (b : Builder) (k : nat) (v : Z) :
  filling N b ->
  filling (N + 15) (PrependInt64Slot (Z.of_nat k) v 0 b) /\
  forall k', k' <> k ->
             nth k' (vtable (PrependInt64Slot (Z.of_nat k) v 0 b)) 0
             = nth k' (vtable b) 0.
Proof.
  intros Hb. destruct (Z.eq_dec v 0) as [->|Hv].
  - unfold PrependInt64Slot. cbn [Z.eqb]. split; [|reflexivity].
    apply (filling_weaken N); [lia|assumption].
  - split; [apply add_filling; assumption|].
    intros k' Hk. rewrite add_eq by assumption. cbn [vtable].
    apply nth_set_nth_other. assumption.
Qed.

Lemma example_record_wf : Info_wf example_record.
Proof. unfold Info_wf, in_int64. cbn. lia. Qed.
End CodecFacts.

(** ** The ticker *)

Module TickerFacts.
Import Ticker.

Lemma firstn_line (ln rest : list byte) :
  len ln <= readerSize ->
  exists more, slice (ln ++ rest) 0 readerSize = ln ++ more.
Proof.
  intros H. unfold slice. cbn [Z.to_nat skipn Z.sub].
  rewrite firstn_app. rewrite firstn_all2 by (unfold len in H; lia).
  eexists. reflexivity.
Qed.

Lemma ReadSlice_line (ln rest : list byte) :
  is_line ln -> ReadSlice (ln ++ rest) = (ln, None, rest).
Proof.
  intros (body & -> & Hnl & Hlen). unfold ReadSlice.
  destruct (firstn_line (body ++ [nl]) rest Hlen) as (more & ->).
  rewrite <- app_assoc. cbn [app]. rewrite IndexByte_first by assumption.
  pose proof (len_nonneg body).
  destruct (0 <=? len body) eqn:E; [|lia].
  rewrite <- (app_assoc body [nl] rest). cbn [app].
  replace (body ++ nl :: rest) with ((body ++ [nl]) ++ rest)
    by (rewrite <- app_assoc; reflexivity).
  replace (len body + 1) with (len (body ++ [nl]))
    by (rewrite len_app; reflexivity).
  rewrite slice_prefix, slice_from_len. reflexivity.
Qed.

Lemma ReadSlice_shorter (rd line rd' : list byte) :
  ReadSlice rd = (line, None, rd') -> (length rd' < length rd)%nat.
Proof.
  unfold ReadSlice.
  pose proof (IndexByte_range (slice rd 0 readerSize) nl) as Hi.
  set (i := IndexByte (slice rd 0 readerSize) nl) in *.
  destruct (0 <=? i) eqn:E.
  - intros [= _ <-]. unfold slice_from. rewrite length_skipn.
    assert (len (slice rd 0 readerSize) <= len rd).
    { unfold slice, len. cbn [Z.to_nat skipn].
      rewrite length_firstn. lia. }
    unfold len in *. lia.
  - destruct (len rd <? readerSize); discriminate.
Qed.

(** More passes than bytes: the bound plays no part. *)
Lemma scan_fuel (fuel1 fuel2 : nat) (rd : list byte) (st : State) :
  (length rd < fuel1)%nat -> (length rd < fuel2)%nat ->
  scan fuel1 rd st = scan fuel2 rd st.
Proof.
  revert fuel2 rd st.
  induction fuel1 as [|fuel1 IH]; intros fuel2 rd st H1 H2; [lia|].
  destruct fuel2 as [|fuel2]; [lia|]. cbn [scan].
  destruct (l st =? 16); [reflexivity|].
  destruct (ReadSlice rd) as [[line [e|]] rd'] eqn:ER; [reflexivity|].
  apply ReadSlice_shorter in ER.
  match goal with |- (if ?c then _ else _) = _ => destruct c end.
  - apply IH; lia.
  - destruct (parseLine line _) as [[errs st']|]; [|reflexivity].
    rewrite (IH fuel2) by lia. reflexivity.
Qed.

Lemma scan_total (fuel : nat) (rd : list byte) (st : State) :
  (length rd < fuel)%nat -> exists errs r, scan fuel rd st = Some (errs, r).
Proof.
  revert rd st. induction fuel as [|fuel IH]; intros rd st H; [lia|].
  cbn [scan].
  destruct (l st =? 16); [eauto|].
  destruct (ReadSlice rd) as [[line [e|]] rd'] eqn:ER.
  - destruct e; eauto.
  - apply ReadSlice_shorter in ER.
    match goal with |- exists _ _, (if ?c then _ else _) = _ => destruct c end.
    + apply IH. lia.
    + destruct (parseLine line _) as [[errs st']|]; [|eauto].
      destruct (IH rd' st' ltac:(lia)) as (errs' & r & ->). eauto.
Qed.

Lemma scanAll_total (rd : list byte) (st : State) :
  exists errs r, scanAll rd st = Some (errs, r).
Proof. apply scan_total. lia. Qed.

(** One pass over a line, then the rest. *)
Lemma scanAll_line (ln rest : list byte) (st : State) :
  is_line ln -> l st <> 16 ->
  scanAll (ln ++ rest) st =
  if skipped (l st + 1) then scanAll rest (counted st)
  else match parseLine ln (counted st) with
       | None => Some ([], None)
       | Some (errs, st') => with_errors errs (scanAll rest st')
       end.
Proof.
  intros Hln Hl. unfold scanAll at 1. cbn [scan].
  destruct (l st =? 16) eqn:E; [lia|].
  rewrite ReadSlice_line by assumption. fold (counted st).
  assert (Hf : forall s, scan (length (ln ++ rest)) rest s = scanAll rest s).
  { intros s. apply scan_fuel; [|lia].
    rewrite length_app. destruct Hln as (body & -> & _).
    rewrite length_app. cbn [length]. lia. }
  unfold skipped. cbn [l counted].
  destruct ((l st + 1 >? 8) && (l st + 1 <? 15)); [apply Hf|].
  destruct (parseLine ln (counted st)) as [[errs st']|]; [|reflexivity].
  rewrite Hf. reflexivity.
Qed.

Lemma scanAll_full (rd : list byte) (st : State) :
  l st = 16 -> scanAll rd st = Some ([], Some st).
Proof.
  intros H. unfold scanAll. cbn [scan]. rewrite H. reflexivity.
Qed.

Lemma parseLine_l (ln : list byte) (st st' : State) (errs : list Error) :
  parseLine ln st = Some (errs, st') -> l st' = l st.
Proof.
  unfold parseLine.
  destruct (len ln <? snd (grabName ln 0 (val st) (pos st))); [discriminate|].
  destruct (Atoi _); intros [= _ <-]; reflexivity.
Qed.

(** After sixteen lines nothing is read. *)
Lemma scanAll_sixteen (P : list (list byte)) (R R' : list byte) :
  Forall is_line P ->
  forall st, l st + len P = 16 ->
             scanAll (concat P ++ R) st = scanAll (concat P ++ R') st.
Proof.
  induction 1 as [|ln P Hln HP IH]; intros st Hl; cbn [concat app].
  - rewrite !scanAll_full by (rewrite len_nil in Hl; lia). reflexivity.
  - rewrite len_cons in Hl. pose proof (len_nonneg P).
    rewrite <- !app_assoc.
    rewrite (scanAll_line ln (concat P ++ R)) by (assumption || lia).
    rewrite (scanAll_line ln (concat P ++ R')) by (assumption || lia).
    destruct (skipped (l st + 1)).
    + apply IH. cbn [l counted]. lia.
    + destruct (parseLine ln (counted st)) as [[errs st']|] eqn:E;
        [|reflexivity].
      apply parseLine_l in E. cbn [l counted] in E.
      rewrite (IH st') by lia. reflexivity.
Qed.

(** Lines nine to fourteen are counted and nothing else. *)
Lemma scanAll_skip (Q : list (list byte)) (R : list byte) :
  Forall is_line Q ->
  forall st, 8 <= l st -> l st + len Q <= 14 ->
             scanAll (concat Q ++ R) st =
             scanAll R (mkState (l st + len Q) (pos st) (val st) (bldr st)).
Proof.
  induction 1 as [|ln Q Hln HQ IH]; intros st H8 H14; cbn [concat app].
  - rewrite len_nil, Z.add_0_r. destruct st; reflexivity.
  - rewrite len_cons in *. pose proof (len_nonneg Q).
    rewrite <- app_assoc, scanAll_line by (assumption || lia).
    unfold skipped.
    replace ((l st + 1 >? 8) && (l st + 1 <? 15)) with true
      by (symmetry; apply andb_true_iff; lia).
    rewrite IH by (cbn [l counted]; lia). cbn [l pos val bldr counted].
    do 2 f_equal. lia.
Qed.

Lemma scanAll_eight (P Q Q' : list (list byte)) (R : list byte) :
  Forall is_line P -> Forall is_line Q -> Forall is_line Q' ->
  len Q = len Q' -> len Q <= 6 ->
  forall st, l st + len P = 8 ->
             scanAll (concat P ++ concat Q ++ R) st =
             scanAll (concat P ++ concat Q' ++ R) st.
Proof.
  intros HP HQ HQ' Hlen H6.
  induction HP as [|ln P Hln HP IH]; intros st Hl; cbn [concat app].
  - rewrite len_nil in Hl. rewrite !scanAll_skip by (assumption || lia).
    rewrite Hlen. reflexivity.
  - rewrite len_cons in Hl. pose proof (len_nonneg P).
    rewrite <- !app_assoc.
    rewrite (scanAll_line ln (concat P ++ concat Q ++ R))
      by (assumption || lia).
    rewrite (scanAll_line ln (concat P ++ concat Q' ++ R))
      by (assumption || lia).
    destruct (skipped (l st + 1)).
    + apply IH. cbn [l counted]. lia.
    + destruct (parseLine ln (counted st)) as [[errs st']|] eqn:E;
        [|reflexivity].
      apply parseLine_l in E. cbn [l counted] in E.
      rewrite (IH st') by lia. reflexivity.
Qed.

Lemma tick_congr (now : Z) (c c' : list byte) (st : State) :
  (forall s, l s = l st -> scanAll c s = scanAll c' s) ->
  tick now (OK c) st = tick now (OK c') st.
Proof.
  intros H. unfold tick. rewrite H by reflexivity. reflexivity.
Qed.


Lemma grabName_label (lbl rest : list byte) (i : Z) (v : list byte) (p : Z) :
  ~ In colon lbl ->
  grabName (lbl ++ colon :: rest) i v p = (v ++ lbl, i + len lbl + 1).
Proof.
  revert i v. induction lbl as [|c lbl IH]; intros i v H.
  - cbn. rewrite app_nil_r. f_equal. lia.
  - cbn [app grabName].
    destruct (Byte.eqb c colon) eqn:E.
    + apply byte_eqb_eq in E. exfalso. apply H. left. assumption.
    + rewrite IH by (intros ?; apply H; right; assumption).
      rewrite <- app_assoc, len_cons. cbn [app]. f_equal. lia.
Qed.



(** Every tick starts with the line count at 0. *)
Lemma tick_count (now : Z) (file : result (list byte) unit)
      (st st' : State) (acts : list action) :
  tick now file st = Some (acts, Some st') -> l st = 0 -> l st' = 0.
Proof.
  assert (E : forall (a b : list action) (x y : State),
             Some (a, Some x) = Some (b, Some y) -> x = y)
    by (intros a b x y [= _ ->]; reflexivity).
  unfold tick. destruct file as [content|e].
  - destruct (scanAll content _) as [[errs [s|]]|]; intros H Hl.
    + apply E in H. rewrite <- H. reflexivity.
    + exfalso. revert H. generalize (map SendErr errs ++ [Panic]).
      intros a [=].
    + discriminate H.
  - intros H Hl. apply E in H. rewrite <- H. assumption.
Qed.

Lemma tick_shape (now : Z) (file : result (list byte) unit) (st : State) :
  exists acts r, tick now file st = Some (acts, r) /\
                 Forall (fun a => is_deferred a = false) acts.
Proof.
  unfold tick. destruct file as [content|e].
  - destruct (scanAll_total content
                (mkState (l st) (pos st) (val st)
                   (Data.DataAddTimestamp now (Data.DataStart (bldr st)))))
      as (errs & r & ->).
    assert (He : Forall (fun a => is_deferred a = false) (map SendErr errs)).
    { apply Forall_forall. intros a Ha. apply in_map_iff in Ha.
      destruct Ha as (e & <- & _). reflexivity. }
    destruct r as [st'|]; do 2 eexists; (split; [reflexivity|]);
      apply Forall_app; (split; [assumption|]); repeat constructor.
  - do 2 eexists. split; [reflexivity|]. repeat constructor.
Qed.

(** What the channels let through of the actions of a tick. *)
Lemma deliver_sent (acts : list action) :
  forall out err sent c w,
    deliver acts out err = (sent, c, w) ->
    exists rest, acts = sent ++ rest /\
                 match w with
                 | None => rest = []
                 | Some p => p = InSendOut \/ p = InSendErr
                 end.
Proof.
  induction acts as [|a acts IH]; intros out err sent c w; cbn [deliver].
  - intros [= <- _ <-]. exists []. auto.
  - assert (Hgo : forall o e,
               (let '(sent, c, w) := deliver acts o e in (a :: sent, c, w))
               = (sent, c, w) ->
               exists rest, a :: acts = sent ++ rest /\
                            match w with
                            | None => rest = []
                            | Some p => p = InSendOut \/ p = InSendErr
                            end).
    { intros o e. destruct (deliver acts o e) as [[sent' c'] w'] eqn:E.
      intros [= <- _ <-]. destruct (IH _ _ _ _ _ E) as (rest & -> & Hw).
      exists rest. auto. }
    destruct a; try apply Hgo.
    + destruct (take err) as [err'|]; [apply Hgo|].
      intros [= <- _ <-]. exists (SendErr e :: acts). auto.
    + destruct (take out) as [out'|]; [apply Hgo|].
      intros [= <- _ <-]. exists (SendOut data :: acts). auto.
Qed.

(** Channels that take every send let all of it through. *)
Lemma deliver_all (acts : list action) :
  deliver acts Unbounded Unbounded = (acts, (Unbounded, Unbounded), None).
Proof.
  induction acts as [|a acts IH]; [reflexivity|].
  destruct a; cbn [deliver take]; rewrite IH; reflexivity.
Qed.

(** Errors and a panic need the error channel only. *)
Lemma deliver_errs (errs : list Error) (a : action) (out : credit) :
  is_send_out a = false ->
  deliver (map SendErr errs ++ [a]) out Unbounded
  = (map SendErr errs ++ [a], (out, Unbounded), None).
Proof.
  intros Ha. induction errs as [|e errs IH]; cbn [map app deliver take].
  - destruct a; try reflexivity. discriminate Ha.
  - rewrite IH. reflexivity.
Qed.

(** The trace of a run, by the place it ends in: the deferred calls
    are its last actions when the function has been left, and are not
    in it otherwise; the function returns on the done signal only, and
    does not stay in the [select] when the signal is among the events;
    with channels that take every send it waits in no send. *)
Lemma run_shape (evs : list event) :
  forall st out err, exists (before : list action) (p : place),
    run evs st out err
    = Some (before ++ (if has_left p then deferred else []), p)
    /\ Forall (fun a => is_deferred a = false) before
    /\ (p = Returned -> In Done evs)
    /\ (In Done evs -> p <> InSelect)
    /\ (out = Unbounded -> err = Unbounded ->
        p <> InSendOut /\ p <> InSendErr).
Proof.
  induction evs as [|ev evs IH]; intros st out err.
  - exists (@nil action), InSelect.
    split; [reflexivity|]. split; [constructor|].
    split; [discriminate|]. split; [intros []|].
    split; discriminate.
  - destruct ev as [|now file].
    + exists (@nil action), Returned.
      split; [reflexivity|]. split; [constructor|].
      split; [left; reflexivity|]. split; [discriminate|].
      split; discriminate.
    + cbn [run]. destruct (tick_shape now file st) as (acts & r & -> & Ha).
      destruct (deliver acts out err) as [[sent [out' err']] w] eqn:Ed.
      destruct (deliver_sent _ _ _ _ _ _ Ed) as (rest & -> & Hw).
      apply Forall_app in Ha. destruct Ha as [Hs _].
      destruct w as [w|].
      * exists sent, w.
        assert (Hl : has_left w = false) by (destruct Hw; subst w; reflexivity).
        rewrite Hl, app_nil_r. split; [reflexivity|]. split; [assumption|].
        split; [destruct Hw; subst w; discriminate|].
        split; [destruct Hw; subst w; discriminate|].
        intros -> ->. rewrite deliver_all in Ed. discriminate Ed.
      * subst rest. destruct r as [st'|].
        -- destruct (IH st' out' err')
             as (before & p & -> & Hb & Hr & Hd & Hu).
           exists (sent ++ before), p. rewrite <- app_assoc.
           split; [reflexivity|]. split; [apply Forall_app; auto|].
           split; [intros H; right; auto|].
           split; [intros [H|H]; [discriminate|auto]|].
           intros -> ->. rewrite deliver_all in Ed.
           injection Ed as _ <- <-. auto.
        -- exists sent, Panicked.
           split; [reflexivity|]. split; [assumption|].
           split; [discriminate|]. split; [discriminate|].
           split; discriminate.
Qed.

(** The done signal is seen in the [select] and nowhere else: it ends
    the run that has come back to the [select], and changes nothing
    of a run that waits in a send or has panicked. *)
Lemma run_done (pre post : list event) :
  ~ In Done pre ->
  forall st out err,
    run (pre ++ Done :: post) st out err
    = match run pre st out err with
      | Some (acts, InSelect) => Some (acts ++ deferred, Returned)
      | r => r
      end.
Proof.
  induction pre as [|ev pre IH]; intros Hn st out err; [reflexivity|].
  destruct ev as [|now file]; [exfalso; apply Hn; left; reflexivity|].
  cbn [app run]. destruct (tick now file st) as [[acts r]|]; [|reflexivity].
  destruct (deliver acts out err) as [[sent [out' err']] w] eqn:Ed.
  destruct (deliver_sent _ _ _ _ _ _ Ed) as (rest & _ & Hw).
  destruct w as [w|]; [destruct Hw; subst w; reflexivity|].
  destruct r as [st'|]; [|reflexivity].
  rewrite IH by (intros H; apply Hn; right; exact H).
  destruct (run pre st' out' err') as [[acts' []]|]; try reflexivity.
  rewrite app_assoc. reflexivity.
Qed.

Lemma filter_none (P : action -> bool) (acts : list action) :
  Forall (fun a => is_deferred a = false) acts ->
  (forall a, P a = true -> is_deferred a = true) ->
  filter P acts = [].
Proof.
  intros H HP. induction H as [|a acts Ha H IH]; [reflexivity|].
  cbn [filter]. destruct (P a) eqn:E; [|assumption].
  apply HP in E. congruence.
Qed.

Lemma split_at_close (before pre post : list action) :
  Forall (fun a => is_deferred a = false) before ->
  before ++ deferred = pre ++ CloseOut :: post ->
  post = [StopTicker].
Proof.
  intros H. revert pre. induction H as [|a before Ha H IH]; intros pre E.
  - destruct pre as [|x pre]; cbn in E.
    + injection E as <-. reflexivity.
    + injection E as <- E. destruct pre as [|y pre]; cbn in E.
      * discriminate.
      * injection E as _ E. destruct pre; discriminate.
  - destruct pre as [|x pre]; cbn in E.
    + injection E as -> _. discriminate.
    + injection E as _ E. apply (IH pre). assumption.
Qed.

(** The ticker never stores into the slot of Cached. *)
Lemma store_filling (N : Z) (name : list byte) (i : Z) (b : FB.Builder) :
  Layout.filling N b ->
  Layout.filling (N + 15) (store name i b) /\
  nth 5 (FB.vtable (store name i b)) 0 = nth 5 (FB.vtable b) 0.
Proof.
  intros Hb. unfold store.
  repeat match goal with
         | |- context [if Equal name ?L then _ else _] =>
             destruct (Equal name L)
         end;
    try (split; [apply (CodecFacts.filling_weaken N); [lia|assumption]
                |reflexivity]);
    match goal with
    | |- context [Data.DataAddMemTotal ?v b] =>
        destruct (CodecFacts.slot_filling N b 1 v Hb) as [H1 H2]
    | |- context [Data.DataAddMemFree ?v b] =>
        destruct (CodecFacts.slot_filling N b 2 v Hb) as [H1 H2]
    | |- context [Data.DataAddMemAvailable ?v b] =>
        destruct (CodecFacts.slot_filling N b 3 v Hb) as [H1 H2]
    | |- context [Data.DataAddBuffers ?v b] =>
        destruct (CodecFacts.slot_filling N b 4 v Hb) as [H1 H2]
    | |- context [Data.DataAddSwapCached ?v b] =>
        destruct (CodecFacts.slot_filling N b 6 v Hb) as [H1 H2]
    | |- context [Data.DataAddActive ?v b] =>
        destruct (CodecFacts.slot_filling N b 7 v Hb) as [H1 H2]
    | |- context [Data.DataAddInactive ?v b] =>
        destruct (CodecFacts.slot_filling N b 8 v Hb) as [H1 H2]
    | |- context [Data.DataAddSwapTotal ?v b] =>
        destruct (CodecFacts.slot_filling N b 9 v Hb) as [H1 H2]
    | |- context [Data.DataAddSwapFree ?v b] =>
        destruct (CodecFacts.slot_filling N b 10 v Hb) as [H1 H2]
    end;
    (split; [exact H1|apply H2; lia]).
Qed.

Lemma parseLine_filling (N : Z) (ln : list byte) (st st' : State)
      (errs : list Error) :
  parseLine ln st = Some (errs, st') ->
  Layout.filling N (bldr st) ->
  Layout.filling (N + 15) (bldr st') /\
  nth 5 (FB.vtable (bldr st')) 0 = nth 5 (FB.vtable (bldr st)) 0.
Proof.
  unfold parseLine.
  destruct (len ln <? snd (grabName ln 0 (val st) (pos st))); [discriminate|].
  destruct (Atoi _) as [i|e]; intros [= _ <-] Hb; cbn [bldr].
  - apply store_filling. assumption.
  - split; [|reflexivity].
    apply (CodecFacts.filling_weaken N); [lia|assumption].
Qed.

Lemma scan_filling (N : Z) (fuel : nat) :
  forall rd st errs st',
    scan fuel rd st = Some (errs, Some st') ->
    0 <= l st <= 16 ->
    Layout.filling (N + 15 * l st) (bldr st) ->
    nth 5 (FB.vtable (bldr st)) 0 = 0 ->
    0 <= l st' <= 16 /\
    Layout.filling (N + 15 * l st') (bldr st') /\
    nth 5 (FB.vtable (bldr st')) 0 = 0.
Proof.
  induction fuel as [|fuel IH]; intros rd st errs st'; cbn [scan];
    [discriminate|].
  destruct (l st =? 16) eqn:E16; [intros [= _ <-]; auto|].
  destruct (ReadSlice rd) as [[line [e|]] rd'].
  - destruct e; intros [= _ <-]; auto.
  - cbn [l pos val bldr].
    destruct ((l st + 1 >? 8) && (l st + 1 <? 15)).
    + intros H Hl Hf H5.
      apply (IH _ _ _ _ H); cbn [l bldr]; [lia| |assumption].
      apply (CodecFacts.filling_weaken (N + 15 * l st)); [lia|assumption].
    + destruct (parseLine line _) as [[errs1 st1]|] eqn:Ep; [|discriminate].
      destruct (scan fuel rd' st1) as [[errs2 r]|] eqn:Es; [|discriminate].
      intros [= _ ->] Hl Hf H5.
      pose proof (parseLine_l _ _ _ _ Ep) as Hl1. cbn [l] in Hl1.
      destruct (parseLine_filling _ _ _ _ _ Ep Hf) as [Hf1 H51].
      cbn [bldr] in H51.
      apply (IH _ _ _ _ Es); [lia| |congruence].
      apply (CodecFacts.filling_weaken (N + 15 * l st + 15)); [lia|assumption].
Qed.

Lemma start_tick_filling (now : Z) :
  Layout.filling 15
    (Data.DataAddTimestamp now (Data.DataStart FB.NewBuilder)) /\
  nth 5 (FB.vtable (Data.DataAddTimestamp now
                      (Data.DataStart FB.NewBuilder))) 0 = 0.
Proof.
  destruct (CodecFacts.slot_filling 0 (Data.DataStart FB.NewBuilder) 0 now
              CodecFacts.start_filling) as [H1 H2].
  split; [exact H1|]. unfold Data.DataAddTimestamp.
  change 0 with (Z.of_nat 0) at 1. rewrite H2 by lia. reflexivity.
Qed.

(** Whatever the sample, the record of a first tick has no Cached. *)
Lemma emitted_Cached (now : Z) (sample : list byte) (r : Info) :
  emitted now sample = Some r -> Cached r = 0.
Proof.
  unfold emitted, tick, scanAll, initial. cbn [bldr l pos val].
  destruct (scan _ sample _) as [[errs [st'|]]|] eqn:Es.
  - destruct (start_tick_filling now) as [Hf H5].
    destruct (scan_filling 15 _ _ _ _ _ Es) as (Hl & Hf' & H5');
      cbn [l bldr]; [lia|exact Hf|exact H5|].
    rewrite last_last.
    unfold Data.DataEnd. rewrite (CodecFacts.Finish_eq _ _ Hf').
    rewrite (CodecFacts.Deserialize_finished _ _ Hf') by lia.
    intros [= <-]. cbn [Cached]. unfold Layout.slot_value.
    rewrite H5'. reflexivity.
  - rewrite last_last. discriminate.
  - discriminate.
Qed.

Lemma is_line_intro (body : list byte) :
  forallb (fun c => negb (Byte.eqb c nl)) body = true ->
  (len (body ++ [nl]) <=? Ticker.readerSize) = true ->
  is_line (body ++ [nl]).
Proof.
  intros Hb Hl. exists body. split; [reflexivity|]. split; [|lia].
  intros Hin. rewrite forallb_forall in Hb. apply Hb in Hin.
  rewrite byte_eqb_refl in Hin. discriminate.
Qed.

Lemma ex_slab_lines (n : nat) : Forall is_line (repeat ex_slab n).
Proof.
  apply Forall_forall. intros ln Hln. apply repeat_spec in Hln. subst ln.
  apply is_line_intro; reflexivity.
Qed.
End TickerFacts.

(** * Further lemmas *)

(** ** GetInfo *)

Module OneShotMore.
Import OneShot OneShotFacts.

Lemma assign_Timestamp (name : list byte) (v : Z) (f : Info) :
  Timestamp (assign name v f) = Timestamp f.
Proof.
  destruct f. unfold assign.
  repeat match goal with |- context [if ?c then _ else _] => destruct c end;
    reflexivity.
Qed.

Lemma assign_wf (name : list byte) (v : Z) (f : Info) :
  Info_wf f -> Info_wf (assign name v f).
Proof.
  destruct f. unfold Info_wf, assign.
  intros (H0 & H1 & H2 & H3 & H4 & H5 & H6 & H7 & H8 & H9 & H10).
  pose proof (CodecFacts.to_int64_range v) as Hv. fold (to_int v) in Hv.
  repeat match goal with |- context [if ?c then _ else _] => destruct c end;
    repeat match goal with |- _ /\ _ => split end; cbn; assumption.
Qed.

(** The field of a label is where its value goes. *)
Lemma assign_same (L : list byte) (fld : Info -> Z) (v : Z) (f : Info) :
  In (L, fld) label_fields -> fld (assign L v f) = to_int v.
Proof.
  unfold label_fields. cbn [In]. intros H.
  decompose [or] H; try contradiction;
    match goal with E : (_, _) = (_, _) |- _ => injection E as <- <- end;
    destruct f; reflexivity.
Qed.

(** The cases of the [switch], one by one. *)
Lemma assign_memTotal (v ts mt mf ma bu ca sc ac ina st sf : Z) :
  assign memTotal v (mkInfo ts mt mf ma bu ca sc ac ina st sf)
  = mkInfo ts (to_int v) mf ma bu ca sc ac ina st sf.
Proof. reflexivity. Qed.

Lemma assign_memFree (v ts mt mf ma bu ca sc ac ina st sf : Z) :
  assign memFree v (mkInfo ts mt mf ma bu ca sc ac ina st sf)
  = mkInfo ts mt (to_int v) ma bu ca sc ac ina st sf.
Proof. reflexivity. Qed.

Lemma assign_memAvailable (v ts mt mf ma bu ca sc ac ina st sf : Z) :
  assign memAvailable v (mkInfo ts mt mf ma bu ca sc ac ina st sf)
  = mkInfo ts mt mf (to_int v) bu ca sc ac ina st sf.
Proof. reflexivity. Qed.

Lemma assign_buffers (v ts mt mf ma bu ca sc ac ina st sf : Z) :
  assign buffers v (mkInfo ts mt mf ma bu ca sc ac ina st sf)
  = mkInfo ts mt mf ma (to_int v) ca sc ac ina st sf.
Proof. reflexivity. Qed.

Lemma assign_cached (v ts mt mf ma bu ca sc ac ina st sf : Z) :
  assign cached v (mkInfo ts mt mf ma bu ca sc ac ina st sf)
  = mkInfo ts mt mf ma bu (to_int v) sc ac ina st sf.
Proof. reflexivity. Qed.

Lemma assign_swapCached (v ts mt mf ma bu ca sc ac ina st sf : Z) :
  assign swapCached v (mkInfo ts mt mf ma bu ca sc ac ina st sf)
  = mkInfo ts mt mf ma bu ca (to_int v) ac ina st sf.
Proof. reflexivity. Qed.

Lemma assign_active (v ts mt mf ma bu ca sc ac ina st sf : Z) :
  assign active v (mkInfo ts mt mf ma bu ca sc ac ina st sf)
  = mkInfo ts mt mf ma bu ca sc (to_int v) ina st sf.
Proof. reflexivity. Qed.

Lemma assign_inactive (v ts mt mf ma bu ca sc ac ina st sf : Z) :
  assign inactive v (mkInfo ts mt mf ma bu ca sc ac ina st sf)
  = mkInfo ts mt mf ma bu ca sc ac (to_int v) st sf.
Proof. reflexivity. Qed.

Lemma assign_swapTotal (v ts mt mf ma bu ca sc ac ina st sf : Z) :
  assign swapTotal v (mkInfo ts mt mf ma bu ca sc ac ina st sf)
  = mkInfo ts mt mf ma bu ca sc ac ina (to_int v) sf.
Proof. reflexivity. Qed.

Lemma assign_swapFree (v ts mt mf ma bu ca sc ac ina st sf : Z) :
  assign swapFree v (mkInfo ts mt mf ma bu ca sc ac ina st sf)
  = mkInfo ts mt mf ma bu ca sc ac ina st (to_int v).
Proof. reflexivity. Qed.

Lemma assign_all_app (value : Line -> Z) (xs ys : list Line) (f : Info) :
  assign_all value (xs ++ ys) f = assign_all value ys (assign_all value xs f).
Proof. unfold assign_all. apply fold_left_app. Qed.

Lemma assign_all_unknown (value : Line -> Z) (xs : list Line) (f : Info) :
  Forall (fun x => ~ In (label x) known_labels) xs ->
  assign_all value xs f = f.
Proof.
  induction 1 as [|x xs Hx _ IH]; cbn; [reflexivity|].
  rewrite assign_unknown by assumption. exact IH.
Qed.

(** Storing 0 in a field that is 0. *)
Lemma assign_zero (name : list byte) (v : Z) (f : Info) :
  to_int v = 0 ->
  (forall fld, In (name, fld) label_fields -> fld f = 0) ->
  assign name v f = f.
Proof.
  intros Hv Hz. destruct f as [ts mt mf ma bu ca sc ac ina st sf].
  unfold assign. rewrite Hv.
  repeat match goal with
         | |- (if Equal name ?L then _ else _) = _ =>
             let E := fresh "E" in
             destruct (Equal name L) eqn:E;
             [apply Equal_eq in E; subst name;
              match goal with
              | |- context [mkInfo] =>
                  f_equal; symmetry;
                  first
                    [ apply (Hz MemTotal) | apply (Hz MemFree)
                    | apply (Hz MemAvailable) | apply (Hz Buffers)
                    | apply (Hz Cached) | apply (Hz SwapCached)
                    | apply (Hz Active) | apply (Hz Inactive)
                    | apply (Hz SwapTotal) | apply (Hz SwapFree) ];
                  unfold label_fields; cbn [In]; tauto
              end|]
         end.
  reflexivity.
Qed.

Section WithParseUint.
Context {error : Type}.
Variable pu : list byte -> result Z error.

(** What a scan keeps of the record it starts from. *)
Lemma loop_keeps (P : Info -> Prop) :
  (forall name v f, P f -> P (assign name v f)) ->
  forall fuel buf p f r,
    0 <= p -> loop pu fuel buf p f = Some (OK r) -> P f -> P r.
Proof.
  intros HP. induction fuel as [|fuel IH]; intros buf p f r Hp;
    cbn [loop]; [discriminate|].
  destruct (body pu buf p f) as [| e | p' f'] eqn:E.
  - intros [= <-]. auto.
  - discriminate.
  - destruct (body_name pu _ _ _ _ _ Hp E) as (name & v & -> & _).
    apply (body_range pu _ _ _ _ _ Hp) in E.
    intros Hr Hf. eapply IH; [|exact Hr|auto]. lia.
Qed.

(** The fields of the record [GetInfo] returns are 64-bit integers. *)
Lemma GetInfo_wf (file : result (list byte) error) (now : Z) (r : Info) :
  in_int64 now -> GetInfo pu file now = Some (OK r) -> Info_wf r.
Proof.
  intros Hn. unfold GetInfo. destruct file as [buf|e]; [|discriminate].
  intros Hr.
  apply (loop_keeps Info_wf (fun name v f => assign_wf name v f)
           _ _ _ _ _ (Z.le_refl 0) Hr).
  unfold Info_wf, Info_at, in_int64 in *. cbn. lia.
Qed.

(** The scan of a run of lines that are all of the expected form. *)
Lemma loop_lines (value : Line -> Z) (xs : list Line) (tail : list byte) :
  Forall shaped xs ->
  Forall (fun x => pu (digits x) = OK (value x)) xs ->
  forall fuel1 fuel2 f,
    (length (concat (map render xs) ++ tail) < fuel1)%nat ->
    (length tail < fuel2)%nat ->
    loop pu fuel1 (concat (map render xs) ++ tail) 0 f
    = loop pu fuel2 tail 0 (assign_all value xs f).
Proof.
  intros Hs Hv. revert Hv.
  induction Hs as [|x xs Hx Hs IH]; intros Hv fuel1 fuel2 f H1 H2;
    cbn [map concat app assign_all fold_left] in *.
  - apply loop_fuel; unfold len; lia.
  - inversion Hv as [|? ? Hvx Hvs]; subst.
    destruct fuel1 as [|fuel1]; [lia|].
    rewrite <- app_assoc in *.
    rewrite loop_line, Hvx by assumption.
    rewrite length_app in H1. pose proof (render_length x).
    apply IH; [assumption|lia|assumption].
Qed.

Lemma GetInfo_render (value : Line -> Z) (xs : list Line) (now : Z) :
  Forall shaped xs ->
  Forall (fun x => pu (digits x) = OK (value x)) xs ->
  GetInfo pu (OK (concat (map render xs))) now
  = Some (OK (assign_all value xs (Info_at now))).
Proof.
  intros Hs Hv. unfold GetInfo.
  rewrite <- (app_nil_r (concat (map render xs))) at 2.
  rewrite (loop_lines value xs [] Hs Hv _ 1%nat)
    by (rewrite ?app_nil_r; cbn; lia).
  reflexivity.
Qed.

Lemma loop_no_colon (fuel : nat) (buf : list byte) (p : Z) (f : Info) :
  ~ In colon (slice_from buf p) ->
  loop pu (S fuel) buf p f = Some (OK f).
Proof.
  intros H. cbn [loop]. unfold body.
  rewrite IndexByte_absent by assumption. reflexivity.
Qed.

(** One pass over a last line that has no terminator. *)
Lemma body_open (x : Line) (f : Info) :
  shaped x -> digits x <> [] ->
  body pu (render_open x) 0 f =
  match pu (digits x) with
  | OK v => Next (len (render_open x) - len (trailer x))
              (assign (label x) v f)
  | Err e => Return e
  end.
Proof.
  intros (Hlab & Hdig & Hnl & Htr) Hne.
  set (buf := render_open x).
  set (i := len (label x) + 1 + Z.of_nat (spaces x)).
  set (j := i + len (digits x)).
  pose proof (len_nonneg (label x)) as Hl0.
  assert (Hbuf : buf = (label x ++ [colon]) ++ repeat space (spaces x)
                         ++ digits x ++ trailer x).
  { unfold buf, render_open. rewrite <- !app_assoc. reflexivity. }
  assert (Hlc : len (label x ++ [colon]) = len (label x) + 1)
    by (rewrite len_app; reflexivity).
  assert (Hi : i = len ((label x ++ [colon]) ++ repeat space (spaces x))).
  { unfold i. rewrite len_app, Hlc, len_repeat. lia. }
  assert (E1 : IndexByte (slice_from buf 0) colon = len (label x)).
  { rewrite slice_from_0, Hbuf. rewrite <- !app_assoc. cbn [app].
    apply IndexByte_first. assumption. }
  assert (E2 : slice buf 0 (len (label x)) = label x).
  { rewrite Hbuf, <- !app_assoc.
    change (label x ++ ?r) with ([] ++ label x ++ r).
    apply (slice_mid [] (label x)). }
  assert (E3 : skipSpaces (slice_from buf (len (label x) + 1))
                 (len (label x)) = i).
  { rewrite Hbuf, <- Hlc, slice_from_len.
    destruct (digits x) as [|c d] eqn:Ed; [contradiction|].
    cbn [app]. rewrite skipSpaces_run; [unfold i; lia|].
    inversion Hdig as [|? ? Hc _]; subst. intros ->. discriminate Hc. }
  assert (E4 : skipDigits (slice_from buf i) i = j).
  { rewrite Hbuf, app_assoc, Hi, slice_from_len, <- Hi.
    apply skipDigits_run; [assumption|].
    destruct (trailer x); cbn; [reflexivity|apply Htr]. }
  assert (E5 : slice buf i j = digits x).
  { rewrite Hbuf, app_assoc. unfold j. rewrite Hi. apply slice_mid. }
  assert (E6 : IndexByte (slice_from buf j) nl = -1).
  { rewrite Hbuf. rewrite 2!app_assoc.
    replace j with (len (((label x ++ [colon]) ++ repeat space (spaces x))
                           ++ digits x))
      by (rewrite len_app, <- Hi; reflexivity).
    rewrite slice_from_len. apply IndexByte_absent. assumption. }
  unfold body. fold buf. rewrite E1.
  destruct (len (label x) <? 0) eqn:E0; [lia|]. cbn [Z.add].
  rewrite E2, E3, E4, E5.
  destruct (pu (digits x)) as [v|e]; [|reflexivity].
  rewrite E6. f_equal. unfold buf, render_open.
  unfold j, i. rewrite !len_app, len_repeat, !len_cons, len_nil. lia.
Qed.

Lemma loop_open (fuel : nat) (x : Line) (v : Z) (f : Info) :
  shaped x -> digits x <> [] -> ~ In colon (trailer x) ->
  pu (digits x) = OK v ->
  loop pu (S (S fuel)) (render_open x) 0 f
  = Some (OK (assign (label x) v f)).
Proof.
  intros Hx Hne Hc Hv. cbn [loop]. rewrite body_open, Hv by assumption.
  fold (loop pu (S fuel)). apply loop_no_colon.
  assert (E : render_open x
              = (label x ++ [colon] ++ repeat space (spaces x)
                   ++ digits x) ++ trailer x).
  { unfold render_open. rewrite <- !app_assoc. reflexivity. }
  rewrite E at 1.
  replace (len (render_open x) - len (trailer x))
    with (len (label x ++ [colon] ++ repeat space (spaces x) ++ digits x))
    by (rewrite E, (len_app _ (trailer x)); lia).
  rewrite slice_from_len. assumption.
Qed.

(** The pass that starts at a colon which ends the buffer, under a
    reader that takes the empty run of digits for a number. *)
Lemma body_last_colon (pre : list byte) (v : Z) (f : Info) :
  pu [] = OK v -> ~ In colon pre ->
  body pu (pre ++ [colon]) 0 f = Next (len pre) (assign pre v f).
Proof.
  intros Hv Hc. pose proof (len_nonneg pre) as Hl.
  assert (E1 : IndexByte (slice_from (pre ++ [colon]) 0) colon = len pre).
  { rewrite slice_from_0. apply IndexByte_first. assumption. }
  assert (E2 : slice (pre ++ [colon]) 0 (len pre) = pre)
    by apply slice_prefix.
  assert (E3 : slice_from (pre ++ [colon]) (len pre + 1) = []).
  { replace (len pre + 1) with (len (pre ++ [colon]))
      by (rewrite len_app; reflexivity).
    rewrite <- (app_nil_r (pre ++ [colon])) at 1.
    apply slice_from_len. }
  assert (E4 : slice_from (pre ++ [colon]) (len pre) = [colon])
    by apply slice_from_len.
  assert (E5 : slice (pre ++ [colon]) (len pre) (len pre) = []).
  { unfold slice. replace (Z.to_nat (len pre - len pre)) with O by lia.
    reflexivity. }
  unfold body. rewrite E1.
  destruct (len pre <? 0) eqn:E0; [lia|]. cbn [Z.add].
  rewrite E2, E3. cbn [skipSpaces]. rewrite E4. cbn [skipDigits].
  change (notDigit colon) with true. cbn iota.
  rewrite E5, Hv, E4. cbn [IndexByte]. change (Byte.eqb colon nl) with false.
  change (-1 <? 0) with true. cbn iota.
  replace (len pre + -1 + 1) with (len pre) by lia. reflexivity.
Qed.

End WithParseUint.

End OneShotMore.

(** ** The codec *)

Module CodecMore.
Import FB Layout CodecFacts.

(** What [Serialize] writes, [Deserialize] reads back. *)
Lemma Deserialize_Serialize (s : Info) :
  Info_wf s -> Deserialize (Serialize s) = Some s.
Proof.
  intros Hs. rewrite Serialize_eq.
  set (b := adds (fields s) (Data.DataStart NewBuilder)).
  destruct (adds_spec (fields s) 0 (Data.DataStart NewBuilder))
    as [Hf Hv].
  { exact start_filling. }
  { unfold fields. repeat constructor; cbn [fst snd]; try lia;
      apply to_int64_range. }
  { cbn. repeat constructor; cbn; intuition lia. }
  { intros k _. apply start_slots. }
  fold b in Hf, Hv. cbn [fields len length Z.of_nat] in Hf.
  rewrite (Deserialize_finished _ b Hf) by lia.
  rewrite !Hv. cbn [lookup fields Nat.eqb].
  destruct s. unfold Info_wf in Hs. cbn in Hs |- *.
  destruct Hs as (H0 & H1 & H2 & H3 & H4 & H5 & H6 & H7 & H8 & H9 & H10).
  unfold to_int.
  rewrite !to_int64_id by (try apply to_int64_range; assumption).
  reflexivity.
Qed.

(** The bytes [Serialize] returns, and the builder they come from. *)
Lemma Serialize_finished (s : Info) :
  exists b, Serialize s = finished b /\ filling 165 b.
Proof.
  rewrite Serialize_eq. eexists. split; [reflexivity|].
  destruct (adds_spec (fields s) 0 (Data.DataStart NewBuilder))
    as [Hf _].
  { exact start_filling. }
  { unfold fields. repeat constructor; cbn [fst snd]; try lia;
      apply to_int64_range. }
  { cbn. repeat constructor; cbn; intuition lia. }
  { intros k _. apply start_slots. }
  exact Hf.
Qed.

Lemma finished_first (N : Z) (b : Builder) :
  filling N b -> N <= 30000 ->
  exists c t, finished b = c :: t /\ c <> x00.
Proof.
  intros Hb HN. unfold finished. cbn [put_le app].
  do 2 eexists. split; [reflexivity|].
  intros E. apply (f_equal byte_val) in E.
  rewrite byte_val_byte_of_Z in E. change (byte_val x00) with 0 in E.
  pose proof (pad2_range N b Hb). pose proof (vsize_range N b Hb).
  rewrite Z.mod_small in E; lia.
Qed.

(** Reading bytes that are all 0. *)
Lemma Deserialize_zeros (rest : list byte) :
  Deserialize (x00 :: x00 :: x00 :: x00 :: rest) = Some (Info_at 0).
Proof.
  set (p := x00 :: x00 :: x00 :: x00 :: rest).
  assert (R4 : read p 0 4 = Some 0).
  { change p with (put_le 4 0 ++ rest). rewrite read_here. reflexivity. }
  assert (R2 : read p 0 2 = Some 0).
  { change p with (put_le 2 0 ++ x00 :: x00 :: rest).
    rewrite read_here. reflexivity. }
  assert (F : forall k, 0 <= k -> Int64Field (mkTable p 0) k = Some 0).
  { intros k Hk. unfold Int64Field, TableOffset, GetSOffsetT, GetVOffsetT.
    cbn [Bytes Pos]. rewrite R4. cbn [option_map].
    change (to_uint32 (0 - signed 32 0)) with 0. rewrite R2.
    destruct (Z.ltb_spec k 0); [lia|reflexivity]. }
  unfold Deserialize, Data.GetRootAsData, GetUOffsetT. rewrite R4.
  change (to_uint32 (0 + 0)) with 0.
  unfold Data.Timestamp, Data.MemTotal, Data.MemFree, Data.MemAvailable,
    Data.Buffers, Data.Cached, Data.SwapCached, Data.Active, Data.Inactive,
    Data.SwapTotal, Data.SwapFree.
  rewrite !F by lia. reflexivity.
Qed.

Lemma Deserialize_short (p : list byte) :
  len p < 4 -> Deserialize p = None.
Proof.
  intros H. unfold Deserialize, Data.GetRootAsData, GetUOffsetT, read.
  destruct (Z.leb_spec (0 + Z.of_nat 4) (len p)) as [L|L]; [lia|].
  reflexivity.
Qed.

End CodecMore.

(** ** DataTicker *)

Module TickerMore.
Import Ticker TickerFacts.

Lemma skipSpaces_blanks (n : nat) (c : byte) (s : list byte) (i p : Z) :
  c <> space ->
  skipSpaces (repeat space n ++ c :: s) i p = p + i + Z.of_nat n.
Proof.
  intros Hc. revert i. induction n as [|n IH]; intros i; cbn [repeat app skipSpaces].
  - apply byte_eqb_neq in Hc. rewrite Hc. cbn. lia.
  - rewrite byte_eqb_refl. cbn [negb]. rewrite IH. lia.
Qed.

Lemma grabNumber_run (d : list byte) (c : byte) (r v : list byte) :
  Forall (fun c => c <> space /\ c <> cr) d -> c = space \/ c = cr ->
  grabNumber (d ++ c :: r) v = v ++ d.
Proof.
  intros Hd Hc. revert v.
  induction Hd as [|x d [Hx1 Hx2] Hd IH]; intros v; cbn [app grabNumber].
  - destruct Hc as [-> | ->]; cbn; rewrite app_nil_r; reflexivity.
  - apply byte_eqb_neq in Hx1, Hx2. rewrite Hx1, Hx2. cbn [orb].
    rewrite IH, <- app_assoc. reflexivity.
Qed.

Lemma digit_range (c : byte) :
  OneShot.notDigit c = false <-> 48 <= byte_val c <= 57.
Proof.
  unfold OneShot.notDigit.
  change (byte_val x39) with 57. change (byte_val x30) with 48.
  rewrite orb_false_iff, Z.gtb_ltb, !Z.ltb_ge. lia.
Qed.

Lemma digit_not_blank (c : byte) :
  OneShot.notDigit c = false ->
  c <> space /\ c <> cr /\ c <> nl /\ c <> colon /\
  Byte.eqb c x2d = false /\ Byte.eqb c x2b = false.
Proof.
  intros H. apply digit_range in H.
  repeat match goal with |- _ /\ _ => split end;
    try match goal with |- _ = false => apply byte_eqb_neq end;
    intros ->; cbn in H; lia.
Qed.

(** [strconv.ParseUint] and the value of a run of digits. *)
Lemma decimal_ge (d : list byte) :
  forall n v, Forall (fun c => OneShot.notDigit c = false) d -> 0 <= n ->
              OneShot.decimal n d = Some v -> n <= v.
Proof.
  induction d as [|c d IH]; intros n v Hd Hn; cbn [OneShot.decimal].
  - intros [= ->]. lia.
  - inversion Hd as [|? ? Hc Hd']; subst. rewrite Hc.
    apply digit_range in Hc. change (byte_val x30) with 48.
    intros E. apply IH in E; [lia|assumption|lia].
Qed.

Lemma decimal_total (d : list byte) :
  forall n, Forall (fun c => OneShot.notDigit c = false) d ->
            exists v, OneShot.decimal n d = Some v.
Proof.
  induction d as [|c d IH]; intros n Hd; cbn [OneShot.decimal]; [eauto|].
  inversion Hd as [|? ? Hc Hd']; subst. rewrite Hc. apply IH. assumption.
Qed.

Lemma parseDigits_decimal (d : list byte) :
  forall n v, Forall (fun c => OneShot.notDigit c = false) d ->
              0 <= n < 2 ^ 64 ->
              OneShot.decimal n d = Some v ->
              parseDigits n d = if v <? 2 ^ 64 then OK v else Err ErrRange.
Proof.
  induction d as [|c d IH]; intros n v Hd Hn;
    cbn [OneShot.decimal parseDigits].
  - intros [= ->]. destruct (v <? 2 ^ 64) eqn:E; [reflexivity|lia].
  - inversion Hd as [|? ? Hc Hd']; subst. rewrite Hc. intros E.
    apply digit_range in Hc.
    change (byte_val x30) with 48 in *. change (byte_val x39) with 57.
    assert (Hv : n * 10 + (byte_val c - 48) <= v)
      by (apply (decimal_ge _ _ _ Hd'); [lia|assumption]).
    destruct ((48 <=? byte_val c) && (byte_val c <=? 57)) eqn:Ed; [|lia].
    change ((2 ^ 64 - 1) / 10 + 1) with 1844674407370955162.
    destruct (n >=? 1844674407370955162) eqn:E1.
    { destruct (v <? 2 ^ 64) eqn:E2; [lia|reflexivity]. }
    destruct (n * 10 + (byte_val c - 48) >? 2 ^ 64 - 1) eqn:E3.
    { destruct (v <? 2 ^ 64) eqn:E2; [lia|reflexivity]. }
    apply IH; [assumption|lia|assumption].
Qed.

(** [strconv.Atoi] on a run of digits. *)
Lemma Atoi_digits (d : list byte) (v : Z) :
  Forall (fun c => OneShot.notDigit c = false) d -> d <> [] ->
  OneShot.decimal 0 d = Some v ->
  Atoi d = if v <? 2 ^ 63 then OK v else Err ErrRange.
Proof.
  intros Hd Hne E. destruct d as [|c d]; [contradiction|].
  unfold Atoi. inversion Hd as [|? ? Hc Hd']; subst.
  destruct (digit_not_blank c Hc) as (_ & _ & _ & _ & -> & ->).
  cbn [orb negb andb].
  rewrite (parseDigits_decimal _ 0 v Hd) by (assumption || lia).
  pose proof (decimal_ge _ _ _ Hd (Z.le_refl 0) E).
  destruct (v <? 2 ^ 64) eqn:E1, (v <? 2 ^ 63) eqn:E2; try lia;
    try reflexivity.
  - destruct (v >=? 2 ^ 63) eqn:E3; [lia|reflexivity].
  - destruct (v >=? 2 ^ 63) eqn:E3; [reflexivity|lia].
Qed.

Lemma number_decimal (x : Line) :
  shaped x -> OneShot.decimal 0 (digits x) = Some (number x).
Proof.
  intros (_ & Hd & _). unfold number.
  destruct (decimal_total (digits x) 0 Hd) as (v & ->). reflexivity.
Qed.

Lemma number_nonneg (x : Line) : shaped x -> 0 <= number x.
Proof.
  intros Hx. pose proof (number_decimal x Hx) as E.
  destruct Hx as (_ & Hd & _). exact (decimal_ge _ _ _ Hd (Z.le_refl 0) E).
Qed.

Lemma plain_is_line (x : Line) : plain x -> is_line (render x).
Proof.
  intros ((Hc & Hd & Hn & Ht) & Hl & _ & _ & _ & Hlen).
  exists (label x ++ [colon] ++ repeat space (spaces x) ++ digits x
            ++ trailer x).
  split; [unfold render; rewrite <- !app_assoc; reflexivity|].
  split; [|assumption].
  rewrite !in_app_iff. intros [H|[H|[H|[H|H]]]]; try tauto.
  - cbn in H. intuition discriminate.
  - apply repeat_spec in H. discriminate.
  - rewrite Forall_forall in Hd. apply Hd in H. discriminate.
Qed.

(** The line loop on a line of the form [plain]. *)
Lemma parseLine_plain (x : Line) (st : State) :
  plain x ->
  parseLine (render x) st =
  Some ([], mkState (l st) (len (label x) + 1 + Z.of_nat (spaces x)) []
              (store (val st ++ label x) (number x) (bldr st))).
Proof.
  intros (Hx & Hl & Hne & Hv & (t & Ht) & Hlen).
  pose proof (number_decimal x Hx) as En.
  destruct Hx as (Hc & Hd & Hn & _).
  pose proof (len_nonneg (label x)) as Hl0.
  set (tail := trailer x ++ [nl]).
  assert (Hr : render x = label x ++ colon
                 :: repeat space (spaces x) ++ digits x ++ tail).
  { unfold render, tail. reflexivity. }
  unfold parseLine, lineName. rewrite Hr, grabName_label by assumption.
  cbn [fst snd]. rewrite <- Hr.
  assert (Hlen' : len (render x) =
                  len (label x) + 1 + Z.of_nat (spaces x) + len (digits x)
                  + len tail).
  { rewrite Hr. rewrite len_app, len_cons, !len_app, len_repeat. lia. }
  pose proof (len_nonneg (digits x)). pose proof (len_nonneg tail).
  destruct (len (render x) <? 0 + len (label x) + 1) eqn:E0; [lia|].
  assert (E1 : slice_from (render x) (0 + len (label x) + 1)
               = repeat space (spaces x) ++ digits x ++ tail).
  { replace (render x)
      with ((label x ++ [colon])
              ++ repeat space (spaces x) ++ digits x ++ tail)
      by (rewrite Hr, <- app_assoc; reflexivity).
    replace (0 + len (label x) + 1) with (len (label x ++ [colon]))
      by (rewrite len_app; cbn; lia).
    apply slice_from_len. }
  rewrite E1.
  destruct (digits x) as [|c d] eqn:Ed; [contradiction|].
  inversion Hd as [|? ? Hdc Hdd]; subst.
  destruct (digit_not_blank c Hdc) as (Hc1 & _).
  cbn [app]. rewrite skipSpaces_blanks by assumption.
  rewrite <- Ed in *.
  assert (E2 : slice_from (render x)
                 (0 + len (label x) + 1 + 0 + Z.of_nat (spaces x))
               = digits x ++ tail).
  { replace (render x)
      with (((label x ++ [colon]) ++ repeat space (spaces x))
              ++ digits x ++ tail)
      by (rewrite Hr, <- !app_assoc; reflexivity).
    replace (0 + len (label x) + 1 + 0 + Z.of_nat (spaces x))
      with (len ((label x ++ [colon]) ++ repeat space (spaces x)))
      by (rewrite !len_app, len_repeat; cbn; lia).
    apply slice_from_len. }
  rewrite E2.
  assert (E3 : grabNumber (digits x ++ tail) [] = digits x).
  { unfold tail.
    assert (Hb : Forall (fun c => c <> space /\ c <> cr) (digits x)).
    { eapply Forall_impl; [|exact Hd].
      intros a Ha. apply digit_not_blank in Ha. tauto. }
    destruct Ht as [-> | ->]; cbn [app];
      rewrite grabNumber_run by tauto; reflexivity. }
  rewrite E3.
  rewrite (Atoi_digits (digits x) (number x))
    by assumption.
  destruct (number x <? 2 ^ 63) eqn:E4; [|lia].
  do 3 f_equal. lia.
Qed.

Lemma with_errors_nil (r : option (list Error * option State)) :
  with_errors [] r = r.
Proof. destruct r as [[errs st]|]; reflexivity. Qed.

Lemma scanAll_plain (x : Line) (rest : list byte) (st : State) :
  plain x -> l st <> 16 -> skipped (l st + 1) = false ->
  scanAll (render x ++ rest) st = scanAll rest (after_plain st x).
Proof.
  intros Hx Hl Hs.
  rewrite scanAll_line, Hs by (try apply plain_is_line; assumption).
  rewrite parseLine_plain by assumption. apply with_errors_nil.
Qed.

Lemma after_plain_l (xs : list Line) (st : State) :
  l (fold_left after_plain xs st) = l st + len xs.
Proof.
  revert st. induction xs as [|x xs IH]; intros st; cbn [fold_left].
  - rewrite len_nil. lia.
  - rewrite IH, len_cons. cbn [after_plain l]. lia.
Qed.

Lemma scanAll_plains (xs : list Line) (rest : list byte) :
  Forall plain xs ->
  forall st,
    (forall i, l st < i <= l st + len xs -> skipped i = false) ->
    0 <= l st -> l st + len xs <= 16 ->
    scanAll (concat (map render xs) ++ rest) st
    = scanAll rest (fold_left after_plain xs st).
Proof.
  induction 1 as [|x xs Hx Hxs IH]; intros st Hs H0 Hl;
    cbn [map concat app fold_left]; [reflexivity|].
  rewrite len_cons in *. pose proof (len_nonneg xs).
  rewrite <- app_assoc, scanAll_plain by (try apply Hs; assumption || lia).
  apply IH; cbn [after_plain l]; try lia.
  intros i Hi. apply Hs. lia.
Qed.

Lemma scanAll_end (st : State) : scanAll [] st = Some ([], Some st).
Proof.
  unfold scanAll. cbn [length scan]. destruct (l st =? 16); reflexivity.
Qed.

(** One store, seen from the receiver's side. *)
Lemma slot_add (N : Z) (b : FB.Builder) (k : nat) (kz w : Z) :
  Layout.filling N b -> kz = Z.of_nat k -> (k < 11)%nat ->
  in_int64 w -> w <> 0 ->
  Layout.filling (N + 15) (FB.PrependInt64Slot kz w 0 b) /\
  forall j, Layout.slot_value (FB.PrependInt64Slot kz w 0 b) j
            = if Nat.eqb j k then w else Layout.slot_value b j.
Proof.
  intros Hb -> Hk Hw Hz. split; [apply CodecFacts.add_filling; assumption|].
  intros j. destruct (Nat.eqb j k) eqn:E.
  - apply Nat.eqb_eq in E. subst j. apply CodecFacts.add_same; try assumption.
    destruct Hb as (_ & _ & _ & -> & _). assumption.
  - apply Nat.eqb_neq in E. apply (CodecFacts.add_other N); assumption.
Qed.

Ltac store_case k kz :=
  match goal with
  | Hb : Layout.filling ?N ?b, Hr : in_int64 ?w, Ez : ?w <> 0 |- _ =>
      let Hf := fresh "Hf" in
      let Hs := fresh "Hs" in
      destruct (slot_add N b k kz w Hb eq_refl ltac:(lia) Hr Ez) as [Hf Hs];
      split; [exact Hf|];
      unfold holds, Data.DataAddMemTotal, Data.DataAddMemFree,
        Data.DataAddMemAvailable, Data.DataAddBuffers, Data.DataAddCached,
        Data.DataAddSwapCached, Data.DataAddActive, Data.DataAddInactive,
        Data.DataAddSwapTotal, Data.DataAddSwapFree;
      rewrite !Hs; cbn; tauto
  end.

Lemma store_holds (N : Z) (name : list byte) (v : Z) (b : FB.Builder)
      (f : Info) :
  Layout.filling N b -> holds b f ->
  Layout.filling (N + 15) (store name v b) /\
  holds (store name v b) (ticker_assign name v f).
Proof.
  intros Hb Hh. unfold ticker_assign.
  destruct (to_int64 v =? 0) eqn:Ez.
  - apply Z.eqb_eq in Ez.
    assert (E : store name v b = b).
    { unfold store. rewrite Ez.
      repeat match goal with
             | |- context [if ?c then _ else _] => destruct c
             end; reflexivity. }
    rewrite E. split; [|assumption].
    apply (CodecFacts.filling_weaken N); [lia|assumption].
  - apply Z.eqb_neq in Ez.
    pose proof (CodecFacts.to_int64_range v) as Hr.
    unfold store, OneShot.assign, to_int.
    unfold cached, memTotal, memFree, memAvailable, buffers, swapCached,
      active, inactive, swapTotal, swapFree.
    set (w := to_int64 v) in *. clearbody w. clear v.
    destruct f as [ts mt mf ma bu ca sc ac ina st sf].
    unfold holds in Hh. cbn in Hh.
    destruct Hh as (H0 & H1 & H2 & H3 & H4 & H5 & H6 & H7 & H8 & H9 & H10).
    destruct (Equal name (B "MemTotal")) eqn:E1;
      [apply Equal_eq in E1; subst name; store_case 1%nat 1|].
    destruct (Equal name (B "MemFree")) eqn:E2;
      [apply Equal_eq in E2; subst name; store_case 2%nat 2|].
    destruct (Equal name (B "MemAvailable")) eqn:E3;
      [apply Equal_eq in E3; subst name; store_case 3%nat 3|].
    destruct (Equal name (B "Buffers")) eqn:E4;
      [apply Equal_eq in E4; subst name; store_case 4%nat 4|].
    destruct (Equal name (B "Cached")) eqn:E5;
      [apply Equal_eq in E5; subst name; store_case 3%nat 3|].
    destruct (Equal name (B "SwapCached")) eqn:E6;
      [apply Equal_eq in E6; subst name; store_case 6%nat 6|].
    destruct (Equal name (B "Active")) eqn:E7;
      [apply Equal_eq in E7; subst name; store_case 7%nat 7|].
    destruct (Equal name (B "Inactive")) eqn:E8;
      [apply Equal_eq in E8; subst name; store_case 8%nat 8|].
    destruct (Equal name (B "SwapTotal")) eqn:E9;
      [apply Equal_eq in E9; subst name; store_case 9%nat 9|].
    destruct (Equal name (B "SwapFree")) eqn:E10;
      [apply Equal_eq in E10; subst name; store_case 10%nat 10|].
    split; [apply (CodecFacts.filling_weaken N); [lia|assumption]|].
    rewrite ?E1, ?E2, ?E3, ?E4, ?E5, ?E6, ?E7, ?E8, ?E9, ?E10.
    unfold holds. cbn. tauto.
Qed.

Lemma fold_holds (xs : list Line) :
  forall (N : Z) (st : State) (f : Info),
    val st = [] -> Layout.filling N (bldr st) -> holds (bldr st) f ->
    val (fold_left after_plain xs st) = [] /\
    Layout.filling (N + 15 * len xs) (bldr (fold_left after_plain xs st)) /\
    holds (bldr (fold_left after_plain xs st)) (ticker_all number xs f).
Proof.
  induction xs as [|x xs IH]; intros N st f Hv Hb Hh;
    cbn [fold_left ticker_all].
  - change (len (@nil Line)) with 0. split; [assumption|].
    split; [|assumption].
    apply (CodecFacts.filling_weaken N); [lia|assumption].
  - destruct (store_holds N (label x) (number x) _ f Hb Hh) as [Hb1 Hh1].
    destruct (IH (N + 15) (after_plain st x)
                (ticker_assign (label x) (number x) f)) as (H1 & H2 & H3).
    + reflexivity.
    + cbn [after_plain bldr]. rewrite Hv. exact Hb1.
    + cbn [after_plain bldr]. rewrite Hv. exact Hh1.
    + split; [exact H1|]. split; [|exact H3].
      rewrite len_cons.
      apply (CodecFacts.filling_weaken (N + 15 + 15 * len xs));
        [lia|exact H2].
Qed.

Lemma ticker_assign_wf (name : list byte) (v : Z) (f : Info) :
  Info_wf f -> Info_wf (ticker_assign name v f).
Proof.
  intros H. unfold ticker_assign. destruct (to_int64 v =? 0);
    [assumption|apply OneShotMore.assign_wf; assumption].
Qed.

Lemma ticker_all_wf (value : Line -> Z) (xs : list Line) (f : Info) :
  Info_wf f -> Info_wf (ticker_all value xs f).
Proof.
  revert f. induction xs as [|x xs IH]; intros f H; cbn; [assumption|].
  apply IH, ticker_assign_wf. assumption.
Qed.

(** The builder at the start of the line loop. *)
Lemma idle_start (st : State) :
  idle st -> Data.DataStart (bldr st) = Data.DataStart FB.NewBuilder.
Proof.
  intros (_ & Hb & Hm).
  unfold Data.DataStart, FB.StartObject, FB.Offset. rewrite Hb, Hm.
  reflexivity.
Qed.

Lemma ready_idle (st : State) : ready st -> idle st.
Proof. unfold ready, idle. tauto. Qed.

Lemma ready_start (st : State) :
  ready st -> Data.DataStart (bldr st) = Data.DataStart FB.NewBuilder.
Proof. intros H. apply idle_start, ready_idle, H. Qed.

Lemma start_holds (now : Z) :
  in_int64 now ->
  Layout.filling 15
    (Data.DataAddTimestamp now (Data.DataStart FB.NewBuilder)) /\
  holds (Data.DataAddTimestamp now (Data.DataStart FB.NewBuilder))
    (Info_at now).
Proof.
  intros Hn. unfold Data.DataAddTimestamp.
  assert (H0 : holds (Data.DataStart FB.NewBuilder) (Info_at 0)).
  { unfold holds. rewrite !CodecFacts.start_slots. cbn. tauto. }
  destruct (Z.eq_dec now 0) as [->|Hz].
  - split; [|exact H0].
    apply (CodecFacts.filling_weaken 0); [lia|].
    exact CodecFacts.start_filling.
  - destruct (slot_add 0 (Data.DataStart FB.NewBuilder) 0 0 now
                CodecFacts.start_filling eq_refl ltac:(lia) Hn Hz)
      as [Hf Hs].
    split; [exact Hf|]. unfold holds. rewrite !Hs.
    rewrite !CodecFacts.start_slots. cbn. tauto.
Qed.

(** What the receiver decodes from a builder that holds a record. *)
Lemma decoded (N : Z) (b : FB.Builder) (f : Info) :
  Layout.filling N b -> N <= 30000 -> holds b f -> Info_wf f ->
  Deserialize (FB.FinishedBytes (FB.Finish (Data.DataEnd b))) = Some f.
Proof.
  intros Hb HN Hh Hw. unfold Data.DataEnd.
  rewrite (CodecFacts.Finish_eq _ _ Hb).
  rewrite (CodecFacts.Deserialize_finished _ _ Hb HN).
  unfold holds in Hh.
  destruct Hh as (-> & -> & -> & -> & -> & -> & -> & -> & -> & -> & ->).
  destruct f. unfold Info_wf in Hw. cbn in Hw |- *.
  destruct Hw as (H0 & H1 & H2 & H3 & H4 & H5 & H6 & H7 & H8 & H9 & H10).
  unfold to_int. rewrite !CodecFacts.to_int64_id by assumption.
  reflexivity.
Qed.

(** The line loop on a sample. *)
Lemma scanAll_sample (s : Sample) (st : State) (N : Z) (f : Info) :
  sample_ok s -> l st = 0 -> val st = [] ->
  Layout.filling N (bldr st) -> holds (bldr st) f ->
  exists st',
    scanAll (sample_bytes s) st = Some ([], Some st') /\
    val st' = [] /\
    Layout.filling (N + 150) (bldr st') /\
    holds (bldr st') (ticker_all number (top s ++ low s) f).
Proof.
  destruct s as [A Q C R]. unfold sample_ok, sample_bytes.
  cbn [top mid low beyond].
  intros (HA & HQ & HC & LA & LQ & LC & I1 & I2 & I3) Hl Hv Hb Hh.
  assert (LA' : len A = Z.of_nat (length A)) by reflexivity.
  assert (LQ' : len Q = Z.of_nat (length Q)) by reflexivity.
  assert (LC' : len C = Z.of_nat (length C)) by reflexivity.
  assert (SA : forall i, l st < i <= l st + len A -> skipped i = false).
  { intros i Hi. unfold skipped.
    destruct (Z.gtb_spec i 8); [lia|reflexivity]. }
  rewrite (scanAll_plains A _ HA st SA) by lia.
  destruct (fold_holds A N st f Hv Hb Hh) as (VA & FA & HHA).
  pose proof (after_plain_l A st) as LsA.
  set (sA := fold_left after_plain A st) in *.
  destruct (Nat.lt_ge_cases (length A) 8) as [Hlt|Hge].
  { assert (EQ : Q = []) by (apply I1; assumption). subst Q.
    assert (EC : C = []) by (apply I2; cbn; lia). subst C.
    assert (ER : R = []) by (apply I3; cbn; lia). subst R.
    cbn [concat map app].
    rewrite scanAll_end, app_nil_r. exists sA.
    split; [reflexivity|]. split; [assumption|]. split; [|assumption].
    apply (CodecFacts.filling_weaken (N + 15 * len A)); [lia|assumption]. }
  rewrite (scanAll_skip Q _ HQ sA) by lia.
  set (sQ := mkState (l sA + len Q) (pos sA) (val sA) (bldr sA)).
  destruct (Nat.lt_ge_cases (length Q) 6) as [Hlt|Hge'].
  { assert (EC : C = []) by (apply I2; assumption). subst C.
    assert (ER : R = []) by (apply I3; cbn; lia). subst R.
    cbn [concat map app].
    rewrite scanAll_end, app_nil_r. exists sQ.
    split; [reflexivity|]. split; [assumption|]. split; [|assumption].
    apply (CodecFacts.filling_weaken (N + 15 * len A)); [lia|assumption]. }
  assert (SC : forall i, l sQ < i <= l sQ + len C -> skipped i = false).
  { intros i Hi. cbn [l sQ] in Hi. unfold skipped.
    destruct (Z.ltb_spec i 15); [lia|apply andb_false_r]. }
  rewrite (scanAll_plains C _ HC sQ SC) by (cbn [l sQ]; lia).
  destruct (fold_holds C (N + 15 * len A) sQ
              (ticker_all number A f) VA FA HHA) as (VC & FC & HHC).
  pose proof (after_plain_l C sQ) as LsC. cbn [l sQ] in LsC.
  set (sC := fold_left after_plain C sQ) in *.
  assert (HR : holds (bldr sC) (ticker_all number (A ++ C) f)).
  { unfold ticker_all in *. rewrite fold_left_app. exact HHC. }
  assert (FR : Layout.filling (N + 150) (bldr sC)).
  { apply (CodecFacts.filling_weaken (N + 15 * len A + 15 * len C));
      [lia|assumption]. }
  exists sC. split; [|tauto].
  destruct (Nat.lt_ge_cases (length C) 2) as [Hlt|Hge''].
  - rewrite (I3 Hlt). apply scanAll_end.
  - apply scanAll_full. lia.
Qed.

(** A tick on a sample, from a state that is [ready]. *)
Lemma tick_sample (s : Sample) (st : State) (now : Z) :
  ready st -> sample_ok s -> in_int64 now ->
  exists data st',
    tick now (OK (sample_bytes s)) st = Some ([SendOut data], Some st') /\
    Deserialize data = Some (sample_record now s) /\
    ready st'.
Proof.
  intros Hr Hs Hn. pose proof Hr as (Hl & Hv & _).
  unfold tick. rewrite (ready_start st Hr).
  destruct (start_holds now Hn) as [Hb Hh].
  destruct (scanAll_sample s
              (mkState (l st) (pos st) (val st)
                 (Data.DataAddTimestamp now (Data.DataStart FB.NewBuilder)))
              15 (Info_at now) Hs Hl Hv Hb Hh)
    as (st' & -> & Hv' & Hb' & Hh').
  do 2 eexists. split; [reflexivity|]. split.
  - apply (decoded (15 + 150)); [assumption|lia|assumption|].
    apply ticker_all_wf. unfold Info_wf, Info_at, in_int64 in *. cbn. lia.
  - unfold ready. cbn. tauto.
Qed.

(** Where the stores of the ticker and those of [GetInfo] agree. *)
Lemma ticker_assign_assign (name : list byte) (v : Z) (f : Info) :
  name <> cached ->
  (forall fld, In (name, fld) label_fields -> fld f = 0) ->
  ticker_assign name v f = OneShot.assign name v f.
Proof.
  intros Hc Hz. unfold ticker_assign.
  rewrite (Equal_neq name cached Hc).
  destruct (to_int64 v =? 0) eqn:E; [|reflexivity].
  apply Z.eqb_eq in E. symmetry.
  apply OneShotMore.assign_zero; assumption.
Qed.

Lemma ticker_all_assign_all (value : Line -> Z) (xs : list Line) :
  NoDup (map label xs) -> ~ In cached (map label xs) ->
  forall f,
    (forall x fld, In x xs -> In (label x, fld) label_fields -> fld f = 0) ->
    ticker_all value xs f = assign_all value xs f.
Proof.
  induction xs as [|x xs IH]; intros Hd Hc f Hz; [reflexivity|].
  cbn [map] in Hd, Hc. inversion Hd as [|? ? Hx Hd']; subst.
  cbn [ticker_all assign_all fold_left].
  rewrite ticker_assign_assign.
  - apply IH; [assumption|intros H; apply Hc; right; assumption|].
    intros y fld Hy Hf.
    rewrite (OneShotFacts.assign_other (label y) (label x) fld) by
      (try assumption; intros E; apply Hx; rewrite E;
       apply in_map; assumption).
    apply (Hz y); [right|]; assumption.
  - intros E. apply Hc. left. assumption.
  - intros fld Hf. apply (Hz x); [left; reflexivity|assumption].
Qed.

Lemma emitted_tick (now : Z) (sample data : list byte) (st' : State) :
  tick now (OK sample) initial = Some ([SendOut data], Some st') ->
  emitted now sample = Deserialize data.
Proof. intros H. unfold emitted. rewrite H. reflexivity. Qed.

Lemma ready_initial : ready initial.
Proof. unfold ready, initial. cbn. tauto. Qed.

Lemma plain_intro (x : Line) :
  forallb (fun c => negb (Byte.eqb c colon) && negb (Byte.eqb c nl))
    (label x) = true ->
  forallb (fun c => negb (OneShot.notDigit c)) (digits x) = true ->
  forallb (fun c => negb (Byte.eqb c nl)) (trailer x) = true ->
  match digits x, trailer x with
  | _ :: _, c :: _ => Byte.eqb c space || Byte.eqb c cr
  | _, _ => false
  end = true ->
  (number x <? 2 ^ 63) = true ->
  (len (render x) <=? readerSize) = true ->
  plain x.
Proof.
  intros Hl Hd Ht Hc Hn Hlen.
  rewrite forallb_forall in Hl, Hd, Ht.
  assert (Hs : shaped x).
  { split; [|split; [|split]].
    - intros H. apply Hl in H. rewrite byte_eqb_refl in H. discriminate.
    - apply Forall_forall. intros c H. apply Hd in H.
      destruct (OneShot.notDigit c); [discriminate|reflexivity].
    - intros H. apply Ht in H. rewrite byte_eqb_refl in H. discriminate.
    - destruct (digits x) as [|d ds]; [discriminate|].
      destruct (trailer x) as [|c t]; [exact I|].
      apply orb_true_iff in Hc. split; [|discriminate].
      destruct Hc as [Hc|Hc]; apply byte_eqb_eq in Hc; subst c;
        reflexivity. }
  split; [exact Hs|]. split.
  { intros H. apply Hl in H. rewrite byte_eqb_refl, andb_false_r in H.
    discriminate. }
  split; [destruct (digits x); [discriminate Hc|discriminate]|].
  split; [lia|]. split; [|lia].
  destruct (digits x) as [|d ds]; [discriminate|].
  destruct (trailer x) as [|c t]; [discriminate|].
  exists t. apply orb_true_iff in Hc.
  destruct Hc as [Hc|Hc]; apply byte_eqb_eq in Hc; subst c; tauto.
Qed.

Lemma ticker_assign_cached (v : Z) (f : Info) :
  ticker_assign cached v f
  = if to_int64 v =? 0 then f else OneShot.assign memAvailable v f.
Proof. reflexivity. Qed.

Lemma plain_number (x : Line) :
  plain x -> to_int (number x) = number x /\ to_int64 (number x) = number x.
Proof.
  intros (Hx & _ & _ & Hr & _). pose proof (number_nonneg x Hx).
  unfold to_int. rewrite CodecFacts.to_int64_id; [tauto|].
  unfold in_int64. lia.
Qed.

(** One store of the ticker in a field that is still 0. *)
Ltac fresh_field :=
  let fld := fresh "fld" in
  let Hf := fresh "Hf" in
  intros fld Hf; unfold label_fields in Hf; cbn [In] in Hf;
  decompose [or] Hf; try contradiction;
  match goal with E : (_, _) = (_, _) |- _ => inversion E end;
  try reflexivity; exfalso;
  match goal with
  | E1 : @eq (list byte) _ _ |- _ => vm_compute in E1; discriminate E1
  end.

Ltac next_line :=
  match goal with
  | |- context [fold_left ?F (?x :: ?l) ?a] =>
      change (fold_left F (x :: l) a)
        with (fold_left F l (ticker_assign (label x) (number x) a))
  end.

Ltac store_line HL HN lem :=
  next_line; rewrite HL;
  rewrite ticker_assign_assign
    by (try fresh_field; intros E; vm_compute in E; discriminate E);
  rewrite lem, (proj1 HN).

Lemma record_of_layout (x1 x2 x3 x4 x5 x6 x7 x8 x9 x10 : Line) (now : Z) :
  Forall plain [x1; x2; x3; x4; x5; x6; x7; x8; x9; x10] ->
  map label [x1; x2; x3; x4; x5; x6; x7; x8; x9; x10] = known_labels ->
  ticker_all number [x1; x2; x3; x4; x5; x6; x7; x8; x9; x10] (Info_at now)
  = mkInfo now (number x1) (number x2)
      (if number x5 =? 0 then number x3 else number x5)
      (number x4) 0 (number x6) (number x7) (number x8)
      (number x9) (number x10).
Proof.
  intros Hp HL. unfold known_labels in HL. cbn [map] in HL.
  injection HL as L1 L2 L3 L4 L5 L6 L7 L8 L9 L10.
  rewrite Forall_forall in Hp.
  assert (N1 := plain_number x1 (Hp x1 ltac:(cbn; tauto))).
  assert (N2 := plain_number x2 (Hp x2 ltac:(cbn; tauto))).
  assert (N3 := plain_number x3 (Hp x3 ltac:(cbn; tauto))).
  assert (N4 := plain_number x4 (Hp x4 ltac:(cbn; tauto))).
  assert (N5 := plain_number x5 (Hp x5 ltac:(cbn; tauto))).
  assert (N6 := plain_number x6 (Hp x6 ltac:(cbn; tauto))).
  assert (N7 := plain_number x7 (Hp x7 ltac:(cbn; tauto))).
  assert (N8 := plain_number x8 (Hp x8 ltac:(cbn; tauto))).
  assert (N9 := plain_number x9 (Hp x9 ltac:(cbn; tauto))).
  assert (N10 := plain_number x10 (Hp x10 ltac:(cbn; tauto))).
  clear Hp. unfold ticker_all, Info_at.
  store_line L1 N1 OneShotMore.assign_memTotal.
  store_line L2 N2 OneShotMore.assign_memFree.
  store_line L3 N3 OneShotMore.assign_memAvailable.
  store_line L4 N4 OneShotMore.assign_buffers.
  next_line. rewrite L5, ticker_assign_cached, (proj2 N5).
  destruct (number x5 =? 0) eqn:E5;
    [|rewrite OneShotMore.assign_memAvailable, (proj1 N5)];
    store_line L6 N6 OneShotMore.assign_swapCached;
    store_line L7 N7 OneShotMore.assign_active;
    store_line L8 N8 OneShotMore.assign_inactive;
    store_line L9 N9 OneShotMore.assign_swapTotal;
    store_line L10 N10 OneShotMore.assign_swapFree;
    reflexivity.
Qed.

(** The errors of one tick. *)
Lemma parseLine_errs (ln : list byte) (st st' : State) (errs : list Error) :
  parseLine ln st = Some (errs, st') -> (length errs <= 1)%nat.
Proof.
  unfold parseLine.
  destruct (len ln <? snd (grabName ln 0 (val st) (pos st)));
    [discriminate|].
  destruct (Atoi _); intros [= <- _]; cbn; lia.
Qed.

Lemma scan_errs (fuel : nat) :
  forall rd st errs r,
    scan fuel rd st = Some (errs, r) -> 0 <= l st <= 16 ->
    len errs <= (if l st <? 8 then 8 - l st else 0)
                + (if l st <? 14 then 2 else 16 - l st).
Proof.
  induction fuel as [|fuel IH]; intros rd st errs r; cbn [scan];
    [discriminate|].
  destruct (Z.eqb_spec (l st) 16) as [E16|E16].
  { intros [= <- _] _. rewrite E16. cbn. lia. }
  destruct (ReadSlice rd) as [[line [e|]] rd'].
  - intros H Hl.
    assert (He : len errs <= 1) by (destruct e; injection H as <- _; cbn; lia).
    destruct (l st <? 8) eqn:E8, (l st <? 14) eqn:E14; lia.
  - cbn [l pos val bldr].
    destruct (Z.gtb_spec (l st + 1) 8) as [G|G];
      destruct (Z.ltb_spec (l st + 1) 15) as [L|L]; cbn [andb].
    + intros H Hl. apply IH in H; cbn [l] in *; [|lia].
      destruct (l st <? 8) eqn:E8, (l st <? 14) eqn:E14,
               (l st + 1 <? 8) eqn:E8', (l st + 1 <? 14) eqn:E14'; lia.
    + destruct (parseLine line _) as [[errs1 st1]|] eqn:Ep.
      * destruct (scan fuel rd' st1) as [[errs2 r2]|] eqn:Es;
          [|discriminate].
        intros [= <- _] Hl.
        pose proof (parseLine_errs _ _ _ _ Ep) as H1.
        pose proof (parseLine_l _ _ _ _ Ep) as Hl1. cbn [l] in Hl1.
        apply IH in Es; [|lia]. rewrite Hl1 in Es.
        rewrite len_app. unfold len in *.
        destruct (l st <? 8) eqn:E8, (l st <? 14) eqn:E14,
                 (l st + 1 <? 8) eqn:E8', (l st + 1 <? 14) eqn:E14'; lia.
      * intros [= <- _] Hl. change (len (@nil Error)) with 0.
        destruct (l st <? 8) eqn:E8, (l st <? 14) eqn:E14; lia.
    + destruct (parseLine line _) as [[errs1 st1]|] eqn:Ep.
      * destruct (scan fuel rd' st1) as [[errs2 r2]|] eqn:Es;
          [|discriminate].
        intros [= <- _] Hl.
        pose proof (parseLine_errs _ _ _ _ Ep) as H1.
        pose proof (parseLine_l _ _ _ _ Ep) as Hl1. cbn [l] in Hl1.
        apply IH in Es; [|lia]. rewrite Hl1 in Es.
        rewrite len_app. unfold len in *.
        destruct (l st <? 8) eqn:E8, (l st <? 14) eqn:E14,
                 (l st + 1 <? 8) eqn:E8', (l st + 1 <? 14) eqn:E14'; lia.
      * intros [= <- _] Hl. change (len (@nil Error)) with 0.
        destruct (l st <? 8) eqn:E8, (l st <? 14) eqn:E14; lia.
    + lia.
Qed.

(** What the stores of a tick keep of the record. *)
Section Kept.
Variable P : Info -> Prop.
Hypothesis HP : forall name v f, P f -> P (ticker_assign name v f).

Lemma parseLine_holds (N : Z) (ln : list byte) (st st' : State)
      (errs : list Error) (f : Info) :
  parseLine ln st = Some (errs, st') ->
  Layout.filling N (bldr st) -> holds (bldr st) f -> P f ->
  exists f', Layout.filling (N + 15) (bldr st') /\
             holds (bldr st') f' /\ P f'.
Proof.
  unfold parseLine.
  destruct (len ln <? snd (grabName ln 0 (val st) (pos st)));
    [discriminate|].
  destruct (Atoi _) as [i|e]; intros [= _ <-] Hb Hh Hf; cbn [bldr].
  - destruct (store_holds N (lineName ln st) i _ f Hb Hh) as [H1 H2].
    eexists. split; [exact H1|]. split; [exact H2|]. apply HP, Hf.
  - exists f. split; [|tauto].
    apply (CodecFacts.filling_weaken N); [lia|assumption].
Qed.

Lemma scan_holds (N : Z) (fuel : nat) :
  forall rd st errs st' f,
    scan fuel rd st = Some (errs, Some st') ->
    0 <= l st <= 16 ->
    Layout.filling (N + 15 * l st) (bldr st) ->
    holds (bldr st) f -> P f ->
    exists f', 0 <= l st' <= 16 /\
               Layout.filling (N + 15 * l st') (bldr st') /\
               holds (bldr st') f' /\ P f'.
Proof.
  induction fuel as [|fuel IH]; intros rd st errs st' f; cbn [scan];
    [discriminate|].
  destruct (l st =? 16) eqn:E16; [intros [= _ <-]; eauto|].
  destruct (ReadSlice rd) as [[line [e|]] rd'].
  - destruct e; intros [= _ <-]; eauto.
  - cbn [l pos val bldr].
    destruct ((l st + 1 >? 8) && (l st + 1 <? 15)).
    + intros H Hl Hb Hh Hf.
      apply (IH _ _ _ _ f H); cbn [l bldr]; [lia| |assumption|assumption].
      apply (CodecFacts.filling_weaken (N + 15 * l st)); [lia|assumption].
    + destruct (parseLine line _) as [[errs1 st1]|] eqn:Ep;
        [|discriminate].
      destruct (scan fuel rd' st1) as [[errs2 r]|] eqn:Es; [|discriminate].
      intros [= _ ->] Hl Hb Hh Hf.
      pose proof (parseLine_l _ _ _ _ Ep) as Hl1. cbn [l] in Hl1.
      destruct (parseLine_holds _ _ _ _ _ f Ep Hb Hh Hf)
        as (f1 & Hb1 & Hh1 & Hf1).
      apply (IH _ _ _ _ f1 Es); [lia| |assumption|assumption].
      apply (CodecFacts.filling_weaken (N + 15 * l st + 15));
        [lia|assumption].
Qed.

End Kept.

Lemma ticker_assign_kept (now : Z) (name : list byte) (v : Z) (f : Info) :
  Timestamp f = now /\ Cached f = 0 /\ Info_wf f ->
  Timestamp (ticker_assign name v f) = now /\
  Cached (ticker_assign name v f) = 0 /\
  Info_wf (ticker_assign name v f).
Proof.
  intros (H1 & H2 & H3). split; [|split].
  - unfold ticker_assign. destruct (to_int64 v =? 0); [assumption|].
    rewrite OneShotMore.assign_Timestamp. assumption.
  - unfold ticker_assign. destruct (to_int64 v =? 0); [assumption|].
    rewrite (OneShotFacts.assign_other cached _ Cached);
      [assumption|unfold label_fields; cbn; tauto|].
    destruct (Equal name cached) eqn:E.
    + intros E'. vm_compute in E'. discriminate E'.
    + intros ->. rewrite (proj2 (Equal_eq cached cached) eq_refl) in E.
      discriminate E.
  - apply ticker_assign_wf. assumption.
Qed.

(** One tick, from a state between two ticks. *)
Lemma tick_cases (now : Z) (c : list byte) (st : State) :
  idle st -> in_int64 now ->
  exists errs,
    len errs <= 10 /\
    (tick now (OK c) st = Some (map SendErr errs ++ [Panic], None) \/
     exists data st' r,
       tick now (OK c) st = Some (map SendErr errs ++ [SendOut data], Some st')
       /\ Deserialize data = Some r /\ Timestamp r = now /\ Cached r = 0
       /\ Info_wf r /\ idle st').
Proof.
  intros Hi Hn. pose proof Hi as (Hl & _).
  unfold tick. rewrite (idle_start st Hi).
  destruct (start_holds now Hn) as [Hb Hh].
  set (st0 := mkState (l st) (pos st) (val st)
                (Data.DataAddTimestamp now (Data.DataStart FB.NewBuilder))).
  destruct (scanAll_total c st0) as (errs & r & Es). rewrite Es.
  exists errs. split.
  { unfold scanAll in Es. apply scan_errs in Es; cbn [l st0] in *; [|lia].
    rewrite Hl in Es. cbn in Es. exact Es. }
  destruct r as [st1|]; [right|left; reflexivity].
  destruct (scan_holds
              (fun f => Timestamp f = now /\ Cached f = 0 /\ Info_wf f)
              (ticker_assign_kept now) 15 _ _ _ _ _ (Info_at now) Es)
    as (f' & Hl1 & Hb1 & Hh1 & Ht & Hc & Hw); cbn [l bldr st0].
  - lia.
  - rewrite Hl. exact Hb.
  - exact Hh.
  - split; [reflexivity|]. split; [reflexivity|].
    unfold Info_wf, Info_at, in_int64 in *. cbn. lia.
  - do 3 eexists. split; [reflexivity|]. split.
    + apply (decoded _ _ _ Hb1); [lia|exact Hh1|exact Hw].
    + unfold idle. cbn. tauto.
Qed.

(** Lines without a colon, and the position left by the line before. *)
Lemma grabName_no_colon (ln : list byte) (i : Z) (v : list byte) (p : Z) :
  ~ In colon ln -> grabName ln i v p = (v ++ ln, p).
Proof.
  revert i v. induction ln as [|c ln IH]; intros i v H; cbn [grabName].
  - rewrite app_nil_r. reflexivity.
  - destruct (Byte.eqb c colon) eqn:E.
    + apply byte_eqb_eq in E. exfalso. apply H. left. assumption.
    + rewrite IH by (intros ?; apply H; right; assumption).
      rewrite <- app_assoc. reflexivity.
Qed.

Lemma skipSpaces_ge (s : list byte) :
  forall i p, 0 <= i -> p <= skipSpaces s i p.
Proof.
  induction s as [|c s IH]; intros i p Hi; cbn [skipSpaces]; [lia|].
  destruct (negb (Byte.eqb c space)); [lia|]. apply IH. lia.
Qed.

Lemma parseLine_panics (ln : list byte) (st : State) :
  ~ In colon ln -> len ln < pos st -> parseLine ln st = None.
Proof.
  intros Hc Hp. unfold parseLine.
  rewrite grabName_no_colon by assumption. cbn [snd].
  destruct (Z.ltb_spec (len ln) (pos st)); [reflexivity|lia].
Qed.

Lemma parseLine_labelled (lbl rest : list byte) (st : State) :
  ~ In colon lbl ->
  exists errs st',
    parseLine (lbl ++ colon :: rest) st = Some (errs, st') /\
    len lbl + 1 <= pos st' /\ l st' = l st.
Proof.
  intros Hc. unfold parseLine, lineName.
  rewrite grabName_label by assumption. cbn [fst snd].
  pose proof (len_nonneg lbl). pose proof (len_nonneg rest).
  destruct (Z.ltb_spec (len (lbl ++ colon :: rest)) (0 + len lbl + 1)) as [L|L].
  { rewrite len_app, len_cons in L. lia. }
  pose proof (skipSpaces_ge
                (slice_from (lbl ++ colon :: rest) (0 + len lbl + 1)) 0
                (0 + len lbl + 1) (Z.le_refl 0)) as Hs.
  set (p := skipSpaces _ 0 _) in *.
  destruct (Atoi _); do 2 eexists; (split; [reflexivity|]); cbn [pos l];
    lia.
Qed.

(** The end of the file. *)
Lemma slice_all {A} (s : list A) (n : Z) : len s <= n -> slice s 0 n = s.
Proof.
  intros H. unfold slice. cbn [Z.to_nat skipn].
  apply firstn_all2. unfold len in H. lia.
Qed.

Lemma ReadSlice_tail (tail : list byte) :
  ~ In nl tail -> len tail < readerSize ->
  ReadSlice tail = (tail, Some EOF, []).
Proof.
  intros Hn Hl. unfold ReadSlice.
  rewrite slice_all by lia. rewrite IndexByte_absent by assumption.
  cbn [Z.leb Z.compare].
  destruct (Z.ltb_spec (len tail) readerSize); [reflexivity|lia].
Qed.

Lemma ReadSlice_full (tail : list byte) :
  ~ In nl (slice tail 0 readerSize) -> readerSize <= len tail ->
  ReadSlice tail = (slice tail 0 readerSize, Some ErrBufferFull,
                    slice_from tail readerSize).
Proof.
  intros Hn Hl. unfold ReadSlice.
  rewrite IndexByte_absent by assumption. cbn [Z.leb Z.compare].
  destruct (Z.ltb_spec (len tail) readerSize); [lia|reflexivity].
Qed.

Lemma scanAll_tail (P : list (list byte)) (tail : list byte) :
  Forall is_line P -> ~ In nl tail -> len tail < readerSize ->
  forall st, scanAll (concat P ++ tail) st = scanAll (concat P) st.
Proof.
  intros HP Hn Hl. induction HP as [|ln P Hln HP IH]; intros st;
    cbn [concat app].
  - rewrite scanAll_end. unfold scanAll.
    destruct (length tail); cbn [scan];
      rewrite (ReadSlice_tail tail Hn Hl);
      destruct (l st =? 16); reflexivity.
  - destruct (Z.eq_dec (l st) 16) as [E|E].
    { rewrite !scanAll_full by assumption. reflexivity. }
    rewrite <- app_assoc.
    rewrite (scanAll_line ln (concat P ++ tail)) by assumption.
    rewrite (scanAll_line ln (concat P)) by assumption.
    destruct (skipped (l st + 1)); [apply IH|].
    destruct (parseLine ln (counted st)) as [[errs st']|]; [|reflexivity].
    rewrite IH. reflexivity.
Qed.

Lemma scanAll_overlong (P : list (list byte)) (tail : list byte) :
  Forall is_line P ->
  ~ In nl (slice tail 0 readerSize) -> readerSize <= len tail ->
  forall st,
    l st + len P < 16 ->
    scanAll (concat P ++ tail) st
    = match scanAll (concat P) st with
      | Some (errs, Some st') => Some (errs ++ [buffer_full], Some st')
      | r => r
      end.
Proof.
  intros HP Hn Hl. induction HP as [|ln P Hln HP IH]; intros st H16;
    cbn [concat app].
  - change (len (@nil (list byte))) with 0 in H16.
    rewrite scanAll_end. unfold scanAll.
    destruct (length tail); cbn [scan];
      rewrite (ReadSlice_full tail Hn Hl);
      (destruct (Z.eqb_spec (l st) 16); [lia|reflexivity]).
  - rewrite len_cons in H16. pose proof (len_nonneg P).
    rewrite <- app_assoc.
    rewrite (scanAll_line ln (concat P ++ tail)) by (assumption || lia).
    rewrite (scanAll_line ln (concat P)) by (assumption || lia).
    destruct (skipped (l st + 1)).
    { apply IH. cbn [counted l]. lia. }
    destruct (parseLine ln (counted st)) as [[errs st']|] eqn:Ep;
      [|reflexivity].
    pose proof (parseLine_l _ _ _ _ Ep) as Hl'. cbn [counted l] in Hl'.
    rewrite IH by lia.
    destruct (scanAll (concat P) st') as [[errs' [s|]]|]; cbn [with_errors];
      try reflexivity.
    rewrite app_assoc. reflexivity.
Qed.

(** A token that [strconv.Atoi] refuses. *)
Lemma parseDigits_newline (s : list byte) :
  forall n, exists e, parseDigits n (s ++ [nl]) = Err e.
Proof.
  induction s as [|c s IH]; intros n; cbn [app parseDigits].
  - cbn. eauto.
  - destruct ((byte_val x30 <=? byte_val c) && (byte_val c <=? byte_val x39));
      [|eauto].
    destruct (n >=? (2 ^ 64 - 1) / 10 + 1); [eauto|].
    destruct (n * 10 + (byte_val c - byte_val x30) >? 2 ^ 64 - 1); [eauto|].
    apply IH.
Qed.

Lemma Atoi_newline (s : list byte) : exists e, Atoi (s ++ [nl]) = Err e.
Proof.
  unfold Atoi. destruct s as [|c s]; cbn [app].
  - cbn. eauto.
  - destruct (Byte.eqb c x2d || Byte.eqb c x2b) eqn:E.
    + replace (if Byte.eqb c x2d || Byte.eqb c x2b
               then s ++ [nl] else c :: s ++ [nl]) with (s ++ [nl])
        by (rewrite E; reflexivity).
      destruct (parseDigits_newline s 0) as (e & He).
      destruct (s ++ [nl]) eqn:Es; [eauto|]. rewrite He. eauto.
    + replace (if Byte.eqb c x2d || Byte.eqb c x2b
               then s ++ [nl] else c :: s ++ [nl]) with ((c :: s) ++ [nl])
        by (rewrite E; reflexivity).
      destruct (parseDigits_newline (c :: s) 0) as (e & He).
      cbn [app] in *. rewrite He. eauto.
Qed.

(** The line loop on a line with a label, spaces and a token. *)
Lemma parseLine_token (lbl tok rest : list byte) (n : nat) (st : State) :
  ~ In colon lbl ->
  Forall (fun c => c <> space /\ c <> cr) tok ->
  match rest with
  | [] => tok <> []
  | c :: _ => c = space \/ c = cr
  end ->
  match tok ++ rest with
  | [] => True
  | c :: _ => c <> space
  end ->
  parseLine (lbl ++ colon :: repeat space n ++ tok ++ rest) st =
  match Atoi tok with
  | OK i => Some ([], mkState (l st) (len lbl + 1 + Z.of_nat n) []
                        (store (val st ++ lbl) i (bldr st)))
  | Err e => Some ([mkError "mem" "convert to int" (ConvFailed e)],
                   mkState (l st) (len lbl + 1 + Z.of_nat n) tok (bldr st))
  end.
Proof.
  intros Hc Ht Hr Hf.
  pose proof (len_nonneg lbl) as Hl0.
  unfold parseLine, lineName.
  rewrite grabName_label by assumption. cbn [fst snd].
  set (line := lbl ++ colon :: repeat space n ++ tok ++ rest).
  assert (Hlen : len line = len lbl + 1 + Z.of_nat n + len (tok ++ rest)).
  { unfold line. rewrite len_app, len_cons, len_app, len_repeat. lia. }
  pose proof (len_nonneg (tok ++ rest)).
  destruct (Z.ltb_spec (len line) (0 + len lbl + 1)) as [L|_]; [lia|].
  assert (E1 : slice_from line (0 + len lbl + 1)
               = repeat space n ++ tok ++ rest).
  { replace line with ((lbl ++ [colon]) ++ repeat space n ++ tok ++ rest)
      by (unfold line; rewrite <- app_assoc; reflexivity).
    replace (0 + len lbl + 1) with (len (lbl ++ [colon]))
      by (rewrite len_app; cbn; lia).
    apply slice_from_len. }
  rewrite E1.
  assert (Hne : exists c t, tok ++ rest = c :: t /\ c <> space).
  { destruct (tok ++ rest) as [|c t] eqn:E; [|eauto].
    apply app_eq_nil in E. destruct E as [-> ->]. contradiction. }
  destruct Hne as (c & t & Ec & Hcs). rewrite Ec.
  rewrite skipSpaces_blanks by assumption.
  assert (E2 : slice_from line (0 + len lbl + 1 + 0 + Z.of_nat n)
               = tok ++ rest).
  { replace line with (((lbl ++ [colon]) ++ repeat space n) ++ tok ++ rest)
      by (unfold line; rewrite <- !app_assoc; reflexivity).
    replace (0 + len lbl + 1 + 0 + Z.of_nat n)
      with (len ((lbl ++ [colon]) ++ repeat space n))
      by (rewrite !len_app, len_repeat; cbn; lia).
    apply slice_from_len. }
  rewrite E2.
  assert (E3 : grabNumber (tok ++ rest) [] = tok).
  { destruct rest as [|r rest'].
    - rewrite app_nil_r. clear - Ht.
      assert (G : forall v, grabNumber tok v = v ++ tok).
      { induction Ht as [|x d [Hx1 Hx2] Hd IH]; intros v; cbn [grabNumber].
        - rewrite app_nil_r. reflexivity.
        - apply byte_eqb_neq in Hx1, Hx2. rewrite Hx1, Hx2. cbn [orb].
          rewrite IH, <- app_assoc. reflexivity. }
      apply (G []).
    - rewrite grabNumber_run by assumption. reflexivity. }
  rewrite E3.
  destruct (Atoi tok); do 3 f_equal; lia.
Qed.

(** A run of whole lines, whatever they hold: the line loop panics in
    one of them, or goes on after them with that many lines counted. *)
Lemma scanAll_lines (P : list (list byte)) :
  Forall is_line P ->
  forall st,
    l st + len P <= 16 ->
    (exists errs, forall rest,
        scanAll (concat P ++ rest) st = Some (errs, None))
    \/ (exists errs st',
           l st' = l st + len P /\
           forall rest, scanAll (concat P ++ rest) st
                        = with_errors errs (scanAll rest st')).
Proof.
  induction 1 as [|ln P Hln HP IH]; intros st Hl; cbn [concat app].
  - right. exists [], st. rewrite len_nil. split; [lia|].
    intros rest. rewrite with_errors_nil. reflexivity.
  - rewrite len_cons in Hl. pose proof (len_nonneg P).
    assert (H16 : l st <> 16) by lia.
    destruct (skipped (l st + 1)) eqn:Es.
    + destruct (IH (counted st)) as [(errs & Hp)|(errs & st' & Hl' & Hp)];
        [cbn [counted l]; lia| |].
      * left. exists errs. intros rest.
        rewrite <- app_assoc, scanAll_line, Es by assumption. apply Hp.
      * right. exists errs, st'. cbn [counted l] in Hl'.
        rewrite len_cons. split; [lia|]. intros rest.
        rewrite <- app_assoc, scanAll_line, Es by assumption. apply Hp.
    + destruct (parseLine ln (counted st)) as [[errs1 st1]|] eqn:Ep.
      * pose proof (parseLine_l _ _ _ _ Ep) as Hl1. cbn [counted l] in Hl1.
        destruct (IH st1) as [(errs & Hp)|(errs & st' & Hl' & Hp)]; [lia| |].
        -- left. exists (errs1 ++ errs). intros rest.
           rewrite <- app_assoc, scanAll_line, Es, Ep, Hp by assumption.
           reflexivity.
        -- right. exists (errs1 ++ errs), st'.
           rewrite len_cons. split; [lia|]. intros rest.
           rewrite <- app_assoc, scanAll_line, Es, Ep, Hp by assumption.
           destruct (scanAll rest st') as [[e r]|]; cbn [with_errors];
             [rewrite app_assoc|]; reflexivity.
      * left. exists []. intros rest.
        rewrite <- app_assoc, scanAll_line, Es, Ep by assumption.
        reflexivity.
Qed.

(** The lines between the eighth and the fifteenth are counted only;
    no line elsewhere is. *)
Lemma scanAll_between (M : list (list byte)) (rest : list byte) (st : State) :
  Forall is_line M ->
  (forall i, l st < i <= l st + len M -> skipped i = true) ->
  scanAll (concat M ++ rest) st
  = scanAll rest (mkState (l st + len M) (pos st) (val st) (bldr st)).
Proof.
  intros HM Hs. destruct M as [|ln M].
  - cbn [concat app]. rewrite len_nil, Z.add_0_r. destruct st; reflexivity.
  - pose proof (len_nonneg M). rewrite len_cons in Hs.
    pose proof (Hs (l st + 1) ltac:(lia)) as H1.
    pose proof (Hs (l st + (len M + 1)) ltac:(lia)) as H2.
    unfold skipped in H1, H2. apply andb_true_iff in H1, H2.
    apply TickerFacts.scanAll_skip; [assumption| |]; rewrite ?len_cons; lia.
Qed.

End TickerMore.

(** * The claims *)

(** C1: every record, the zero record included, is what deserializing
    its serialization returns. *)
Theorem round_trip :
  forall s : Info, Info_wf s -> Deserialize (Serialize s) = Some s.
Proof.
  intros s Hs.
  rewrite CodecFacts.Serialize_eq.
  set (b := Layout.adds (Layout.fields s) (Data.DataStart FB.NewBuilder)).
  destruct (CodecFacts.adds_spec (Layout.fields s) 0
              (Data.DataStart FB.NewBuilder)) as [Hf Hv].
  { exact CodecFacts.start_filling. }
  { unfold Layout.fields. repeat constructor; cbn [fst snd]; try lia;
      apply CodecFacts.to_int64_range. }
  { cbn. repeat constructor; cbn; intuition lia. }
  { intros k _. apply CodecFacts.start_slots. }
  fold b in Hf, Hv. cbn [Layout.fields len length Z.of_nat] in Hf.
  rewrite (CodecFacts.Deserialize_finished _ b Hf) by lia.
  rewrite !Hv. cbn [Layout.lookup Layout.fields Nat.eqb].
  destruct s. unfold Info_wf in Hs. cbn in Hs |- *.
  destruct Hs as (H0 & H1 & H2 & H3 & H4 & H5 & H6 & H7 & H8 & H9 & H10).
  unfold to_int.
  rewrite !CodecFacts.to_int64_id
    by (try apply CodecFacts.to_int64_range; assumption).
  reflexivity.
Qed.

Lemma round_trip_witness :
  (Info_wf example_record /\
   Deserialize (Serialize example_record) = Some example_record)
  /\ (Info_wf (Info_at 0) /\
      Deserialize (Serialize (Info_at 0)) = Some (Info_at 0)).
Proof.
  assert (H0 : Info_wf (Info_at 0)) by (unfold Info_wf, in_int64; cbn; lia).
  split; split.
  - exact CodecFacts.example_record_wf.
  - exact (round_trip example_record CodecFacts.example_record_wf).
  - exact H0.
  - exact (round_trip (Info_at 0) H0).
Defined.

(** C2: the two paths do not share the mapping of labels to fields: at
    the label [Cached] the ticker stores into MemAvailable, so that no
    record it sends has a Cached other than 0, while the one-shot reader
    stores into Cached; on the sample of one [Cached] line the records
    differ. *)
Theorem cached_label_diverges :
  (forall v b, Ticker.store (B "Cached") v b
               = Data.DataAddMemAvailable (to_int64 v) b)
  /\ (forall now sample r, emitted now sample = Some r -> Cached r = 0)
  /\ (forall (error : Type) (ParseUint : list byte -> result Z error)
             (x : Line) (v now : Z),
         shaped x -> label x = cached -> ParseUint (digits x) = OK v ->
         OneShot.GetInfo ParseUint (OK (render x)) now
         = Some (OK (mkInfo now 0 0 0 0 (to_int v) 0 0 0 0 0)))
  /\ OneShot.GetInfo OneShot.parseDecimal (OK cached_sample) 1000
     = Some (OK (mkInfo 1000 0 0 0 0 2048000 0 0 0 0 0))
  /\ emitted 1000 cached_sample = Some (mkInfo 1000 0 0 2048000 0 0 0 0 0 0 0).
Proof.
  split; [|split; [|split; [|split]]].
  - intros v b. reflexivity.
  - exact TickerFacts.emitted_Cached.
  - intros error pu x v now Hx Hl Hv.
    rewrite (OneShotFacts.GetInfo_line pu x v now Hx Hv), Hl. reflexivity.
  - vm_compute. reflexivity.
  - vm_compute. reflexivity.
Qed.

Lemma cached_label_diverges_witness :
  (emitted 1000 cached_sample = Some (mkInfo 1000 0 0 2048000 0 0 0 0 0 0 0)
   /\ Cached (mkInfo 1000 0 0 2048000 0 0 0 0 0 0 0) = 0)
  /\ ((shaped (mkLine cached 6 (B "2048000") (B " kB")) /\
       OneShot.parseDecimal (B "2048000") = OK 2048000) /\
      OneShot.GetInfo OneShot.parseDecimal (OK cached_sample) 1000
      = Some (OK (mkInfo 1000 0 0 0 0 (to_int 2048000) 0 0 0 0 0))).
Proof.
  assert (H1 : emitted 1000 cached_sample
               = Some (mkInfo 1000 0 0 2048000 0 0 0 0 0 0 0))
    by (vm_compute; reflexivity).
  assert (H2 : shaped (mkLine cached 6 (B "2048000") (B " kB")))
    by (repeat constructor; cbn; intuition discriminate).
  assert (H3 : OneShot.parseDecimal (B "2048000") = OK 2048000)
    by reflexivity.
  split; [split; [exact H1|]|split; [split; assumption|]].
  - exact (proj1 (proj2 cached_label_diverges) 1000 cached_sample _ H1).
  - exact (proj1 (proj2 (proj2 cached_label_diverges)) unit
             OneShot.parseDecimal (mkLine cached 6 (B "2048000") (B " kB"))
             2048000 1000 H2 eq_refl H3).
Defined.




(** C4, as the code has it: of a sample with more than sixteen lines the
    tick reads sixteen and sends what it sends for these alone: the
    excess is not reported. *)
Theorem cutoff_is_silent :
  forall (now : Z) (st : Ticker.State) (P : list (list byte)) (R : list byte),
    Ticker.l st = 0 -> Forall is_line P -> length P = 16%nat ->
    Ticker.tick now (OK (concat P ++ R)) st
    = Ticker.tick now (OK (concat P)) st.
Proof.
  intros now st P R Hl HP H16.
  rewrite <- (app_nil_r (concat P)) at 2.
  apply TickerFacts.tick_congr. intros s Hs.
  apply TickerFacts.scanAll_sixteen; [assumption|]. unfold len. lia.
Qed.

Lemma cutoff_is_silent_witness :
  Ticker.tick 1000 (OK long_sample) Ticker.initial
  = Ticker.tick 1000 (OK (concat (repeat ex_slab 16))) Ticker.initial.
Proof.
  apply (cutoff_is_silent 1000 Ticker.initial (repeat ex_slab 16)
           (B "MemTotal: 5 kB" ++ [nl])).
  - reflexivity.
  - apply TickerFacts.ex_slab_lines.
  - reflexivity.
Defined.

Lemma cutoff_counterexample : ~ excess_is_reported 1000 long_sample.
Proof.
  unfold excess_is_reported. intros H.
  assert (E : reported 1000 long_sample = []) by (vm_compute; reflexivity).
  apply H; [|exact E].
  exists (repeat (B "Slab: 1 kB" ++ [nl]) 16), (B "MemTotal: 5 kB" ++ [nl]).
  split; [reflexivity|]. split; [|split; [reflexivity|discriminate]].
  apply Forall_forall. intros ln Hln. apply repeat_spec in Hln. subst ln.
  apply TickerFacts.is_line_intro; reflexivity.
Qed.

(** C5: the buffer of the end-to-end example, read at time 1000, gives the
    record of the example, and that record survives serialization. *)
Theorem example_end_to_end :
  forall (error : Type) (ParseUint : list byte -> result Z error),
    decimal_reader ParseUint ->
    OneShot.GetInfo ParseUint (OK example_buffer) 1000 = Some (OK example_record)
    /\ Deserialize (Serialize example_record) = Some example_record.
Proof.
  intros error pu Hpu. split.
  - unfold OneShot.GetInfo. apply OneShotFacts.loop_decimal; [assumption|].
    vm_compute. reflexivity.
  - vm_compute. reflexivity.
Qed.

Lemma example_end_to_end_witness :
  decimal_reader OneShot.parseDecimal /\
  (OneShot.GetInfo OneShot.parseDecimal (OK example_buffer) 1000
   = Some (OK example_record)
   /\ Deserialize (Serialize example_record) = Some example_record).
Proof.
  split.
  - exact OneShotFacts.parseDecimal_reader.
  - exact (example_end_to_end unit OneShot.parseDecimal
             OneShotFacts.parseDecimal_reader).
Defined.




(** C7: when no colon is left the scan ends with the record as it is,
    without an error; a buffer without any colon gives the zero record;
    and a field whose label does not occur in the buffer is zero in the
    record returned. *)
Theorem no_colon_ends_scan :
  forall (error : Type) (ParseUint : list byte -> result Z error)
         (buf : list byte) (now : Z),
    (forall fuel p f,
        IndexByte (slice_from buf p) colon < 0 ->
        OneShot.loop ParseUint (S fuel) buf p f = Some (OK f))
    /\ (~ In colon buf ->
        OneShot.GetInfo ParseUint (OK buf) now = Some (OK (Info_at now)))
    /\ (forall r L fld,
           OneShot.GetInfo ParseUint (OK buf) now = Some (OK r) ->
           In (L, fld) label_fields -> ~ labelled L buf -> fld r = 0).
Proof.
  intros error pu buf now.
  assert (H1 : forall fuel p f,
             IndexByte (slice_from buf p) colon < 0 ->
             OneShot.loop pu (S fuel) buf p f = Some (OK f)).
  { intros fuel p f H. cbn [OneShot.loop]. unfold OneShot.body.
    destruct (IndexByte (slice_from buf p) colon <? 0) eqn:E; [reflexivity|lia]. }
  split; [exact H1|]. split.
  - intros Hc. unfold OneShot.GetInfo. apply H1.
    rewrite slice_from_0, IndexByte_absent by assumption. lia.
  - intros r L fld Hr HL Habs. unfold OneShot.GetInfo in Hr.
    apply (OneShotFacts.loop_absent pu L fld buf HL Habs
             (S (length buf)) 0 (Info_at now) r); [lia|exact Hr|].
    unfold label_fields in HL. cbn [In] in HL.
    decompose [or] HL; try contradiction;
      match goal with H : (_, _) = (_, _) |- _ => injection H as <- <- end;
      reflexivity.
Qed.

Lemma no_colon_ends_scan_witness :
  (~ In colon (B "MemTotal 16384000 kB") /\
   OneShot.GetInfo OneShot.parseDecimal (OK (B "MemTotal 16384000 kB")) 7
   = Some (OK (Info_at 7)))
  /\ (OneShot.GetInfo OneShot.parseDecimal (OK (B "Cached: 1")) 7
      = Some (OK (mkInfo 7 0 0 0 0 1 0 0 0 0 0)) /\
      ~ labelled swapFree (B "Cached: 1") /\
      SwapFree (mkInfo 7 0 0 0 0 1 0 0 0 0 0) = 0).
Proof.
  assert (H1 : ~ In colon (B "MemTotal 16384000 kB"))
    by (cbn; intuition discriminate).
  assert (H2 : OneShot.GetInfo OneShot.parseDecimal (OK (B "Cached: 1")) 7
               = Some (OK (mkInfo 7 0 0 0 0 1 0 0 0 0 0)))
    by (vm_compute; reflexivity).
  assert (H3 : ~ labelled swapFree (B "Cached: 1")).
  { intros (pre & post & E). cbn in E.
    repeat (destruct pre as [|? pre];
            [discriminate E|cbn in E; injection E as _ E]).
    destruct pre; discriminate E. }
  split; split; try assumption.
  - exact (proj1 (proj2 (no_colon_ends_scan unit OneShot.parseDecimal
                           (B "MemTotal 16384000 kB") 7)) H1).
  - split; [assumption|].
    apply (proj2 (proj2 (no_colon_ends_scan unit OneShot.parseDecimal
                           (B "Cached: 1") 7))
             (mkInfo 7 0 0 0 0 1 0 0 0 0 0) swapFree SwapFree H2);
      [cbn; tauto|assumption].
Defined.

(** C8, as the code has it: started with a positive interval,
    [DataTicker] looks at the done signal in its [select] and nowhere
    else.  A signal taken there makes the function return; the function
    is left by that return or by a panic of the line loop only, and when
    it is left the output channel is closed, once, and the ticker is
    stopped, after everything that was sent.  Until then the channel is
    not closed: a send that no receiver takes is not ended by the
    signal, and the function neither returns nor closes the channel.
    When both channels take every send the signal does end the
    function. *)
Theorem done_closes_once :
  forall (interval : Z) (evs : list Ticker.event) (out err : Ticker.credit),
    0 < interval ->
    exists acts p,
      Ticker.DataTicker interval evs out err = Some (acts, p)
      /\ (has_left p = true ->
          length (filter is_close acts) = 1%nat /\
          In Ticker.StopTicker acts /\
          forall pre post, acts = pre ++ Ticker.CloseOut :: post ->
                           filter is_send_out post = [])
      /\ (has_left p = false -> filter is_close acts = [])
      /\ (p = Ticker.Returned -> In Ticker.Done evs)
      /\ (In Ticker.Done evs -> p <> Ticker.InSelect)
      /\ (In Ticker.Done evs ->
          out = Ticker.Unbounded -> err = Ticker.Unbounded ->
          has_left p = true)
      /\ (forall pre post,
             evs = pre ++ Ticker.Done :: post -> ~ In Ticker.Done pre ->
             Ticker.DataTicker interval evs out err
             = match Ticker.DataTicker interval pre out err with
               | Some (acts', Ticker.InSelect) =>
                   Some (acts' ++ Ticker.deferred, Ticker.Returned)
               | r => r
               end).
Proof.
  intros interval evs out err Hi. unfold Ticker.DataTicker.
  destruct (Z.leb_spec interval 0) as [L|_]; [lia|].
  destruct (TickerFacts.run_shape evs Ticker.initial out err)
    as (before & p & E & Hb & Hr & Hd & Hu).
  eexists _, p. split; [exact E|].
  assert (Hc : forall a, is_close a = true -> is_deferred a = true)
    by (intros [] H; (discriminate || reflexivity)).
  split; [|split; [|split; [|split; [|split]]]].
  - intros ->. split; [|split].
    + rewrite filter_app, (TickerFacts.filter_none is_close) by assumption.
      reflexivity.
    + apply in_or_app. right. cbn. auto.
    + intros pre post Hp.
      apply TickerFacts.split_at_close in Hp; [|assumption].
      subst post. reflexivity.
  - intros ->. rewrite app_nil_r.
    apply TickerFacts.filter_none; assumption.
  - exact Hr.
  - exact Hd.
  - intros Hin -> ->. destruct (Hu eq_refl eq_refl) as [H1 H2].
    specialize (Hd Hin). destruct p; try reflexivity; contradiction.
  - intros pre post -> Hn. apply TickerFacts.run_done. exact Hn.
Qed.

Lemma done_closes_once_witness :
  0 < 1 /\
  exists acts,
    Ticker.DataTicker 1
      [Ticker.Tick 1000 (OK example_buffer); Ticker.Done]
      Ticker.Unbounded Ticker.Unbounded
    = Some (acts, Ticker.Returned) /\
    length (filter is_close acts) = 1%nat /\
    In Ticker.StopTicker acts /\
    forall pre post, acts = pre ++ Ticker.CloseOut :: post ->
                     filter is_send_out post = [].
Proof.
  split; [lia|].
  destruct (done_closes_once 1
              [Ticker.Tick 1000 (OK example_buffer); Ticker.Done]
              Ticker.Unbounded Ticker.Unbounded)
    as (acts & p & E & Hl & _ & _ & Hd & Hu & _); [lia|].
  assert (Hin : In Ticker.Done
                  [Ticker.Tick 1000 (OK example_buffer); Ticker.Done])
    by (right; left; reflexivity).
  specialize (Hu Hin eq_refl eq_refl).
  assert (Hp : p = Ticker.Returned).
  { destruct p; try discriminate Hu; [reflexivity|].
    vm_compute in E. discriminate E. }
  exists acts. rewrite <- Hp. split; [exact E|]. exact (Hl Hu).
Defined.

(** C8 as stated fails: with an output channel that takes no send, the
    tick before the done signal waits in [outCh <- data]; the function
    does not return and the channel is not closed.  With an interval
    that is not positive [time.NewTicker] panics before the calls are
    deferred, and the channel is left open. *)
Lemma done_counterexample :
  ~ done_always_exits 1 [Ticker.Tick 1000 (OK example_buffer); Ticker.Done]
      (Ticker.Sends 0) Ticker.Unbounded
  /\ ~ done_always_exits 0 [Ticker.Done] Ticker.Unbounded Ticker.Unbounded.
Proof.
  split; intros H.
  - destruct H as (acts & E & _); [right; left; reflexivity|].
    vm_compute in E. discriminate E.
  - destruct H as (acts & E & _); [left; reflexivity|].
    vm_compute in E. discriminate E.
Qed.




(** C10: the line loop reads at most sixteen lines of a sample and does
    no more than count the ninth to the fourteenth: whatever these lines
    and the lines after the sixteenth contain, the tick sends the same
    and leaves the same state. *)
Theorem skipped_and_cut_lines :
  forall (now : Z) (st : Ticker.State),
    Ticker.l st = 0 ->
    (forall (P Q Q' : list (list byte)) (R : list byte),
        Forall is_line P -> length P = 8%nat ->
        Forall is_line Q -> Forall is_line Q' ->
        length Q = length Q' -> (length Q <= 6)%nat ->
        Ticker.tick now (OK (concat P ++ concat Q ++ R)) st =
        Ticker.tick now (OK (concat P ++ concat Q' ++ R)) st)
    /\ (forall (P : list (list byte)) (R R' : list byte),
           Forall is_line P -> length P = 16%nat ->
           Ticker.tick now (OK (concat P ++ R)) st =
           Ticker.tick now (OK (concat P ++ R')) st).
Proof.
  intros now st Hl. split.
  - intros P Q Q' R HP H8 HQ HQ' Hlen H6.
    apply TickerFacts.tick_congr. intros s Hs.
    apply TickerFacts.scanAll_eight; try assumption; unfold len; lia.
  - intros P R R' HP H16.
    apply TickerFacts.tick_congr. intros s Hs.
    apply TickerFacts.scanAll_sixteen; try assumption; unfold len; lia.
Qed.

Lemma skipped_and_cut_lines_witness :
  Ticker.tick 1000
    (OK (concat (repeat ex_slab 8) ++ concat [good_line] ++ example_buffer))
    Ticker.initial
  = Ticker.tick 1000
      (OK (concat (repeat ex_slab 8) ++ concat [ex_slab] ++ example_buffer))
      Ticker.initial
  /\ Ticker.tick 1000 (OK (concat (repeat ex_slab 16) ++ good_line))
       Ticker.initial
     = Ticker.tick 1000 (OK (concat (repeat ex_slab 16) ++ ex_slab))
         Ticker.initial.
Proof.
  destruct (skipped_and_cut_lines 1000 Ticker.initial eq_refl) as [H1 H2].
  split.
  - apply H1; try reflexivity.
    + apply TickerFacts.ex_slab_lines.
    + constructor; [|constructor].
      apply (TickerFacts.is_line_intro (B "MemFree: 512000 kB")); reflexivity.
    + apply (TickerFacts.ex_slab_lines 1).
    + cbn. lia.
  - apply H2; [apply TickerFacts.ex_slab_lines|reflexivity].
Defined.

(** * Further properties *)

(** ** GetInfo and GetData *)

(** X1.  On a file made of lines of the form [Label: digits rest],
    followed by bytes that hold no colon, [GetInfo] returns the record
    that the stores of the lines, made in the order of the lines, leave
    of the zero record with the timestamp: a later line with the same
    label overwrites an earlier one, and what follows the digits on a
    line plays no part. *)
Theorem GetInfo_lines :
  forall (error : Type) (ParseUint : list byte -> result Z error)
         (value : Line -> Z) (xs : list Line) (tail : list byte) (now : Z),
    Forall shaped xs ->
    Forall (fun x => ParseUint (digits x) = OK (value x)) xs ->
    ~ In colon tail ->
    OneShot.GetInfo ParseUint (OK (concat (map render xs) ++ tail)) now
    = Some (OK (assign_all value xs (Info_at now))).
Proof.
  intros error pu value xs tail now Hs Hv Hc. unfold OneShot.GetInfo.
  rewrite (OneShotMore.loop_lines pu value xs tail Hs Hv _ (S (length tail)))
    by lia.
  apply OneShotMore.loop_no_colon. rewrite slice_from_0. assumption.
Qed.

Lemma GetInfo_lines_witness :
  OneShot.GetInfo OneShot.parseDecimal
    (OK (concat (map render ex_twice) ++ B "end")) 1000
  = Some (OK (mkInfo 1000 9 7 0 0 0 0 0 0 0 0)).
Proof.
  rewrite (GetInfo_lines unit OneShot.parseDecimal number ex_twice
             (B "end") 1000).
  - reflexivity.
  - repeat constructor; cbn; intuition discriminate.
  - repeat constructor.
  - cbn. intuition discriminate.
Defined.

(** X2.  A last line that lacks its line terminator is read all the
    same: when the digits of the line convert and nothing after them
    holds a colon, [GetInfo] stores its value as it does for the lines
    before it. *)
Theorem GetInfo_reads_unterminated_line :
  forall (error : Type) (ParseUint : list byte -> result Z error)
         (value : Line -> Z) (xs : list Line) (x : Line) (now : Z),
    Forall shaped xs ->
    Forall (fun y => ParseUint (digits y) = OK (value y)) xs ->
    shaped x -> digits x <> [] -> ~ In colon (trailer x) ->
    ParseUint (digits x) = OK (value x) ->
    OneShot.GetInfo ParseUint (OK (concat (map render xs) ++ render_open x)) now
    = Some (OK (assign_all value (xs ++ [x]) (Info_at now))).
Proof.
  intros error pu value xs x now Hs Hv Hx Hd Hc Hvx. unfold OneShot.GetInfo.
  rewrite (OneShotMore.loop_lines pu value xs (render_open x) Hs Hv _
             (S (S (length (render_open x))))) by lia.
  rewrite (OneShotMore.loop_open pu _ x (value x)) by assumption.
  unfold assign_all. rewrite fold_left_app. reflexivity.
Qed.

Lemma GetInfo_reads_unterminated_line_witness :
  OneShot.GetInfo OneShot.parseDecimal
    (OK (concat (map render ex_twice) ++ B "SwapFree:  11 kB")) 1000
  = Some (OK (mkInfo 1000 9 7 0 0 0 0 0 0 0 11)).
Proof.
  change (B "SwapFree:  11 kB") with (render_open ex_open).
  rewrite (GetInfo_reads_unterminated_line unit OneShot.parseDecimal number
             ex_twice ex_open 1000).
  - reflexivity.
  - repeat constructor; cbn; intuition discriminate.
  - repeat constructor.
  - repeat constructor; cbn; intuition discriminate.
  - discriminate.
  - cbn. intuition discriminate.
  - reflexivity.
Defined.

(** X3.  The label of a line is all that lies between the end of the
    line before and the colon.  A line without a colon is therefore taken
    into the label of the line after it, which then stores nothing:
    [GetInfo] reads the file as if both lines were missing. *)
Theorem GetInfo_line_without_colon :
  forall (error : Type) (ParseUint : list byte -> result Z error)
         (g : list byte) (x : Line) (post : list byte) (v now : Z),
    ~ In colon g -> In nl g -> shaped x -> ParseUint (digits x) = OK v ->
    OneShot.GetInfo ParseUint (OK (g ++ render x ++ post)) now
    = OneShot.GetInfo ParseUint (OK post) now.
Proof.
  intros error pu g x post v now Hg Hnl Hx Hv. unfold OneShot.GetInfo.
  set (y := mkLine (g ++ label x) (spaces x) (digits x) (trailer x)).
  assert (Hy : shaped y).
  { destruct Hx as (H1 & H2 & H3 & H4). repeat split; try assumption.
    cbn [label y]. rewrite in_app_iff. tauto. }
  assert (Hk : ~ In (label y) known_labels).
  { intros Hin.
    assert (Hn : In nl (label y)) by (cbn; rewrite in_app_iff; tauto).
    revert Hn. generalize dependent (label y). intros L HL.
    unfold known_labels in HL. cbn [In] in HL.
    decompose [or] HL; try contradiction; subst L; cbn;
      intuition discriminate. }
  replace (g ++ render x ++ post) with (render y ++ post)
    by (unfold render, y; cbn [label spaces digits trailer];
        rewrite <- !app_assoc; reflexivity).
  rewrite OneShotFacts.loop_line by assumption.
  cbn [digits y]. rewrite Hv, OneShotFacts.assign_unknown by assumption.
  rewrite length_app. pose proof (OneShotFacts.render_length y).
  apply OneShotFacts.loop_fuel; unfold len; lia.
Qed.

Lemma GetInfo_line_without_colon_witness :
  OneShot.GetInfo OneShot.parseDecimal
    (OK ((B "MemTotal 5 kB" ++ [nl]) ++ render ex_open ++ ex_after)) 1000
  = OneShot.GetInfo OneShot.parseDecimal (OK ex_after) 1000.
Proof.
  apply (GetInfo_line_without_colon unit OneShot.parseDecimal
           (B "MemTotal 5 kB" ++ [nl]) ex_open ex_after 11 1000).
  - cbn. intuition discriminate.
  - cbn. tauto.
  - repeat constructor; cbn; intuition discriminate.
  - reflexivity.
Defined.

(** X4.  No line changes the timestamp: the record [GetInfo] returns
    carries the clock reading taken before the scan, and its fields are
    within the range of [int]. *)
Theorem GetInfo_timestamp :
  forall (error : Type) (ParseUint : list byte -> result Z error)
         (file : result (list byte) error) (now : Z) (r : Info),
    OneShot.GetInfo ParseUint file now = Some (OK r) ->
    Timestamp r = now /\ (in_int64 now -> Info_wf r).
Proof.
  intros error pu file now r. unfold OneShot.GetInfo.
  destruct file as [buf|e]; [|discriminate]. intros Hr. split.
  - apply (OneShotMore.loop_keeps pu (fun f => Timestamp f = now)) in Hr;
      [assumption| |lia|reflexivity].
    intros name v f <-. apply OneShotMore.assign_Timestamp.
  - intros Hn. apply (OneShotMore.GetInfo_wf pu (OK buf) now r Hn).
    exact Hr.
Qed.

Lemma GetInfo_timestamp_witness :
  OneShot.GetInfo OneShot.parseDecimal (OK example_buffer) 1000
  = Some (OK example_record)
  /\ Timestamp example_record = 1000
  /\ Info_wf example_record.
Proof.
  assert (E : OneShot.GetInfo OneShot.parseDecimal (OK example_buffer) 1000
              = Some (OK example_record)) by (vm_compute; reflexivity).
  assert (H : in_int64 1000) by (unfold in_int64; lia).
  destruct (GetInfo_timestamp unit OneShot.parseDecimal (OK example_buffer)
              1000 example_record E) as [H1 H2].
  split; [exact E|]. split; [exact H1|exact (H2 H)].
Defined.

(** X5.  When [ParseUint] refuses the empty run of digits, [GetInfo]
    returns, with a record or an error, whatever the file holds. *)
Theorem GetInfo_returns :
  forall (error : Type) (ParseUint : list byte -> result Z error)
         (file : result (list byte) error) (now : Z),
    (forall tok v, ParseUint tok = OK v -> tok <> []) ->
    exists r, OneShot.GetInfo ParseUint file now = Some r.
Proof.
  intros error pu file now Hne. unfold OneShot.GetInfo.
  destruct file as [buf|e]; [|eauto].
  apply OneShotFacts.loop_returns; [assumption|lia|unfold len; lia].
Qed.

Lemma GetInfo_returns_witness :
  exists r, OneShot.GetInfo OneShot.parseDecimal (OK (B "MemTotal:")) 1000
            = Some r.
Proof.
  apply (GetInfo_returns unit OneShot.parseDecimal (OK (B "MemTotal:")) 1000).
  intros tok v. destruct tok; [discriminate|]. intros _. discriminate.
Defined.

(** X6.  When [ParseUint] takes the empty run of digits for a number,
    [GetInfo] does not return on a file whose only colon is its last
    byte: every pass starts again at that colon. *)
Theorem GetInfo_never_returns :
  forall (error : Type) (ParseUint : list byte -> result Z error)
         (pre : list byte) (v now : Z),
    ParseUint [] = OK v -> ~ In colon pre ->
    (forall fuel f, OneShot.loop ParseUint fuel (pre ++ [colon]) 0 f = None)
    /\ OneShot.GetInfo ParseUint (OK (pre ++ [colon])) now = None.
Proof.
  intros error pu pre v now Hv Hc.
  assert (Hstuck : forall fuel f,
             OneShot.loop pu fuel (pre ++ [colon]) (len pre) f = None).
  { intros fuel f. apply OneShotFacts.loop_stuck.
    replace (len pre) with (len pre + 0) at 1 by lia.
    rewrite OneShotFacts.body_shift by lia.
    change (OneShot.body pu [colon] 0 f)
      with (OneShot.body pu ([] ++ [colon]) 0 f).
    rewrite (OneShotMore.body_last_colon pu [] v f Hv) by (cbn; tauto).
    cbn [OneShot.shift len length Z.of_nat].
    rewrite OneShotFacts.assign_nil. f_equal. lia. }
  assert (Hall : forall fuel f,
             OneShot.loop pu fuel (pre ++ [colon]) 0 f = None).
  { intros [|fuel] f; [reflexivity|]. cbn [OneShot.loop].
    rewrite (OneShotMore.body_last_colon pu pre v f Hv Hc). apply Hstuck. }
  split; [exact Hall|]. apply Hall.
Qed.

Lemma GetInfo_never_returns_witness :
  OneShot.GetInfo OneShot.parseLenient (OK (B "MemTotal:")) 1000 = None.
Proof.
  apply (GetInfo_never_returns unit OneShot.parseLenient (B "MemTotal") 0 1000).
  - reflexivity.
  - cbn. intuition discriminate.
Defined.

(** X7.  The value is converted with [int(v)]: a number of [2^63] or
    more that [ParseUint] returns is stored as the negative number
    [v - 2^64]. *)
Theorem GetInfo_wraps_large_value :
  forall (error : Type) (ParseUint : list byte -> result Z error)
         (x : Line) (fld : Info -> Z) (v now : Z),
    shaped x -> In (label x, fld) label_fields ->
    ParseUint (digits x) = OK v -> 2 ^ 63 <= v < 2 ^ 64 ->
    exists r, OneShot.GetInfo ParseUint (OK (render x)) now = Some (OK r)
              /\ fld r = v - 2 ^ 64.
Proof.
  intros error pu x fld v now Hx HL Hv Hr.
  eexists. split; [apply OneShotFacts.GetInfo_line; eassumption|].
  rewrite (OneShotMore.assign_same _ fld) by assumption.
  unfold to_int, to_int64.
  replace (v + 2 ^ 63) with ((v - 2 ^ 63) + 1 * 2 ^ 64) by lia.
  rewrite Z.mod_add by lia. rewrite Z.mod_small by lia. lia.
Qed.

Lemma GetInfo_wraps_large_value_witness :
  exists r, OneShot.GetInfo OneShot.parseDecimal (OK (render ex_large)) 1000
            = Some (OK r)
            /\ Active r = -1.
Proof.
  apply (GetInfo_wraps_large_value unit OneShot.parseDecimal ex_large Active
           18446744073709551615 1000).
  - repeat constructor; cbn; intuition discriminate.
  - cbn. tauto.
  - reflexivity.
  - lia.
Defined.

(** X8.  The bytes [GetData] returns decode to the record [GetInfo]
    returns for the same file and clock reading; [GetData] fails, or
    does not return, exactly when [GetInfo] does. *)
Theorem GetData_decodes :
  forall (error : Type) (ParseUint : list byte -> result Z error)
         (file : result (list byte) error) (now : Z),
    in_int64 now ->
    match GetData ParseUint file now with
    | Some (OK p) =>
        exists inf, OneShot.GetInfo ParseUint file now = Some (OK inf)
                    /\ Deserialize p = Some inf
    | Some (Err e) => OneShot.GetInfo ParseUint file now = Some (Err e)
    | None => OneShot.GetInfo ParseUint file now = None
    end.
Proof.
  intros error pu file now Hn. unfold GetData.
  destruct (OneShot.GetInfo pu file now) as [[inf|e]|] eqn:E; try reflexivity.
  exists inf. split; [reflexivity|].
  apply CodecMore.Deserialize_Serialize.
  exact (OneShotMore.GetInfo_wf pu file now inf Hn E).
Qed.

Lemma GetData_decodes_witness :
  exists p, GetData OneShot.parseDecimal (OK example_buffer) 1000 = Some (OK p)
            /\ Deserialize p = Some example_record.
Proof.
  pose proof (GetData_decodes unit OneShot.parseDecimal (OK example_buffer)
                1000) as H.
  destruct (GetData OneShot.parseDecimal (OK example_buffer) 1000)
    as [[p|e]|] eqn:E.
  - exists p. split; [reflexivity|].
    destruct H as (inf & Hi & Hp); [unfold in_int64; lia|].
    rewrite Hp. f_equal.
    assert (Hx : OneShot.GetInfo OneShot.parseDecimal (OK example_buffer) 1000
                 = Some (OK example_record)) by (vm_compute; reflexivity).
    rewrite Hx in Hi. injection Hi as <-. reflexivity.
  - exfalso. assert (Hx : in_int64 1000) by (unfold in_int64; lia).
    specialize (H Hx). vm_compute in H. discriminate H.
  - exfalso. assert (Hx : in_int64 1000) by (unfold in_int64; lia).
    specialize (H Hx). vm_compute in H. discriminate H.
Defined.

(** ** DataTicker *)


Lemma ex_sample_ok : sample_ok ex_sample.
Proof.
  unfold sample_ok, ex_sample. cbn [top mid low beyond].
  repeat match goal with |- _ /\ _ => split end;
    try (repeat (apply Forall_cons;
                 [apply TickerMore.plain_intro; reflexivity|]);
         apply Forall_nil);
    try (apply TickerFacts.ex_slab_lines);
    try (cbn; lia).
Qed.




(** X11.  On a sample of such lines in which no label of the record
    occurs twice and the label [Cached] does not occur, the ticker and
    [GetInfo] agree: the record the receiver of a first tick decodes is
    the record [GetInfo] returns for the same bytes and clock reading,
    when the lines 9 to 14 and those after line 16 carry other labels. *)
Theorem ticker_agrees_with_GetInfo :
  forall (error : Type) (ParseUint : list byte -> result Z error)
         (A Q C R : list Line) (now : Z),
    decimal_reader ParseUint -> in_int64 now ->
    sample_ok (mkSample A (map render Q) C (concat (map render R))) ->
    Forall shaped (Q ++ R) ->
    Forall (fun x => digits x <> [] /\ number x < 2 ^ 64) (Q ++ R) ->
    Forall (fun x => ~ In (label x) known_labels) (Q ++ R) ->
    NoDup (map label (A ++ C)) -> ~ In cached (map label (A ++ C)) ->
    exists r,
      OneShot.GetInfo ParseUint
        (OK (sample_bytes (mkSample A (map render Q) C (concat (map render R)))))
        now = Some (OK r)
      /\ emitted now
           (sample_bytes (mkSample A (map render Q) C (concat (map render R))))
         = Some r.
Proof.
  intros error pu A Q C R now Hpu Hn Hs HsQR HdQR HuQR Hnd Hc.
  exists (assign_all number (A ++ C) (Info_at now)).
  pose proof Hs as (HA & _ & HC & _). cbn [top low] in HA, HC.
  apply Forall_app in HsQR, HdQR, HuQR.
  destruct HsQR as [HsQ HsR], HdQR as [HdQ HdR], HuQR as [HuQ HuR].
  assert (Hp : forall xs, Forall plain xs -> Forall shaped xs).
  { intros xs H. eapply Forall_impl; [|exact H]. intros x Hx. apply Hx. }
  assert (Hv1 : forall xs, Forall plain xs ->
                           Forall (fun x => pu (digits x) = OK (number x)) xs).
  { intros xs H. eapply Forall_impl; [|exact H].
    intros x (Hx & _ & Hd & Hr & _). apply Hpu; [assumption| |lia].
    apply TickerMore.number_decimal. assumption. }
  assert (Hv2 : forall xs, Forall shaped xs ->
                           Forall (fun x => digits x <> [] /\ number x < 2 ^ 64) xs ->
                           Forall (fun x => pu (digits x) = OK (number x)) xs).
  { intros xs H1 H2. rewrite Forall_forall in *. intros x Hx.
    destruct (H2 x Hx) as [Hd Hr]. apply Hpu; [assumption| |assumption].
    apply TickerMore.number_decimal. auto. }
  split.
  - unfold sample_bytes. cbn [top mid low beyond].
    replace (concat (map render A) ++ concat (map render Q)
               ++ concat (map render C) ++ concat (map render R))
      with (concat (map render (A ++ Q ++ C ++ R)))
      by (rewrite !map_app, !concat_app; reflexivity).
    rewrite (OneShotMore.GetInfo_render pu number).
    + rewrite !OneShotMore.assign_all_app.
      rewrite (OneShotMore.assign_all_unknown number R) by assumption.
      rewrite (OneShotMore.assign_all_unknown number Q) by assumption.
      reflexivity.
    + repeat (apply Forall_app; split); auto.
    + repeat (apply Forall_app; split); auto.
  - destruct (TickerMore.tick_sample _ Ticker.initial now
                TickerMore.ready_initial Hs Hn) as (data & st' & Ht & Hd & _).
    rewrite (TickerMore.emitted_tick _ _ _ _ Ht), Hd.
    unfold sample_record. cbn [top low].
    rewrite TickerMore.ticker_all_assign_all; try assumption; [reflexivity|].
    intros x fld _ Hf. unfold label_fields in Hf. cbn [In] in Hf.
    decompose [or] Hf; try contradiction;
      match goal with E : (_, _) = (_, _) |- _ => injection E as _ <- end;
      reflexivity.
Qed.

Lemma ex_agree_ok :
  sample_ok (mkSample ex_top (map render ex_mid) ex_low
               (concat (map render ex_beyond))).
Proof.
  unfold sample_ok. cbn [top mid low beyond].
  repeat match goal with |- _ /\ _ => split end;
    try (repeat (apply Forall_cons;
                 [apply TickerMore.plain_intro; reflexivity|]);
         apply Forall_nil);
    try (cbn; lia).
  repeat (apply Forall_cons;
          [apply TickerMore.plain_is_line, TickerMore.plain_intro;
           reflexivity|]).
  apply Forall_nil.
Qed.

Lemma ticker_agrees_with_GetInfo_witness :
  exists r,
    OneShot.GetInfo OneShot.parseDecimal
      (OK (sample_bytes (mkSample ex_top (map render ex_mid) ex_low
                           (concat (map render ex_beyond))))) 1000
    = Some (OK r)
    /\ emitted 1000
         (sample_bytes (mkSample ex_top (map render ex_mid) ex_low
                          (concat (map render ex_beyond))))
       = Some r.
Proof.
  apply (ticker_agrees_with_GetInfo unit OneShot.parseDecimal
           ex_top ex_mid ex_low ex_beyond 1000).
  - exact OneShotFacts.parseDecimal_reader.
  - unfold in_int64. lia.
  - exact ex_agree_ok.
  - unfold ex_mid, ex_beyond. cbn [repeat app].
    repeat constructor; cbn; intuition discriminate.
  - unfold ex_mid, ex_beyond. cbn [repeat app].
    repeat (apply Forall_cons; [split; [discriminate|reflexivity]|]).
    apply Forall_nil.
  - unfold ex_mid, ex_beyond. cbn [repeat app].
    repeat (apply Forall_cons; [cbn; intuition discriminate|]).
    apply Forall_nil.
  - cbn. repeat constructor; cbn; intuition discriminate.
  - cbn. intuition discriminate.
Defined.

(** X12.  On a sample with the layout of /proc/meminfo (the labels of
    the record on the lines 1 to 8, 15 and 16, in the order of the
    record) the record the receiver of a first tick decodes has the
    value of every line in the field of its label, with two exceptions:
    [Cached] is 0, and [MemAvailable] holds the value of the line
    [Cached], unless that value is 0. *)
Theorem ticker_on_meminfo_layout :
  forall (s : Sample) (now : Z),
    sample_ok s -> in_int64 now ->
    map label (top s ++ low s) = known_labels ->
    emitted now (sample_bytes s)
    = Some (mkInfo now (value_at s 0) (value_at s 1)
              (if value_at s 4 =? 0 then value_at s 2 else value_at s 4)
              (value_at s 3) 0 (value_at s 5) (value_at s 6) (value_at s 7)
              (value_at s 8) (value_at s 9)).
Proof.
  intros s now Hs Hn HL.
  destruct (TickerMore.tick_sample s Ticker.initial now
              TickerMore.ready_initial Hs Hn) as (data & st' & Ht & Hd & _).
  rewrite (TickerMore.emitted_tick _ _ _ _ Ht), Hd. f_equal.
  unfold sample_record, value_at.
  destruct Hs as (HA & _ & HC & _).
  assert (Hp : Forall plain (top s ++ low s))
    by (apply Forall_app; split; assumption).
  clear HA HC.
  destruct (top s ++ low s)
    as [|x1 [|x2 [|x3 [|x4 [|x5 [|x6 [|x7 [|x8 [|x9 [|x10 [|? ?]]]]]]]]]]];
    try discriminate HL.
  cbn [map nth]. apply TickerMore.record_of_layout; assumption.
Qed.

Lemma ticker_on_meminfo_layout_witness :
  emitted 1000 (sample_bytes ex_sample)
  = Some (mkInfo 1000 16384000 512000 2048000 100000 0 0 3000000 2000000
            4194300 4194300).
Proof.
  rewrite (ticker_on_meminfo_layout ex_sample 1000).
  - reflexivity.
  - exact ex_sample_ok.
  - unfold in_int64. lia.
  - reflexivity.
Defined.

(** X13.  A tick that opens the file sends at most ten errors and then
    either one record or, when the line loop panics, nothing more;
    after a record the line count is 0 again.  The bound holds
    whatever the sample is: ten lines are looked at, and a failed read
    ends the loop. *)
Theorem tick_sends_one_record :
  forall (now : Z) (content : list byte) (st : Ticker.State),
    Ticker.l st = 0 ->
    exists errs fin r,
      Ticker.tick now (OK content) st
      = Some (map Ticker.SendErr errs ++ [fin], r)
      /\ (length errs <= 10)%nat
      /\ match r with
         | Some st' => (exists data, fin = Ticker.SendOut data)
                       /\ Ticker.l st' = 0
         | None => fin = Ticker.Panic
         end.
Proof.
  intros now content st Hl. unfold Ticker.tick.
  set (st0 := Ticker.mkState _ _ _ _).
  destruct (TickerFacts.scanAll_total content st0) as (errs & r & Es).
  rewrite Es.
  assert (He : (length errs <= 10)%nat).
  { unfold Ticker.scanAll in Es. apply TickerMore.scan_errs in Es.
    - unfold st0 in Es. cbn [Ticker.l] in Es. rewrite Hl in Es.
      cbn in Es. unfold len in Es. lia.
    - unfold st0. cbn [Ticker.l]. lia. }
  destruct r as [st1|]; do 3 eexists; (split; [reflexivity|]);
    (split; [exact He|]).
  - split; [eexists; reflexivity|reflexivity].
  - reflexivity.
Qed.

Lemma tick_sends_one_record_witness :
  exists errs fin r,
    Ticker.tick 1000 (OK (bad_line ++ good_line)) Ticker.initial
    = Some (map Ticker.SendErr errs ++ [fin], r)
    /\ (length errs <= 10)%nat
    /\ match r with
       | Some st' => (exists data, fin = Ticker.SendOut data)
                     /\ Ticker.l st' = 0
       | None => fin = Ticker.Panic
       end.
Proof.
  apply (tick_sends_one_record 1000 (bad_line ++ good_line) Ticker.initial).
  reflexivity.
Defined.

(** X14.  Whatever the files hold and whatever the channels take,
    every record [DataTicker] sends decodes when its send completes: the
    bytes then give a record whose fields are within the range of [int],
    whose timestamp is the clock reading of one of the ticks, and whose
    [Cached] is 0.  The slice sent is not a copy: it shares its storage
    with the builder, which the next tick writes again, so this holds
    for a receiver that decodes or copies the record before the
    function begins its next tick, and says nothing of the slice
    afterwards. *)
Theorem sent_records_decode :
  forall (evs : list Ticker.event) (st : Ticker.State)
         (out err : Ticker.credit)
         (acts : list Ticker.action) (p : Ticker.place) (data : list byte),
    idle st -> Forall in_int64 (clock_readings evs) ->
    Ticker.run evs st out err = Some (acts, p) ->
    In (Ticker.SendOut data) acts ->
    exists r, Deserialize data = Some r /\ Info_wf r
              /\ In (Timestamp r) (clock_readings evs) /\ Cached r = 0.
Proof.
  induction evs as [|[|now file] evs IH]; intros st out err acts p data Hi Hn;
    cbn [Ticker.run].
  - intros [= <- _] [].
  - intros [= <- _] H. cbn in H. intuition discriminate.
  - cbn [clock_readings flat_map app] in Hn |- *.
    inversion Hn as [|? ? Hn1 Hn2]; subst.
    assert (Hin : forall errs a,
               In (Ticker.SendOut data) (map Ticker.SendErr errs ++ [a]) ->
               a = Ticker.SendOut data).
    { intros errs a H. apply in_app_iff in H. destruct H as [H|[H|[]]];
        [|assumption].
      apply in_map_iff in H. destruct H as (e & E & _). discriminate E. }
    assert (Hd : forall a, In (Ticker.SendOut data) Ticker.deferred -> a)
      by (intros a H; cbn in H; exfalso; intuition discriminate).
    assert (Hstep :
              forall tacts st1,
                Ticker.tick now file st = Some (tacts, st1) ->
                (In (Ticker.SendOut data) tacts ->
                 exists r, Deserialize data = Some r /\ Info_wf r
                           /\ Timestamp r = now /\ Cached r = 0)
                /\ match st1 with Some s => idle s | None => True end).
    { intros tacts st1. destruct file as [c|e].
      - destruct (TickerMore.tick_cases now c st Hi Hn1)
          as (errs & _ & [Ht|(d1 & s1 & r & Ht & Hdc & Hts & Hc & Hw & Hi1)]);
          rewrite Ht; intros [= <- <-].
        + split; [|exact I]. intros H. apply Hin in H. discriminate H.
        + split; [|exact Hi1]. intros H. apply Hin in H.
          injection H as ->. exists r. auto.
      - cbn [Ticker.tick]. intros [= <- <-]. split; [|exact Hi].
        intros [H|[]]. discriminate H. }
    destruct (Ticker.tick now file st) as [[tacts st1]|]; [|discriminate].
    destruct (Hstep tacts st1 eq_refl) as [Hhere Hi1].
    destruct (Ticker.deliver tacts out err) as [[sent [out' err']] w] eqn:Ed.
    destruct (TickerFacts.deliver_sent _ _ _ _ _ _ Ed) as (rest & -> & _).
    assert (Hsent : In (Ticker.SendOut data) sent ->
                    exists r, Deserialize data = Some r /\ Info_wf r
                              /\ In (Timestamp r) (now :: clock_readings evs)
                              /\ Cached r = 0).
    { intros H. destruct Hhere as (r & H1 & H2 & H3 & H4);
        [apply in_or_app; left; exact H|].
      exists r. split; [exact H1|]. split; [exact H2|].
      split; [left; symmetry; exact H3|exact H4]. }
    destruct w as [w|].
    + intros [= <- _]. exact Hsent.
    + destruct st1 as [st1|].
      * destruct (Ticker.run evs st1 out' err') as [[acts' p']|] eqn:Er;
          [|discriminate].
        intros [= <- _] H. apply in_app_iff in H. destruct H as [H|H];
          [exact (Hsent H)|].
        destruct (IH st1 out' err' acts' p' data Hi1 Hn2 Er H)
          as (r' & H1 & H2 & H3 & H4).
        exists r'. cbn. tauto.
      * intros [= <- _] H. apply in_app_iff in H. destruct H as [H|H];
          [exact (Hsent H)|]. apply Hd. exact H.
Qed.

Lemma sent_records_decode_witness :
  exists data r,
    Ticker.DataTicker 1 ex_events Ticker.Unbounded Ticker.Unbounded
    = Some ([Ticker.SendErr
               (Ticker.mkError "mem" "convert to int"
                  (Ticker.ConvFailed Ticker.ErrSyntax));
             Ticker.SendOut (Serialize (Info_at 1000));
             Ticker.SendErr
               (Ticker.mkError "mem" "open /proc/meminfo" Ticker.OpenFailed);
             Ticker.SendOut data; Ticker.CloseOut; Ticker.StopTicker],
            Ticker.Returned)
    /\ Deserialize data = Some r /\ Info_wf r
    /\ In (Timestamp r) [1000; 2000; 3000] /\ Cached r = 0.
Proof.
  eexists.
  assert (E : Ticker.run ex_events Ticker.initial
                Ticker.Unbounded Ticker.Unbounded
              = Some ([Ticker.SendErr
                         (Ticker.mkError "mem" "convert to int"
                            (Ticker.ConvFailed Ticker.ErrSyntax));
                       Ticker.SendOut (Serialize (Info_at 1000));
                       Ticker.SendErr
                         (Ticker.mkError "mem" "open /proc/meminfo"
                            Ticker.OpenFailed);
                       Ticker.SendOut _; Ticker.CloseOut; Ticker.StopTicker],
                      Ticker.Returned)) by (vm_compute; reflexivity).
  assert (Hc : Forall in_int64 (clock_readings ex_events)).
  { unfold clock_readings, ex_events. cbn [flat_map app].
    repeat (apply Forall_cons; [unfold in_int64; lia|]). apply Forall_nil. }
  destruct (sent_records_decode ex_events Ticker.initial
              Ticker.Unbounded Ticker.Unbounded _ _ _
              (TickerMore.ready_idle _ TickerMore.ready_initial) Hc E
              (or_intror (or_intror (or_intror (or_introl eq_refl)))))
    as (r & H1 & H2 & H3 & H4).
  exists r. split; [exact E|].
  split; [exact H1|]. split; [exact H2|]. split; [exact H3|exact H4].
Defined.

(** X15.  The position after the colon is kept from line to line.
    Take two lines that the line loop parses one after the other: the
    first, with a label, is line 1 to 8, 15 or 16 of the sample, the
    second is the next line of the sample or, after line 8, line 15
    (the lines 9 to 14 between them are counted only).  If the second
    has no colon and is not longer than the label of the first, the
    slice expression [line[pos:]] panics, unless a line before has done
    so already: the tick sends the errors of the lines before and no
    record, and [DataTicker] is left through its deferred calls, which
    close the output channel and stop the ticker.  An empty line after
    a line with a label is such a line.  The same two lines as lines 8
    and 9 do no harm: line 9 is not parsed. *)
Theorem ticker_panics_on_short_line :
  forall (now : Z) (st : Ticker.State) (P M : list (list byte))
         (lbl rest short R : list byte)
         (evs : list Ticker.event) (out : Ticker.credit),
    Ticker.l st = 0 -> Forall is_line P -> Forall is_line M ->
    skipped (len P + 1) = false ->
    (forall i, len P + 1 < i <= len P + 1 + len M -> skipped i = true) ->
    skipped (len P + 1 + len M + 1) = false ->
    len P + 1 + len M + 1 <= 16 ->
    ~ In colon lbl -> is_line (lbl ++ colon :: rest) ->
    is_line short -> ~ In colon short -> len short <= len lbl ->
    exists errs,
      Ticker.tick now
        (OK (concat P ++ (lbl ++ colon :: rest) ++ concat M ++ short ++ R)) st
      = Some (map Ticker.SendErr errs ++ [Ticker.Panic], None)
      /\ Ticker.run
           (Ticker.Tick now
              (OK (concat P ++ (lbl ++ colon :: rest) ++ concat M
                     ++ short ++ R)) :: evs)
           st out Ticker.Unbounded
         = Some (map Ticker.SendErr errs
                   ++ [Ticker.Panic; Ticker.CloseOut; Ticker.StopTicker],
                 Ticker.Panicked).
Proof.
  intros now st P M lbl rest short R evs out Hl HP HM Hs1 HsM Hs2 H16
    Hc H1 H2 Hs Hlen.
  pose proof (len_nonneg P) as HP0. pose proof (len_nonneg M) as HM0.
  assert (Hscan : forall st0, Ticker.l st0 = 0 ->
            exists errs,
              Ticker.scanAll
                (concat P ++ (lbl ++ colon :: rest) ++ concat M ++ short ++ R)
                st0
              = Some (errs, None)).
  { intros st0 Hl0.
    destruct (TickerMore.scanAll_lines P HP st0)
      as [(errs & Hp)|(errs & st1 & Hl1 & Hp)]; [lia| |].
    { exists errs. apply Hp. }
    rewrite Hp, Hl0, Z.add_0_l in *.
    rewrite (TickerFacts.scanAll_line _ (concat M ++ short ++ R) st1)
      by (assumption || lia).
    rewrite Hl1, Hs1.
    destruct (TickerMore.parseLine_labelled lbl rest (counted st1) Hc)
      as (errs1 & st2 & Ep & Hpos & Hl2).
    rewrite Ep. cbn [counted Ticker.l] in Hl2.
    rewrite (TickerMore.scanAll_between M (short ++ R) st2)
      by (try assumption; intros i Hi; apply HsM; lia).
    set (st3 := Ticker.mkState _ _ _ _).
    assert (Hl3 : Ticker.l st3 = len P + 1 + len M)
      by (cbn [st3 Ticker.l]; lia).
    rewrite (TickerFacts.scanAll_line short R st3) by (assumption || lia).
    rewrite Hl3, Hs2.
    rewrite TickerMore.parseLine_panics
      by (try assumption; cbn [counted st3 Ticker.pos]; lia).
    cbn [with_errors]. exists (errs ++ errs1 ++ []). reflexivity. }
  assert (Ht : exists errs,
             Ticker.tick now
               (OK (concat P ++ (lbl ++ colon :: rest) ++ concat M
                      ++ short ++ R)) st
             = Some (map Ticker.SendErr errs ++ [Ticker.Panic], None)).
  { unfold Ticker.tick.
    match goal with
    | |- context [Ticker.scanAll ?c ?s] =>
        destruct (Hscan s Hl) as (errs & ->)
    end.
    exists errs. reflexivity. }
  destruct Ht as (errs & Ht). exists errs. split; [exact Ht|].
  cbn [Ticker.run]. rewrite Ht.
  rewrite TickerFacts.deliver_errs by reflexivity.
  rewrite <- app_assoc. reflexivity.
Qed.

Lemma ticker_panics_on_short_line_witness :
  (exists errs,
      Ticker.DataTicker 1
        [Ticker.Tick 1000 (OK ((memTotal ++ colon :: B " 5 kB" ++ [nl])
                                 ++ [nl] ++ good_line));
         Ticker.Tick 2000 (OK good_line)]
        (Ticker.Sends 0) Ticker.Unbounded
      = Some (map Ticker.SendErr errs
                ++ [Ticker.Panic; Ticker.CloseOut; Ticker.StopTicker],
              Ticker.Panicked))
  /\ (exists errs,
         Ticker.tick 1000
           (OK (concat (repeat ex_slab 7)
                  ++ (memTotal ++ colon :: B " 5 kB" ++ [nl])
                  ++ concat (repeat ex_slab 6) ++ [nl] ++ good_line))
           Ticker.initial
         = Some (map Ticker.SendErr errs ++ [Ticker.Panic], None)).
Proof.
  assert (Hc : ~ In colon memTotal) by (cbn; intuition discriminate).
  assert (H1 : is_line (memTotal ++ colon :: B " 5 kB" ++ [nl]))
    by (apply (TickerFacts.is_line_intro (B "MemTotal: 5 kB")); reflexivity).
  assert (H2 : is_line [nl])
    by (apply (TickerFacts.is_line_intro []); reflexivity).
  assert (H3 : ~ In colon [nl]) by (cbn; intuition discriminate).
  assert (H4 : len [nl] <= len memTotal) by (cbn; lia).
  split.
  - assert (Hm : forall i : Z,
               len (@nil (list byte)) + 1 < i
               <= len (@nil (list byte)) + 1 + len (@nil (list byte)) ->
               skipped i = true)
      by (intros i Hi; cbn in Hi; lia).
    assert (H16 : len (@nil (list byte)) + 1 + len (@nil (list byte)) + 1 <= 16)
      by (cbn; lia).
    destruct (ticker_panics_on_short_line 1000 Ticker.initial [] []
                memTotal (B " 5 kB" ++ [nl]) [nl] good_line
                [Ticker.Tick 2000 (OK good_line)] (Ticker.Sends 0)
                eq_refl (Forall_nil _) (Forall_nil _) eq_refl Hm eq_refl H16
                Hc H1 H2 H3 H4)
      as (errs & _ & Hrun).
    exists errs. exact Hrun.
  - assert (Hm : forall i : Z,
               len (repeat ex_slab 7) + 1 < i
               <= len (repeat ex_slab 7) + 1 + len (repeat ex_slab 6) ->
               skipped i = true)
      by (intros i Hi; cbn in Hi; unfold skipped; apply andb_true_iff; lia).
    assert (H16 : len (repeat ex_slab 7) + 1 + len (repeat ex_slab 6) + 1 <= 16)
      by (cbn; lia).
    destruct (ticker_panics_on_short_line 1000 Ticker.initial
                (repeat ex_slab 7) (repeat ex_slab 6)
                memTotal (B " 5 kB" ++ [nl]) [nl] good_line
                [] Ticker.Unbounded
                eq_refl (TickerFacts.ex_slab_lines 7)
                (TickerFacts.ex_slab_lines 6) eq_refl Hm eq_refl H16
                Hc H1 H2 H3 H4)
      as (errs & Ht & _).
    exists errs. exact Ht.
Defined.

(** X16.  The ticker does not look at a last line that lacks its line
    terminator: the tick does what it does for the sample without that
    line.  ([GetInfo] reads such a line.) *)
Theorem ticker_drops_unterminated_line :
  forall (now : Z) (st : Ticker.State) (P : list (list byte))
         (tail : list byte),
    Forall is_line P -> ~ In nl tail -> len tail < Ticker.readerSize ->
    Ticker.tick now (OK (concat P ++ tail)) st
    = Ticker.tick now (OK (concat P)) st.
Proof.
  intros now st P tail HP Hn Hl. apply TickerFacts.tick_congr.
  intros s _. apply TickerMore.scanAll_tail; assumption.
Qed.

Lemma ticker_drops_unterminated_line_witness :
  Ticker.tick 1000 (OK (concat [good_line] ++ B "SwapFree:  11 kB"))
    Ticker.initial
  = Ticker.tick 1000 (OK (concat [good_line])) Ticker.initial.
Proof.
  apply (ticker_drops_unterminated_line 1000 Ticker.initial [good_line]
           (B "SwapFree:  11 kB")).
  - repeat constructor.
    apply (TickerFacts.is_line_intro (B "MemFree: 512000 kB")); reflexivity.
  - cbn. intuition discriminate.
  - reflexivity.
Defined.

(** X17.  When, before line 16 is reached, the sample goes on for 1536
    bytes without a line terminator, the reader's buffer is full: the
    line loop ends there with the error [read command results], sent
    after the errors of the lines before, and the builder holds what the
    lines before have stored. *)
Theorem overlong_line_ends_scan :
  forall (P : list (list byte)) (tail : list byte) (st : Ticker.State),
    Forall is_line P ->
    ~ In nl (slice tail 0 Ticker.readerSize) ->
    Ticker.readerSize <= len tail ->
    Ticker.l st + len P < 16 ->
    Ticker.scanAll (concat P ++ tail) st
    = match Ticker.scanAll (concat P) st with
      | Some (errs, Some st') => Some (errs ++ [buffer_full], Some st')
      | r => r
      end.
Proof.
  intros P tail st HP Hn Hl Hc. apply TickerMore.scanAll_overlong; assumption.
Qed.

Lemma overlong_line_ends_scan_witness :
  Ticker.scanAll (concat [bad_line] ++ repeat x41 2000) started
  = Some ([Ticker.mkError "mem" "convert to int"
             (Ticker.ConvFailed Ticker.ErrSyntax); buffer_full],
          Some (Ticker.mkState 1 10 (B "x") (Data.DataStart FB.NewBuilder))).
Proof.
  rewrite (overlong_line_ends_scan [bad_line] (repeat x41 2000) started).
  - vm_compute. reflexivity.
  - repeat constructor.
    apply (TickerFacts.is_line_intro (B "MemTotal: x kB")); reflexivity.
  - intros H. apply (in_map byte_val) in H. vm_compute in H.
    repeat (destruct H as [H|H]; [discriminate H|]). exact H.
  - vm_compute. discriminate.
  - vm_compute. reflexivity.
Defined.

(** X18.  The ticker takes for the number all that lies between the
    spaces after the colon and the next space or carriage return.  On a
    line where neither follows the number, such as [HugePages_Total: 0],
    the line terminator is taken into the number: the conversion fails,
    the error is sent and nothing is stored.  ([GetInfo] reads such a
    line.) *)
Theorem ticker_needs_blank_after_number :
  forall (x : Line) (st : Ticker.State),
    shaped x -> Forall (fun c => c <> space /\ c <> cr) (trailer x) ->
    exists e,
      Ticker.parseLine (render x) st
      = Some ([Ticker.mkError "mem" "convert to int" (Ticker.ConvFailed e)],
              Ticker.mkState (Ticker.l st)
                (len (label x) + 1 + Z.of_nat (spaces x))
                (digits x ++ trailer x ++ [nl]) (Ticker.bldr st)).
Proof.
  intros x st (Hc & Hd & Hn & Ht) Hb.
  assert (Hd' : Forall (fun c => c <> space /\ c <> cr) (digits x)).
  { eapply Forall_impl; [|exact Hd].
    intros a Ha. apply TickerMore.digit_not_blank in Ha. tauto. }
  assert (Htok : Forall (fun c => c <> space /\ c <> cr)
                   (digits x ++ trailer x ++ [nl])).
  { repeat (apply Forall_app; split); try assumption.
    repeat constructor; discriminate. }
  destruct (TickerMore.Atoi_newline (digits x ++ trailer x)) as (e & He).
  rewrite <- app_assoc in He.
  exists e. unfold render.
  replace (label x ++ [colon] ++ repeat space (spaces x) ++ digits x
             ++ trailer x ++ [nl])
    with (label x ++ colon :: repeat space (spaces x)
            ++ (digits x ++ trailer x ++ [nl]) ++ [])
    by (rewrite app_nil_r; reflexivity).
  rewrite TickerMore.parseLine_token, He; try assumption; try reflexivity.
  - destruct (digits x); [destruct (trailer x)|]; discriminate.
  - rewrite app_nil_r.
    destruct (digits x ++ trailer x ++ [nl]) as [|c t]; [exact I|].
    inversion Htok; tauto.
Qed.

Lemma ticker_needs_blank_after_number_witness :
  exists e,
    Ticker.parseLine (render ex_bare) (counted started)
    = Some ([Ticker.mkError "mem" "convert to int" (Ticker.ConvFailed e)],
            Ticker.mkState 1 23 (B "0" ++ [nl]) (Data.DataStart FB.NewBuilder)).
Proof.
  apply (ticker_needs_blank_after_number ex_bare (counted started)).
  - repeat constructor; cbn; intuition discriminate.
  - constructor.
Defined.

(** X19.  The ticker converts with [strconv.Atoi]: a number of [2^63]
    or more is out of the range of [int], the conversion fails with
    [ErrRange], the error is sent and nothing is stored.  ([GetInfo]
    stores such a number, as a negative one.) *)
Theorem ticker_rejects_large_value :
  forall (x : Line) (st : Ticker.State),
    shaped x -> digits x <> [] ->
    (exists t, trailer x = space :: t \/ trailer x = cr :: t) ->
    2 ^ 63 <= number x ->
    Ticker.parseLine (render x) st
    = Some ([Ticker.mkError "mem" "convert to int"
               (Ticker.ConvFailed Ticker.ErrRange)],
            Ticker.mkState (Ticker.l st)
              (len (label x) + 1 + Z.of_nat (spaces x))
              (digits x) (Ticker.bldr st)).
Proof.
  intros x st Hx Hne (t & Ht) Hv.
  pose proof (TickerMore.number_decimal x Hx) as En.
  destruct Hx as (Hc & Hd & Hn & _).
  assert (Hd' : Forall (fun c => c <> space /\ c <> cr) (digits x)).
  { eapply Forall_impl; [|exact Hd].
    intros a Ha. apply TickerMore.digit_not_blank in Ha. tauto. }
  unfold render.
  replace (label x ++ [colon] ++ repeat space (spaces x) ++ digits x
             ++ trailer x ++ [nl])
    with (label x ++ colon :: repeat space (spaces x)
            ++ digits x ++ (trailer x ++ [nl]))
    by reflexivity.
  rewrite TickerMore.parseLine_token; try assumption.
  - rewrite (TickerMore.Atoi_digits (digits x) (number x)) by assumption.
    destruct (Z.ltb_spec (number x) (2 ^ 63)); [lia|reflexivity].
  - destruct Ht as [-> | ->]; cbn; tauto.
  - destruct (digits x) as [|c d]; [contradiction|]. cbn.
    inversion Hd'; tauto.
Qed.

Lemma ticker_rejects_large_value_witness :
  Ticker.parseLine (render ex_huge) (counted started)
  = Some ([Ticker.mkError "mem" "convert to int"
             (Ticker.ConvFailed Ticker.ErrRange)],
          Ticker.mkState 1 10 (B "9223372036854775808")
            (Data.DataStart FB.NewBuilder)).
Proof.
  apply (ticker_rejects_large_value ex_huge (counted started)).
  - repeat constructor; cbn; intuition discriminate.
  - discriminate.
  - exists (B "kB"). left. reflexivity.
  - vm_compute. discriminate.
Defined.

(** ** Serialize and Deserialize *)

(** X20.  Records that differ have different serializations. *)
Theorem Serialize_injective :
  forall s1 s2 : Info,
    Info_wf s1 -> Info_wf s2 -> s1 <> s2 -> Serialize s1 <> Serialize s2.
Proof.
  intros s1 s2 H1 H2 Hne E. apply Hne.
  apply CodecMore.Deserialize_Serialize in H1, H2.
  rewrite E, H2 in H1. injection H1 as ->. reflexivity.
Qed.

Lemma Serialize_injective_witness :
  Serialize example_record <> Serialize (Info_at 1000).
Proof.
  apply (Serialize_injective example_record (Info_at 1000)).
  - exact CodecFacts.example_record_wf.
  - unfold Info_wf, in_int64. cbn. lia.
  - discriminate.
Defined.

(** X21.  [Deserialize] panics on fewer than four bytes: the offset of
    the root table cannot be read. *)
Theorem Deserialize_panics_on_short_input :
  forall p : list byte, len p < 4 -> Deserialize p = None.
Proof. exact CodecMore.Deserialize_short. Qed.

Lemma Deserialize_panics_on_short_input_witness :
  Deserialize [] = None /\ Deserialize [x0c; x00; x00] = None.
Proof.
  split.
  - apply (Deserialize_panics_on_short_input []). reflexivity.
  - apply (Deserialize_panics_on_short_input [x0c; x00; x00]). reflexivity.
Defined.

(** X22.  [Deserialize] does not panic on all bytes that are no
    serialized record: bytes that start with four zero bytes decode to
    the zero record, whatever follows them, and no record serializes to
    such bytes. *)
Theorem Deserialize_accepts_zero_bytes :
  forall rest : list byte,
    Deserialize (x00 :: x00 :: x00 :: x00 :: rest) = Some (Info_at 0)
    /\ forall s : Info, Serialize s <> x00 :: x00 :: x00 :: x00 :: rest.
Proof.
  intros rest. split; [apply CodecMore.Deserialize_zeros|].
  intros s E. destruct (CodecMore.Serialize_finished s) as (b & Eb & Hb).
  destruct (CodecMore.finished_first 165 b Hb ltac:(lia)) as (c & t & Ec & Hc).
  rewrite Eb, Ec in E. injection E as -> _. apply Hc. reflexivity.
Qed.
